(** * ETA command-line tool: record search, sort and limit pipeline

    A shallow embedding of the record-filtering helpers of
    [eta/core/cli.py] ([_filter_records], [_parse_search_str],
    [_make_match_fcn], [_make_any_match_fcn], [_split_on_chars],
    [_remove_escapes], the [Searcher] classes and the rendering helpers),
    together with the directory synchronisation plan of the storage
    clients, and the properties that the design document states about
    them.  The helpers around them are embedded as well: the parsing of
    remote paths, the tables and the list commands that print them, the
    grouping of names by directory, the download commands, the display
    of credentials, and the request that [eta build] puts together.

    Python semantics are those of Python 3: dictionaries iterate in
    insertion order, ordering comparisons between values of different
    types raise [TypeError], and [datetime.astimezone] accepts naive
    datetimes (taking them to be local time).

    A [str] is a sequence of characters; the characters of this
    development are the 256 code points U+0000 to U+00FF, one [ascii] per
    character.  The methods of [str] that depend on what a character is
    ([lower], [strip]) are embedded as Python defines them on these code
    points, so with the capital letters and the white space of the
    Latin-1 block. *)

From Stdlib Require Import ZArith Lia Ascii String List Bool DecimalString.
From Stdlib Require Import Sorting.Permutation Sorting.Sorted.
From stdpp Require Import base option list strings gmap.

Local Open Scope Z_scope.

(* ===================================================================== *)
(** * Part I: the program *)
(* ===================================================================== *)

(** ** Exceptions

    The three [KeyError]s that [cli.py] raises itself carry the data that
    is formatted into their message; [KeyError_missing] is the plain
    [KeyError] of a dictionary subscript [d[k]] on an absent key.
    [ValueError] is what the parsers of literals raise, on the literal. *)

Inductive exn : Type :=
| KeyError_unsupported_key
    (search_str key key_normalized : string) (supported : list string)
| KeyError_unsupported_delimiter (search_str delimiter : string)
| KeyError_sort_by
    (sort_by sort_by_normalized : string) (supported : list string)
| KeyError_missing (key : string)
| TypeError
| AttributeError
| ValueError (literal : string).

Inductive result (A : Type) : Type :=
| Ok (a : A)
| Raise (e : exn).
Arguments Ok {A} a.
Arguments Raise {A} e.

(** Sequencing, written [x ← m; k]: an exception raised by [m] propagates. *)
#[global] Instance result_bind : MBind result :=
  fun A B (k : A -> result B) (m : result A) =>
    match m with
    | Ok a => k a
    | Raise e => Raise e
    end.

#[global] Instance result_ret : MRet result := fun A a => Ok a.

Definition is_ok {A : Type} (m : result A) : bool :=
  match m with Ok _ => true | Raise _ => false end.

(** ** Python [str] methods used by [cli.py] *)

Module PyStr.

Definition backslash : ascii := Ascii.ascii_of_nat 92.

Definition is_backslash (c : ascii) : bool := Ascii.eqb c backslash.

(** [c in chars] for a one-character [c]. *)
Fixpoint mem (c : ascii) (chars : string) : bool :=
  match chars with
  | EmptyString => false
  | String d chars' => Ascii.eqb c d || mem c chars'
  end.

(** [str.lower] on one character.  The characters with a lower-case
    form are the letters A to Z and the capital letters of the Latin-1
    block, U+00C0 to U+00DE without the multiplication sign U+00D7; the
    lower-case form is 32 code points up.  Every other character is its
    own lower-case form. *)
Definition lower_char (c : ascii) : ascii :=
  let n := Ascii.nat_of_ascii c in
  if ((Nat.leb 65 n && Nat.leb n 90)
      || (Nat.leb 192 n && Nat.leb n 214)
      || (Nat.leb 216 n && Nat.leb n 222))%bool
  then Ascii.ascii_of_nat (n + 32) else c.

Fixpoint lower (s : string) : string :=
  match s with
  | EmptyString => EmptyString
  | String c s' => String (lower_char c) (lower s')
  end.

(** The white space that [str.strip] removes: TAB, LF, VT, FF, CR, the
    four separators FS, GS, RS, US, the space, the next-line character
    U+0085 and the no-break space U+00A0. *)
Definition is_space (c : ascii) : bool :=
  let n := Ascii.nat_of_ascii c in
  ((Nat.leb 9 n && Nat.leb n 13) || (Nat.leb 28 n && Nat.leb n 32)
   || Nat.eqb n 133 || Nat.eqb n 160)%bool.

Fixpoint lstrip (s : string) : string :=
  match s with
  | EmptyString => EmptyString
  | String c s' => if is_space c then lstrip s' else s
  end.

Fixpoint rstrip (s : string) : string :=
  match s with
  | EmptyString => EmptyString
  | String c s' =>
      match rstrip s' with
      | EmptyString => if is_space c then EmptyString else String c EmptyString
      | t => String c t
      end
  end.

(** [s.strip()] *)
Definition strip (s : string) : string := rstrip (lstrip s).

(** [s.replace(a, b)] for one-character [a] and [b]. *)
Fixpoint replace (a b : ascii) (s : string) : string :=
  match s with
  | EmptyString => EmptyString
  | String c s' => String (if Ascii.eqb c a then b else c) (replace a b s')
  end.

(** [sub in s] *)
Fixpoint contains (sub s : string) : bool :=
  String.prefix sub s ||
  match s with
  | EmptyString => false
  | String _ s' => contains sub s'
  end.

(** Lexicographic order by code point, as [str.__lt__]. *)
Fixpoint ltb (a b : string) : bool :=
  match a, b with
  | _, EmptyString => false
  | EmptyString, String _ _ => true
  | String x a', String y b' =>
      let nx := Ascii.nat_of_ascii x in
      let ny := Ascii.nat_of_ascii y in
      if Nat.ltb nx ny then true
      else if Nat.ltb ny nx then false
      else ltb a' b'
  end.

(** [s.endswith("\\")] *)
Fixpoint ends_with_backslash (s : string) : bool :=
  match s with
  | EmptyString => false
  | String c EmptyString => is_backslash c
  | String _ s' => ends_with_backslash s'
  end.

(** ["".join(chunks)] *)
Fixpoint join (chunks : list string) : string :=
  match chunks with
  | [] => EmptyString
  | t :: rest => t +:+ join rest
  end.

End PyStr.

(** ** [re.split] and [re.sub] on the two patterns of [cli.py] *)

(** [_split_on_chars] calls [re.split] with the pattern
    [(?<!\\)([chars]+)]: a match starts at the first position that holds a
    character of [chars] and is not directly preceded by a backslash, and
    extends (greedily) over the whole run of characters of [chars] that
    follows.  Because the run is a capture group, [re.split] returns the
    pieces of text between the matches and the matched runs alternately,
    starting and ending with a piece of text.

    The scanner below reads the string once, left to right.  In mode
    [Text esc] it is outside a match and [esc] tells whether the previous
    character was a backslash; in mode [Delim] it is inside a run.
    [budget] is the number of matches that may still be split on ([None]:
    no bound).  A character is filed into the chunk at the head of the
    chunks produced for the rest of the string.

    The characters of [chars] stand for themselves, as those of the two
    sets that [cli.py] passes, [,] and [:=<>], do in a character class and
    in an alternation. *)

Inductive scan_mode : Type :=
| Text (esc : bool)
| Delim.

Definition push (c : ascii) (chunks : list string) : list string :=
  match chunks with
  | [] => [String c EmptyString]
  | t :: rest => String c t :: rest
  end.

Definition may_split (budget : option nat) : bool :=
  match budget with
  | Some O => false
  | _ => true
  end.

Definition spend (budget : option nat) : option nat :=
  match budget with
  | Some n => Some (Nat.pred n)
  | None => None
  end.

Fixpoint re_split_scan (chars : string) (budget : option nat)
    (m : scan_mode) (s : string) : list string :=
  match s with
  | EmptyString =>
      match m with
      | Text _ => [EmptyString]
      | Delim => [EmptyString; EmptyString]
      end
  | String c s' =>
      match m with
      | Text esc =>
          if (PyStr.mem c chars && negb esc && may_split budget)%bool
          then EmptyString :: push c (re_split_scan chars (spend budget) Delim s')
          else push c (re_split_scan chars budget (Text (PyStr.is_backslash c)) s')
      | Delim =>
          if PyStr.mem c chars
          then push c (re_split_scan chars budget Delim s')
          else EmptyString ::
               push c (re_split_scan chars budget (Text (PyStr.is_backslash c)) s')
      end
  end.

(** [re.split("(?<!\\\\)([" + chars + "]+)", s, maxsplit)]; a [maxsplit]
    of [0] means that every match is split on. *)
Definition re_split (chars : string) (s : string) (maxsplit : nat)
  : list string :=
  re_split_scan chars (match maxsplit with O => None | S _ => Some maxsplit end)
    (Text false) s.

(** [chunks[::2]] *)
Fixpoint every_other (chunks : list string) : list string :=
  match chunks with
  | [] => []
  | [t] => [t]
  | t :: _ :: rest => t :: every_other rest
  end.

Definition _split_on_chars (s chars : string) (max_splits : option nat)
    (keep_delimiters : bool) : list string :=
  let max_splits := match max_splits with Some n => n | None => O end in
  let chunks := re_split chars s max_splits in
  if keep_delimiters then chunks else every_other chunks.

(** [re.sub("\\\(" + "|".join(chars) + ")", "\\1", s)]: the pattern is a
    backslash followed by one character of [chars], which is captured;
    every match, found left to right, is replaced by the captured
    character. *)
Fixpoint _remove_escapes (s chars : string) : string :=
  match s with
  | EmptyString => EmptyString
  | String c s' =>
      match s' with
      | String d s'' =>
          if (PyStr.is_backslash c && PyStr.mem d chars)%bool
          then String d (_remove_escapes s'' chars)
          else String c (_remove_escapes s' chars)
      | EmptyString => String c EmptyString
      end
  end.

(** ** Python [datetime] values

    A [datetime] is a wall-clock reading, counted in seconds on the
    proleptic Gregorian calendar from 1970-01-01 00:00:00, with an optional
    time zone ([None]: a naive datetime).  A zone gives the UTC offset that
    applies at a wall-clock reading ([tzinfo.utcoffset]) and the
    wall-clock reading of a UTC instant ([tzinfo.fromutc]); [tz_key]
    stands for the identity of the zone object. *)

Record tzinfo : Type := mk_tzinfo {
  tz_key : string;
  tz_utcoffset : Z -> Z;
  tz_fromutc : Z -> Z
}.

Record datetime : Type := mk_datetime {
  dt_wall : Z;
  dt_tzinfo : option tzinfo
}.

Module PyDatetime.

(** [a is b] on zone objects *)
Definition same_zone (a b : tzinfo) : bool := String.eqb (tz_key a) (tz_key b).

(** The UTC instant [dt - dt.utcoffset()] of an aware datetime read in
    zone [z]. *)
Definition to_utc (z : tzinfo) (wall : Z) : Z := wall - tz_utcoffset z wall.

(** [dt.astimezone(tz)]; a naive [dt] is taken to be in the system's
    local zone [system]. *)
Definition astimezone (system : tzinfo) (dt : datetime) (tz : tzinfo)
  : datetime :=
  let mytz := match dt_tzinfo dt with Some z => z | None => system end in
  if same_zone tz mytz && bool_decide (is_Some (dt_tzinfo dt)) then dt
  else mk_datetime (tz_fromutc tz (to_utc mytz (dt_wall dt))) (Some tz).

(** Three-way comparison of [datetime.__eq__], [__lt__], ...: [None]
    when one side is naive and the other aware. *)
Definition cmp (a b : datetime) : option comparison :=
  match dt_tzinfo a, dt_tzinfo b with
  | None, None => Some (dt_wall a ?= dt_wall b)
  | Some za, Some zb =>
      if same_zone za zb then Some (dt_wall a ?= dt_wall b)
      else Some (to_utc za (dt_wall a) ?= to_utc zb (dt_wall b))
  | _, _ => None
  end.

(** A zone with a constant offset, as [datetime.timezone]. *)
Definition fixed_zone (name : string) (offset : Z) : tzinfo :=
  mk_tzinfo name (fun _ => offset) (fun utc => utc + offset).

End PyDatetime.

(** ** Values of record fields *)

Inductive value : Type :=
| VNone
| VStr (s : string)
| VInt (n : Z)
| VDatetime (d : datetime).

(** A metadata record is a [dict] from attribute names to values, in
    insertion order. *)
Definition record : Type := list (string * value).

Fixpoint dict_get {V : Type} (d : list (string * V)) (k : string) : option V :=
  match d with
  | [] => None
  | (k', v) :: d' => if String.eqb k k' then Some v else dict_get d' k
  end.

(** [list(d)]: the keys, in order *)
Definition dict_keys {V : Type} (d : list (string * V)) : list string :=
  map fst d.

(** [itervalues(d)] *)
Definition dict_values {V : Type} (d : list (string * V)) : list V :=
  map snd d.

(** [d[k]] *)
Definition subscript {V : Type} (d : list (string * V)) (k : string)
  : result V :=
  match dict_get d k with
  | Some v => Ok v
  | None => Raise (KeyError_missing k)
  end.

(** ** The functions of [operator] *)

(** A binary relation passed as [op]; applying it may raise. *)
Definition binop : Type := value -> value -> result bool.

(** [a == b] never raises: values of different types are unequal. *)
Definition value_eqb (a b : value) : bool :=
  match a, b with
  | VNone, VNone => true
  | VStr x, VStr y => String.eqb x y
  | VInt x, VInt y => Z.eqb x y
  | VDatetime x, VDatetime y =>
      match PyDatetime.cmp x y with Some Eq => true | _ => false end
  | _, _ => false
  end.

(** Three-way ordering of two values, [None] where Python 3 raises
    [TypeError] (values of different types, [None], naive against aware
    datetimes). *)
Definition value_cmp (a b : value) : option comparison :=
  match a, b with
  | VStr x, VStr y =>
      Some (if PyStr.ltb x y then Lt else if PyStr.ltb y x then Gt else Eq)
  | VInt x, VInt y => Some (x ?= y)
  | VDatetime x, VDatetime y => PyDatetime.cmp x y
  | _, _ => None
  end.

Definition ordering (test : comparison -> bool) : binop :=
  fun a b =>
    match value_cmp a b with
    | Some c => Ok (test c)
    | None => Raise TypeError
    end.

Module operator.
Definition eq : binop := fun a b => Ok (value_eqb a b).
Definition lt : binop :=
  ordering (fun c => match c with Lt => true | _ => false end).
Definition le : binop :=
  ordering (fun c => match c with Gt => false | _ => true end).
Definition gt : binop :=
  ordering (fun c => match c with Gt => true | _ => false end).
Definition ge : binop :=
  ordering (fun c => match c with Lt => false | _ => true end).
End operator.

(** ** What [cli.py] imports

    [tzlocal.get_localzone], [dateutil.parser.isoparse] and the
    formatting of datetimes belong to libraries; [to_human_bytes_str] and
    [from_human_bytes_str] belong to [eta.core.utils].  The program is
    parametrised by them. *)

Class Externals : Type := {
  (** [tzlocal.get_localzone()], also the zone that [astimezone] assumes
      for a naive datetime *)
  get_localzone : tzinfo;
  (** [dateutil.parser.isoparse] *)
  isoparse : string -> result datetime;
  (** [dt.strftime("%Y-%m-%d %H:%M:%S %Z")] *)
  strftime : datetime -> string;
  (** [str(dt)] *)
  datetime_str : datetime -> string;
  (** [etau.to_human_bytes_str] *)
  to_human_bytes_str : Z -> string;
  (** [etau.from_human_bytes_str] *)
  from_human_bytes_str : string -> result Z
}.

(** [str(n)] for an [int] *)
Definition int_str (n : Z) : string :=
  DecimalString.NilZero.string_of_int (Z.to_int n).

(** [str(v)] *)
Definition py_str `{Externals} (v : value) : string :=
  match v with
  | VNone => "None"
  | VStr s => s
  | VInt n => int_str n
  | VDatetime d => datetime_str d
  end.

(** *** Rendering helpers *)

Definition _parse_datetime `{Externals} (datetime_or_str : value) : result datetime :=
  dt ← match datetime_or_str with
       | VStr s => isoparse s
       | VDatetime d => Ok d
       | VNone | VInt _ => Raise AttributeError
       end;
  Ok (PyDatetime.astimezone get_localzone dt get_localzone).

Definition _render_bytes `{Externals} (size : value) : result string :=
  match size with
  | VNone => Ok "-"
  | VInt n => if n <? 0 then Ok "-" else Ok (to_human_bytes_str n)
  | VStr _ | VDatetime _ => Raise TypeError
  end.

Definition _render_datetime `{Externals} (dt : value) : result string :=
  d ← _parse_datetime dt;
  Ok (strftime d).

(** *** Searchers *)

Record Searcher : Type := mk_Searcher {
  name : string;
  contains : string -> value -> result bool;
  compare : string -> value -> binop -> result bool
}.

Definition StringSearcher `{Externals} (name : string) : Searcher :=
  {| name := name;
     contains usr rec := Ok (PyStr.contains usr (py_str rec));
     compare usr rec op := op (VStr usr) (VStr (py_str rec)) |}.

Definition BytesSearcher `{Externals} (name : string) : Searcher :=
  {| name := name;
     contains usr rec :=
       rec_str ← _render_bytes rec;          (* bytes -> string *)
       Ok (PyStr.contains usr rec_str);
     compare usr rec op :=
       usr_bytes ← from_human_bytes_str usr; (* string -> bytes *)
       op (VInt usr_bytes) rec |}.

Definition DatetimeSearcher `{Externals} (name : string) : Searcher :=
  {| name := name;
     contains usr rec :=
       rec_str ← _render_datetime rec;       (* datetime -> local string *)
       Ok (PyStr.contains usr rec_str);
     compare usr rec op :=
       rec_dt ← _parse_datetime rec;         (* datetime -> local datetime *)
       usr_dt ← _parse_datetime (VStr usr);  (* str -> local datetime *)
       op (VDatetime usr_dt) (VDatetime rec_dt) |}.

(** A field map is a [dict] from the field names of the search syntax to
    searchers, in the order in which it is written. *)
Definition field_map_t : Type := list (string * Searcher).

Definition _S3_SEARCH_FIELDS_MAP `{Externals} : field_map_t :=
  [ ("bucket", StringSearcher "bucket");
    ("name", StringSearcher "object_name");
    ("size", BytesSearcher "size");
    ("type", StringSearcher "mime_type");
    ("last_modified", DatetimeSearcher "last_modified") ].

Definition _GCS_SEARCH_FIELDS_MAP `{Externals} : field_map_t :=
  [ ("bucket", StringSearcher "bucket");
    ("name", StringSearcher "object_name");
    ("size", BytesSearcher "size");
    ("type", StringSearcher "mime_type");
    ("last_modified", DatetimeSearcher "last_modified") ].

Definition _GOOGLE_DRIVE_SEARCH_FIELDS_MAP `{Externals} : field_map_t :=
  [ ("id", StringSearcher "id");
    ("name", StringSearcher "name");
    ("size", BytesSearcher "size");
    ("type", StringSearcher "mime_type");
    ("last_modified", DatetimeSearcher "last_modified") ].

(** *** Parsing a search string *)

(** [key.lower().strip().replace(" ", "_")] *)
Definition normalize (key : string) : string :=
  PyStr.replace " " "_" (PyStr.strip (PyStr.lower key)).

Definition _SEARCH_COMPARISON_OPERATORS : list (string * binop) :=
  [ ("==", operator.eq);
    ("<", operator.gt);
    ("<=", operator.ge);
    (">", operator.lt);
    (">=", operator.le) ].

(** A predicate on records, as returned by the two [_make_..._fcn]. *)
Definition match_fcn : Type := record -> result bool.

(** [{s.name: s for s in itervalues(field_map)}]: of two searchers with
    the same name, the later one stays. *)
Definition make_searcher_map (field_map : field_map_t) : gmap string Searcher :=
  foldl (fun m s => <[name s := s]> m) ∅ (dict_values field_map).

(** The loop [for name in record: ...] of [_any_match_fcn], over the keys
    [names] still to visit. *)
Fixpoint any_match_loop (searcher_map : gmap string Searcher)
    (value : string) (record : record) (names : list string) : result bool :=
  match names with
  | [] => Ok false
  | name :: names' =>
      match searcher_map !! name with
      | Some searcher =>
          v ← subscript record name;
          hit ← contains searcher value v;
          if hit : bool then Ok true
          else any_match_loop searcher_map value record names'
      | None => any_match_loop searcher_map value record names'
      end
  end.

Definition _make_any_match_fcn (value : string) (field_map : field_map_t)
  : match_fcn :=
  let value := PyStr.strip (_remove_escapes value ",:=<>") in
  let searcher_map := make_searcher_map field_map in
  fun record => any_match_loop searcher_map value record (dict_keys record).

Definition _make_match_fcn (key value delimiter : string)
    (field_map : field_map_t) (search_str : string) : result match_fcn :=
  let key_normalized := normalize key in
  let value := PyStr.strip (_remove_escapes value ",:=<>") in
  match dict_get field_map key_normalized with
  | None =>
      Raise (KeyError_unsupported_key search_str key key_normalized
               (dict_keys field_map))
  | Some searcher =>
      if String.eqb delimiter ":" then
        (* Contains search *)
        Ok (fun record =>
              v ← subscript record (name searcher);
              contains searcher value v)
      else
        match dict_get _SEARCH_COMPARISON_OPERATORS delimiter with
        | None => Raise (KeyError_unsupported_delimiter search_str delimiter)
        | Some op =>
            (* Comparison search *)
            Ok (fun record =>
                  v ← subscript record (name searcher);
                  compare searcher value v op)
        end
  end.

(** One clause of the search string: what the generator yields for it, or
    the exception that it raises when it reaches the clause. *)
Definition parse_clause (s : string) (field_map : field_map_t)
    (search_str : string) : result match_fcn :=
  match _split_on_chars s ":=<>" (Some 1%nat) true with
  | [value] =>
      (* Any field contains value *)
      Ok (_make_any_match_fcn value field_map)
  | [key; delimiter; value] =>
      (* Match specific field *)
      _make_match_fcn key value delimiter field_map search_str
  | _ => Raise (ValueError s)
  end.

(** The generator [_parse_search_str], as the list of its steps: the
    [n]-th step runs only when the consumer asks for the [n]-th predicate. *)
Definition _parse_search_str (search_str : string) (field_map : field_map_t)
  : list (result match_fcn) :=
  map (fun s => parse_clause s field_map search_str)
      (_split_on_chars search_str "," None false).

(** *** The built-in [sorted] *)

(** [a < b] on sort keys that can be ordered *)
Definition key_ltb (a b : value) : bool :=
  match value_cmp a b with Some Lt => true | _ => false end.

Definition comparable (a b : value) : bool :=
  match value_cmp a b with Some _ => true | None => false end.

(** Keys are computed once per element; the sort then works on the pairs
    of a key and its element. *)
Definition keyed : Type := (value * record)%type.

(** Insertion in front of the first element that is not smaller: among
    elements with equal keys, the inserted one stays first. *)
Fixpoint insert_keyed (x : keyed) (l : list keyed) : list keyed :=
  match l with
  | [] => [x]
  | y :: l' =>
      if key_ltb (fst y) (fst x) then y :: insert_keyed x l' else x :: l
  end.

Fixpoint stable_sort (l : list keyed) : list keyed :=
  match l with
  | [] => []
  | x :: l' => insert_keyed x (stable_sort l')
  end.

(** [key(r)] for every [r], in order *)
Fixpoint compute_keys (key : record -> result value) (records : list record)
  : result (list keyed) :=
  match records with
  | [] => Ok []
  | r :: rs =>
      k ← key r;
      ks ← compute_keys key rs;
      Ok ((k, r) :: ks)
  end.

(** [sorted(records, key=key, reverse=reverse)].  The sort compares keys
    with [<] only and is stable; with [reverse] the list is reversed,
    sorted, and reversed again, which keeps elements with equal keys in
    their original order.  To order two or more elements it has to compare
    keys, and it raises [TypeError] when they cannot all be compared with
    each other. *)
Definition sorted (records : list record) (key : record -> result value)
    (reverse : bool) : result (list record) :=
  keys ← compute_keys key records;
  match keys with
  | [] | [_] => Ok records
  | (k0, _) :: _ =>
      if forallb (fun kr => comparable k0 (fst kr)) keys
      then Ok (map snd (if reverse then rev (stable_sort (rev keys))
                        else stable_sort keys))
      else Raise TypeError
  end.

Definition is_KeyError (e : exn) : bool :=
  match e with
  | KeyError_unsupported_key _ _ _ _ | KeyError_unsupported_delimiter _ _
  | KeyError_sort_by _ _ _ | KeyError_missing _ => true
  | TypeError | AttributeError | ValueError _ => false
  end.

(** *** The pipeline *)

(** [[r for r in records if match_fcn(r)]] *)
Fixpoint filter_by (f : match_fcn) (records : list record)
  : result (list record) :=
  match records with
  | [] => Ok []
  | r :: rs =>
      keep ← f r;
      rest ← filter_by f rs;
      Ok (if keep : bool then r :: rest else rest)
  end.

(** The loop [for match_fcn in _parse_search_str(...)] over the steps of
    the generator. *)
Fixpoint search_loop (steps : list (result match_fcn)) (records : list record)
  : result (list record) :=
  match steps with
  | [] => Ok records
  | step :: steps' =>
      f ← step;
      records ← filter_by f records;
      search_loop steps' records
  end.

Definition _filter_records (records : list record) (limit : Z)
    (search_str sort_by : option string) (ascending : bool)
    (field_map : field_map_t) : result (list record) :=
  records ←
    match search_str with
    | None | Some EmptyString => Ok records
    | Some search_str =>
        search_loop (_parse_search_str search_str field_map) records
    end;
  let reverse := negb ascending in
  records ←
    match sort_by with
    | Some (String _ _ as sort_by) =>
        let sort_by_normalized := normalize sort_by in
        let key := fun r : record => subscript r sort_by_normalized in
        match sorted records key reverse with
        | Raise e =>
            if is_KeyError e
            then Raise (KeyError_sort_by sort_by sort_by_normalized
                          (dict_keys field_map))
            else Raise e
        | Ok records => Ok records
        end
    | None | Some EmptyString =>
        if reverse then Ok (rev records) else Ok records
    end;
  Ok (if 0 <? limit then take (Z.to_nat limit) records else records).

(** ** A reference environment

    An instance of [Externals] on which the pipeline can be run: the
    local zone is a fixed five hours behind UTC, datetimes are read and
    written in the extended ISO-8601 format, and byte sizes in binary
    units. *)

Module Calendar.

(** Days since 1970-01-01 of a date of the proleptic Gregorian calendar. *)
Definition days_from_civil (y m d : Z) : Z :=
  let y := if m <=? 2 then y - 1 else y in
  let era := y / 400 in
  let yoe := y - era * 400 in
  let doy := (153 * (if 2 <? m then m - 3 else m + 9) + 2) / 5 + d - 1 in
  let doe := yoe * 365 + yoe / 4 - yoe / 100 + doy in
  era * 146097 + doe - 719468.

(** The inverse: year, month and day of a day number. *)
Definition civil_from_days (z : Z) : Z * Z * Z :=
  let z := z + 719468 in
  let era := z / 146097 in
  let doe := z - era * 146097 in
  let yoe := (doe - doe / 1460 + doe / 36524 - doe / 146096) / 365 in
  let doy := doe - (365 * yoe + yoe / 4 - yoe / 100) in
  let mp := (5 * doy + 2) / 153 in
  let d := doy - (153 * mp + 2) / 5 + 1 in
  let m := if mp <? 10 then mp + 3 else mp - 9 in
  let y := yoe + era * 400 in
  (if m <=? 2 then y + 1 else y, m, d).

Definition digit (c : ascii) : option Z :=
  let n := Ascii.nat_of_ascii c in
  if (Nat.leb 48 n && Nat.leb n 57)%bool then Some (Z.of_nat n - 48) else None.

(** Exactly [n] decimal digits at the head of [s]. *)
Fixpoint read_digits (n : nat) (acc : Z) (s : string) : option (Z * string) :=
  match n with
  | O => Some (acc, s)
  | S n' =>
      match s with
      | String c s' => d ← digit c; read_digits n' (10 * acc + d) s'
      | EmptyString => None
      end
  end.

(** All the decimal digits at the head of [s], and how many. *)
Fixpoint read_number (acc : Z) (count : nat) (s : string) : Z * nat * string :=
  match s with
  | String c s' =>
      match digit c with
      | Some d => read_number (10 * acc + d) (S count) s'
      | None => (acc, count, s)
      end
  | EmptyString => (acc, count, s)
  end.

Definition expect (c : ascii) (s : string) : option string :=
  match s with
  | String d s' => if Ascii.eqb c d then Some s' else None
  | EmptyString => None
  end.

Definition in_range (lo x hi : Z) : option unit :=
  if (lo <=? x) && (x <=? hi) then Some () else None.

(** [Z], [+HH:MM] or [-HH:MM] at the end of a literal; nothing for a
    naive datetime. *)
Definition read_offset (s : string) : option (option tzinfo) :=
  match s with
  | EmptyString => Some None
  | String c s' =>
      if Ascii.eqb c "Z" then
        match s' with
        | EmptyString => Some (Some (PyDatetime.fixed_zone "UTC" 0))
        | _ => None
        end
      else
        sign ← (if Ascii.eqb c "+" then Some 1
                 else if Ascii.eqb c "-" then Some (-1) else None);
        '(h, s1) ← read_digits 2 0 s';
        s2 ← expect ":" s1;
        '(m, s3) ← read_digits 2 0 s2;
        _ ← in_range 0 h 23;
        _ ← in_range 0 m 59;
        match s3 with
        | EmptyString =>
            Some (Some (PyDatetime.fixed_zone ("UTC" +:+ s)
                          (sign * (h * 3600 + m * 60))))
        | _ => None
        end
  end.

(** [YYYY-MM-DD], optionally followed by [THH:MM] or [THH:MM:SS] and an
    offset. *)
Definition read_iso (s : string) : option datetime :=
  '(y, s) ← read_digits 4 0 s;
  s ← expect "-" s;
  '(m, s) ← read_digits 2 0 s;
  s ← expect "-" s;
  '(d, s) ← read_digits 2 0 s;
  _ ← in_range 1 m 12;
  _ ← in_range 1 d 31;
  let date := days_from_civil y m d * 86400 in
  match s with
  | EmptyString => Some (mk_datetime date None)
  | String c s =>
      _ ← (if Ascii.eqb c "T" then Some () else None);
      '(hh, s) ← read_digits 2 0 s;
      s ← expect ":" s;
      '(mm, s) ← read_digits 2 0 s;
      '(ss, s) ← match expect ":" s with
                 | Some s => read_digits 2 0 s
                 | None => Some (0, s)
                 end;
      _ ← in_range 0 hh 23;
      _ ← in_range 0 mm 59;
      _ ← in_range 0 ss 59;
      tz ← read_offset s;
      Some (mk_datetime (date + hh * 3600 + mm * 60 + ss) tz)
  end.

Definition pad2 (n : Z) : string :=
  if n <? 10 then "0" +:+ int_str n else int_str n.

Definition pad4 (n : Z) : string :=
  if n <? 10 then "000" +:+ int_str n
  else if n <? 100 then "00" +:+ int_str n
  else if n <? 1000 then "0" +:+ int_str n
  else int_str n.

(** [YYYY-MM-DD HH:MM:SS] of a wall-clock reading *)
Definition civil_str (wall : Z) : string :=
  let '(y, m, d) := civil_from_days (wall / 86400) in
  let secs := wall mod 86400 in
  pad4 y +:+ "-" +:+ pad2 m +:+ "-" +:+ pad2 d +:+ " " +:+
  pad2 (secs / 3600) +:+ ":" +:+ pad2 (secs mod 3600 / 60) +:+ ":" +:+
  pad2 (secs mod 60).

Definition offset_str (offset : Z) : string :=
  (if offset <? 0 then "-" else "+") +:+
  pad2 (Z.abs offset / 3600) +:+ ":" +:+ pad2 (Z.abs offset mod 3600 / 60).

End Calendar.

Module ByteSize.

Definition unit_exponent (unit : string) : option Z :=
  if String.eqb unit "" || String.eqb unit "b" || String.eqb unit "bytes"
  then Some 0
  else if String.eqb unit "k" || String.eqb unit "kb" then Some 1
  else if String.eqb unit "m" || String.eqb unit "mb" then Some 2
  else if String.eqb unit "g" || String.eqb unit "gb" then Some 3
  else if String.eqb unit "t" || String.eqb unit "tb" then Some 4
  else None.

(** Modelled from the spec: [eta.core.utils.from_human_bytes_str], which
    is not part of the sources at hand.  The literal is a decimal number
    followed by an optional unit suffix (bytes, KB, MB, GB, TB, case
    insensitive; decimal values allowed) and is converted to an integer
    byte count.  Units are binary. *)
Definition from_human_bytes_str (bytes_str : string) : result Z :=
  let '(whole, count, rest) := Calendar.read_number 0 0 (PyStr.strip bytes_str) in
  let '(frac, places, rest) :=
    match Calendar.expect "." rest with
    | Some rest' => Calendar.read_number 0 0 rest'
    | None => (0, O, rest)
    end in
  match count, unit_exponent (PyStr.lower (PyStr.strip rest)) with
  | S _, Some e =>
      Ok ((whole * 10 ^ Z.of_nat places + frac) * 1024 ^ e
          / 10 ^ Z.of_nat places)
  | _, _ => Raise (ValueError bytes_str)
  end.

Definition unit_name (e : Z) : string :=
  if e =? 0 then "B" else if e =? 1 then "KB" else if e =? 2 then "MB"
  else if e =? 3 then "GB" else "TB".

(** Modelled from the spec: [eta.core.utils.to_human_bytes_str], which is
    not part of the sources at hand.  The size is rendered as a
    human-readable byte string such as ["12.3 MB"]: one decimal, a space
    and the largest binary unit that the size reaches. *)
Definition to_human_bytes_str (num_bytes : Z) : string :=
  let e := if num_bytes <? 1024 then 0
           else if num_bytes <? 1024 ^ 2 then 1
           else if num_bytes <? 1024 ^ 3 then 2
           else if num_bytes <? 1024 ^ 4 then 3 else 4 in
  let tenths := (num_bytes * 10 + 1024 ^ e / 2) / 1024 ^ e in
  int_str (tenths / 10) +:+ "." +:+ int_str (tenths mod 10) +:+ " " +:+
  unit_name e.

End ByteSize.

Definition reference_zone : tzinfo := PyDatetime.fixed_zone "EST" (-18000).

Definition reference_externals : Externals :=
  {| get_localzone := reference_zone;
     isoparse s :=
       match Calendar.read_iso s with
       | Some d => Ok d
       | None => Raise (ValueError s)
       end;
     strftime d :=
       Calendar.civil_str (dt_wall d) +:+ " " +:+
       match dt_tzinfo d with Some z => tz_key z | None => "" end;
     datetime_str d :=
       Calendar.civil_str (dt_wall d) +:+
       match dt_tzinfo d with
       | Some z => Calendar.offset_str (tz_utcoffset z (dt_wall d))
       | None => ""
       end;
     to_human_bytes_str := ByteSize.to_human_bytes_str;
     from_human_bytes_str := ByteSize.from_human_bytes_str |}.

(** ** Directory synchronisation *)

Module Sync.

Inductive direction : Type := Upload | Download.

Inductive action : Type := Transfer | Skip.

#[global] Instance action_eq_dec : EqDecision action.
Proof. solve_decision. Defined.

(** An ordered list of relative paths with what is to be done with them. *)
Definition SyncPlan : Type := list (string * action).

(** The side that files are copied from, and the side they are copied
    to: [L] holds the relative paths under the local root, [R] those
    under the remote root. *)
Definition source (d : direction) (L R : gset string) : gset string :=
  match d with Upload => L | Download => R end.

Definition dest (d : direction) (L R : gset string) : gset string :=
  match d with Upload => R | Download => L end.

(** Modelled from the spec: [syncDir], the planning phase of the
    [upload_dir_sync] and [download_dir_sync] methods of the storage
    clients ([eta.core.storage]), which are not part of the sources at
    hand.  A file of the source that the destination lacks is always
    transferred; a file that both sides have is transferred only if
    [overwrite] is set and is skipped otherwise; files that only the
    destination has are not part of the plan. *)
Definition syncDir (d : direction) (overwrite : bool) (L R : gset string)
  : SyncPlan :=
  map (fun p =>
         (p, if bool_decide (p ∈ dest d L R)
             then (if overwrite then Transfer else Skip)
             else Transfer))
      (elements (source d L R)).

(** The paths of a plan that carry action [a]. *)
Definition planned (a : action) (plan : SyncPlan) : gset string :=
  list_to_set (map fst (List.filter (fun pa => bool_decide (snd pa = a)) plan)).

End Sync.

(** ** Vocabulary of the statements *)

(** For every position of [s], whether the character there is directly
    preceded by a backslash ([esc]: whether one precedes the string). *)
Fixpoint escaped_positions (esc : bool) (s : string) : list bool :=
  match s with
  | EmptyString => []
  | String c s' => esc :: escaped_positions (PyStr.is_backslash c) s'
  end.

(** For every position of [s], whether the character there is one of
    [chars] and not directly preceded by a backslash. *)
Fixpoint unescaped_positions (chars : string) (esc : bool) (s : string)
  : list bool :=
  match s with
  | EmptyString => []
  | String c s' =>
      (PyStr.mem c chars && negb esc)%bool ::
      unescaped_positions chars (PyStr.is_backslash c) s'
  end.

(** For every position of the concatenation of [chunks], whether it lies
    in a delimiter chunk; text and delimiter chunks alternate and
    [in_delim] tells what the first chunk is. *)
Fixpoint chunk_marks (in_delim : bool) (chunks : list string) : list bool :=
  match chunks with
  | [] => []
  | t :: rest =>
      replicate (String.length t) in_delim ++ chunk_marks (negb in_delim) rest
  end.

(** What the scanner's mode says about the position it is at: whether
    the position lies in a delimiter, and whether a backslash precedes
    it. *)
Definition mode_mark (m : scan_mode) : bool :=
  match m with Text _ => false | Delim => true end.

Definition mode_esc (m : scan_mode) : bool :=
  match m with Text esc => esc | Delim => false end.

(** Whether the text read so far ends in a backslash; [esc] answers for
    what precedes [s]. *)
Definition last_is_backslash (esc : bool) (s : string) : bool :=
  match s with
  | EmptyString => esc
  | String _ _ => PyStr.ends_with_backslash s
  end.

(** Every character of [s] is one of [chars]. *)
Fixpoint all_in (chars s : string) : bool :=
  match s with
  | EmptyString => true
  | String c s' => PyStr.mem c chars && all_in chars s'
  end.

(** [s] starts with one of [chars]. *)
Definition starts_in (chars s : string) : bool :=
  match s with
  | EmptyString => false
  | String c _ => PyStr.mem c chars
  end.

(** A clause [key delimiter value] as the user writes it: the key has no
    unescaped operator character and does not end in a backslash, and
    the value does not start with an operator character. *)
Definition well_formed_key (key : string) : bool :=
  forallb negb (unescaped_positions ":=<>" false key)
  && negb (PyStr.ends_with_backslash key).

Definition well_formed_value (value : string) : bool :=
  negb (starts_in ":=<>" value).

(** The predicate that reads attribute [name searcher] of a record and
    applies [test] to it. *)
Definition on_field (searcher : Searcher) (test : value -> result bool)
  : match_fcn :=
  fun record => v ← subscript record (name searcher); test v.

(** The clause is accepted and the predicate made for it behaves as [p]. *)
Definition parses_to (clause : string) (field_map : field_map_t)
    (search_str : string) (p : match_fcn) : Prop :=
  exists f, parse_clause clause field_map search_str = Ok f /\
            forall record, f record = p record.

(** A record of an S3 or GCS listing. *)
Definition object_record (object_name : string) (size : value)
    (last_modified : string) : record :=
  [ ("bucket", VStr "data");
    ("object_name", VStr object_name);
    ("size", size);
    ("mime_type", VStr "text/plain");
    ("last_modified", VStr last_modified) ].

Definition MB : Z := 1024 * 1024.

(** The first stage of [_filter_records] on its own: the records that
    pass the search, in listing order. *)
Definition search_stage (records : list record) (search_str : option string)
    (field_map : field_map_t) : result (list record) :=
  match search_str with
  | None | Some EmptyString => Ok records
  | Some search_str =>
      search_loop (_parse_search_str search_str field_map) records
  end.

(** [p] holds of [r]: it returns [True]. *)
Definition holds (p : match_fcn) (r : record) : bool :=
  match p r with Ok true => true | _ => false end.

(** Neighbours in a list: [a] directly followed by [b]. *)
Definition neighbours {A : Type} (l : list A) (a b : A) : Prop :=
  exists l1 l2, l = l1 ++ a :: b :: l2.

(** The order that the sort establishes: no element is smaller than the
    one before it. *)
Definition not_after (x y : keyed) : Prop := key_ltb (fst y) (fst x) = false.

(** ** Vocabulary of the further properties *)

(** The operators that [_make_match_fcn] accepts. *)
Definition supported_delimiters : list string :=
  [":"; "=="; "<"; "<="; ">"; ">="]%string.

(** Whether the first character is not whitespace, and whether the last
    one is not: what [lstrip] and [rstrip] establish. *)
Definition head_ok (s : string) : bool :=
  match s with
  | EmptyString => true
  | String c _ => negb (PyStr.is_space c)
  end.

Fixpoint last_ok (s : string) : bool :=
  match s with
  | EmptyString => true
  | String c EmptyString => negb (PyStr.is_space c)
  | String _ s' => last_ok s'
  end.

(** The upper-case letters, which [lower] maps away: A to Z, and U+00C0
    to U+00DE without U+00D7. *)
Definition is_upper (c : ascii) : bool :=
  let n := Ascii.nat_of_ascii c in
  ((Nat.leb 65 n && Nat.leb n 90)
   || (Nat.leb 192 n && Nat.leb n 214)
   || (Nat.leb 216 n && Nat.leb n 222))%bool.

Fixpoint has_upper (s : string) : bool :=
  match s with
  | EmptyString => false
  | String c s' => is_upper c || has_upper s'
  end.

(** Text chunks and delimiter chunks alternate; every delimiter chunk is a
    non-empty run of characters of [chars].  [in_delim] tells what the
    first chunk is. *)
Fixpoint delimiters_ok (chars : string) (in_delim : bool)
    (chunks : list string) : bool :=
  match chunks with
  | [] => true
  | t :: rest =>
      (if in_delim then negb (String.eqb t "") && all_in chars t else true)
      && delimiters_ok chars (negb in_delim) rest
  end.

(** Whether [s] holds a backslash that is directly followed by one of
    [chars]: something for [_remove_escapes] to replace. *)
Fixpoint has_escape (chars s : string) : bool :=
  match s with
  | EmptyString => false
  | String c s' =>
      match s' with
      | EmptyString => false
      | String d _ =>
          (PyStr.is_backslash c && PyStr.mem d chars) || has_escape chars s'
      end
  end.

(** A string that holds no comma except escaped ones: one clause. *)
Definition comma_free (s : string) : bool :=
  forallb negb (unescaped_positions "," false s).

(** A clause that can be written between commas: not empty, without an
    unescaped comma, and not ending in a backslash (which would escape the
    comma that follows). *)
Definition clause_ok (c : string) : bool :=
  negb (String.eqb c "") && comma_free c && negb (PyStr.ends_with_backslash c).

(** [sep.join(parts)] *)
Fixpoint join_with (sep : string) (parts : list string) : string :=
  match parts with
  | [] => EmptyString
  | [p] => p
  | p :: rest => p +:+ sep +:+ join_with sep rest
  end.

(** Whether clause [c] holds of record [r]: it is accepted and its
    predicate returns [True]. *)
Definition clause_holds (field_map : field_map_t) (c : string) (r : record)
  : bool :=
  match parse_clause c field_map c with
  | Ok p => holds p r
  | Raise _ => false
  end.

(** The size that a record shows under [field]. *)
Definition size_of (field : string) (r : record) : Z :=
  match dict_get r field with
  | Some (VInt size) => size
  | _ => 0
  end.

(** ** Remote paths

    [eta sftp] takes [user@host:path]; the parts given in the path take
    the place of the [--user] and [--host] options. *)

(** [s.split(sep)] for a separator of one character *)
Fixpoint str_split (sep : ascii) (s : string) : list string :=
  match s with
  | EmptyString => [EmptyString]
  | String c s' =>
      if Ascii.eqb c sep then EmptyString :: str_split sep s'
      else push c (str_split sep s')
  end.

(** [a, b = parts]: a list of any other length raises [ValueError]
    (recorded on the string that was split). *)
Definition unpack_pair (whole : string) (parts : list string)
  : result (string * string) :=
  match parts with
  | [a; b] => Ok (a, b)
  | _ => Raise (ValueError whole)
  end.

Definition _parse_remote_path (remote_path : string)
    (hostname username : option string)
  : result (option string * option string * string) :=
  '(username, remote_path) ←
    (if PyStr.mem "@" remote_path
     then '(u, p) ← unpack_pair remote_path (str_split "@" remote_path);
          Ok (Some u, p)
     else Ok (username, remote_path));
  '(hostname, remote_path) ←
    (if PyStr.mem ":" remote_path
     then '(h, p) ← unpack_pair remote_path (str_split ":" remote_path);
          Ok (Some h, p)
     else Ok (hostname, remote_path));
  Ok (hostname, username, remote_path).

(** The number of occurrences of [c] in [s] *)
Fixpoint count_char (c : ascii) (s : string) : nat :=
  match s with
  | EmptyString => 0%nat
  | String c' s' => ((if Ascii.eqb c' c then 1 else 0) + count_char c s')%nat
  end.

(** ** Names and tables *)

Definition MAX_NAME_COLUMN_WIDTH : option Z := None.
Definition TABLE_FORMAT : string := "simple".

Fixpoint str_take (n : nat) (s : string) : string :=
  match n, s with
  | S n', String c s' => String c (str_take n' s')
  | _, _ => EmptyString
  end.

(** [s[:k]]: a negative [k] counts from the end *)
Definition slice_to (s : string) (k : Z) : string :=
  if k <? 0 then str_take (Z.to_nat (Z.of_nat (String.length s) + k)) s
  else str_take (Z.to_nat k) s.

(** The body of [_render_name] for a given value of the module constant
    [MAX_NAME_COLUMN_WIDTH]; [len] of anything but a string is a
    [TypeError]. *)
Definition _render_name_at (width : option Z) (name : value) : result value :=
  match width with
  | None => Ok name
  | Some w =>
      match name with
      | VStr s =>
          if w <? Z.of_nat (String.length s)
          then Ok (VStr (slice_to s (w - 4) +:+ " ..."))
          else Ok name
      | VNone | VInt _ | VDatetime _ => Raise TypeError
      end
  end.

Definition _render_name (name : value) : result value :=
  _render_name_at MAX_NAME_COLUMN_WIDTH name.

Definition _parse_google_drive_mime_type (mime_type : value) : value :=
  if value_eqb mime_type (VStr "application/vnd.google-apps.folder")
  then VStr "(folder)"
  else mime_type.

(** [tabulate.tabulate(rows, headers=..., tablefmt=...)] is a library
    function. *)
Class Tabulate : Type := {
  tabulate : list (list value) -> list string -> string -> string
}.

(** The line feed *)
Definition LF : string := String (Ascii.ascii_of_nat 10) EmptyString.

(** The list comprehension [[row(m) for m in metadata]]: the first row
    that cannot be built raises. *)
Fixpoint build_rows (row : record -> result (list value))
    (metadata : list record) : result (list (list value)) :=
  match metadata with
  | [] => Ok []
  | m :: metadata' =>
      r ← row m;
      rs ← build_rows row metadata';
      Ok (r :: rs)
  end.

(** [sum(m["size"] for m in metadata)], from the accumulator [acc]
    (initially the [int] 0): adding anything but an [int] to an [int] is a
    [TypeError]. *)
Fixpoint sum_sizes (acc : Z) (metadata : list record) : result Z :=
  match metadata with
  | [] => Ok acc
  | m :: metadata' =>
      size ← subscript m "size";
      match size with
      | VInt n => sum_sizes (acc + n) metadata'
      | VNone | VStr _ | VDatetime _ => Raise TypeError
      end
  end.

(** A command leaves behind the messages it passed to [logger.info], in
    order, and either returns or raises. *)
Definition logged : Type := list string * result unit.

Definition s3_file_row `{Externals} (m : record) : result (list value) :=
  bucket ← subscript m "bucket";
  object_name ← subscript m "object_name";
  name ← _render_name object_name;
  size ← subscript m "size";
  size_str ← _render_bytes size;
  mime_type ← subscript m "mime_type";
  last_modified ← subscript m "last_modified";
  last_modified_str ← _render_datetime last_modified;
  Ok [bucket; name; VStr size_str; mime_type; VStr last_modified_str].

Definition google_drive_file_row `{Externals} (m : record)
  : result (list value) :=
  id ← subscript m "id";
  name ← subscript m "name";
  name ← _render_name name;
  size ← subscript m "size";
  size_str ← _render_bytes size;
  mime_type ← subscript m "mime_type";
  last_modified ← subscript m "last_modified";
  last_modified_str ← _render_datetime last_modified;
  Ok [id; name; VStr size_str; _parse_google_drive_mime_type mime_type;
      VStr last_modified_str].

Definition folder_row `{Externals} (first : string) (m : record)
  : result (list value) :=
  bucket ← subscript m first;
  path ← subscript m "path";
  num_files ← subscript m "num_files";
  size ← subscript m "size";
  size_str ← _render_bytes size;
  last_modified ← subscript m "last_modified";
  last_modified_str ← _render_datetime last_modified;
  Ok [bucket; path; num_files; VStr size_str; VStr last_modified_str].

(** The common body of the three file tables: the rows are built first,
    the table is logged, and with [show_count] the total size is summed
    and a second line logged. *)
Definition print_file_table `{Externals} `{Tabulate}
    (row : record -> result (list value)) (headers : list string)
    (count_line : nat -> string -> string)
    (metadata : list record) (show_count : bool) : logged :=
  match build_rows row metadata with
  | Raise e => ([], Raise e)
  | Ok records =>
      let table_str := tabulate records headers TABLE_FORMAT in
      if show_count then
        match (total ← sum_sizes 0 metadata; _render_bytes (VInt total)) with
        | Raise e => ([table_str], Raise e)
        | Ok total_size =>
            ([table_str; count_line (length records) total_size], Ok ())
        end
      else ([table_str], Ok ())
  end.

(** ["\n%d files, %s\n" % (n, total_size)] *)
Definition files_line (n : nat) (total_size : string) : string :=
  LF +:+ int_str (Z.of_nat n) +:+ " files, " +:+ total_size +:+ LF.

(** ["\nShowing %d files, %s\n" % (n, total_size)] *)
Definition showing_files_line (n : nat) (total_size : string) : string :=
  LF +:+ "Showing " +:+ int_str (Z.of_nat n) +:+ " files, " +:+ total_size
  +:+ LF.

Definition _print_s3_file_info_table `{Externals} `{Tabulate}
    (metadata : list record) (show_count : bool) : logged :=
  print_file_table s3_file_row
    ["bucket"; "name"; "size"; "type"; "last modified"] files_line
    metadata show_count.

Definition _print_gcs_file_info_table `{Externals} `{Tabulate}
    (metadata : list record) (show_count : bool) : logged :=
  print_file_table s3_file_row
    ["bucket"; "name"; "size"; "type"; "last modified"] files_line
    metadata show_count.

Definition _print_google_drive_file_info_table `{Externals} `{Tabulate}
    (metadata : list record) (show_count : bool) : logged :=
  print_file_table google_drive_file_row
    ["id"; "name"; "size"; "type"; "last modified"] showing_files_line
    metadata show_count.

Definition print_folder_table `{Externals} `{Tabulate} (first : string)
    (metadata : list record) : logged :=
  match build_rows (folder_row first) metadata with
  | Raise e => ([], Raise e)
  | Ok records =>
      ([tabulate records
          [first; "path"; "num files"; "size"; "last modified"]
          TABLE_FORMAT], Ok ())
  end.

Definition _print_s3_folder_info_table `{Externals} `{Tabulate}
  : list record -> logged := print_folder_table "bucket".

Definition _print_gcs_folder_info_table `{Externals} `{Tabulate}
  : list record -> logged := print_folder_table "bucket".

Definition _print_google_drive_folder_info_table `{Externals} `{Tabulate}
  : list record -> logged := print_folder_table "drive".

(** ** The list commands

    [eta s3 list], [eta gcs list] and [eta gdrive list] fetch the listing
    from the storage client (here the argument [listing]), pass it through
    [_filter_records] with the command's field map, and print the table. *)

Record list_args : Type := mk_list_args {
  args_limit : Z;
  args_search : option string;
  args_sort_by : option string;
  args_ascending : bool;
  args_count : bool
}.

Definition list_command_run (field_map : field_map_t)
    (print : list record -> bool -> logged)
    (listing : list record) (args : list_args) : logged :=
  match _filter_records listing (args_limit args) (args_search args)
          (args_sort_by args) (args_ascending args) field_map with
  | Raise e => ([], Raise e)
  | Ok metadata => print metadata (args_count args)
  end.

Definition S3ListCommand_run `{Externals} `{Tabulate}
  : list record -> list_args -> logged :=
  list_command_run _S3_SEARCH_FIELDS_MAP _print_s3_file_info_table.

Definition GCSListCommand_run `{Externals} `{Tabulate}
  : list record -> list_args -> logged :=
  list_command_run _GCS_SEARCH_FIELDS_MAP _print_gcs_file_info_table.

Definition GoogleDriveListCommand_run `{Externals} `{Tabulate}
  : list record -> list_args -> logged :=
  list_command_run _GOOGLE_DRIVE_SEARCH_FIELDS_MAP
    _print_google_drive_file_info_table.

(** ** Names grouped by directory *)

(** [p[:p.rfind("/") + 1]] *)
Fixpoint head_of_path (p : string) : string :=
  match p with
  | EmptyString => EmptyString
  | String c p' =>
      if PyStr.mem "/" p' then String c (head_of_path p')
      else if Ascii.eqb c "/" then "/" else EmptyString
  end.

Fixpoint all_slashes (s : string) : bool :=
  match s with
  | EmptyString => true
  | String c s' => Ascii.eqb c "/" && all_slashes s'
  end.

(** [s.rstrip("/")] *)
Fixpoint rstrip_slashes (s : string) : string :=
  match s with
  | EmptyString => EmptyString
  | String c s' =>
      if all_slashes s then EmptyString else String c (rstrip_slashes s')
  end.

(** [os.path.dirname] of [posixpath] *)
Definition dirname (p : string) : string :=
  let head := head_of_path p in
  if negb (String.eqb head "") && negb (all_slashes head)
  then rstrip_slashes head
  else head.

(** [defaultdict(list)], filled in the order of the items of [d] *)
Definition _group_by_dir (d : list (string * string))
  : gmap string (list string) :=
  foldl
    (fun dd '(name, path) =>
       <[dirname path := default [] (dd !! dirname path) ++ [name]]> dd)
    ∅ d.

(** [sorted] on strings *)
Fixpoint insert_str (s : string) (l : list string) : list string :=
  match l with
  | [] => [s]
  | x :: l' => if PyStr.ltb s x then s :: l else x :: insert_str s l'
  end.

Definition sorted_strings (l : list string) : list string :=
  foldr insert_str [] l.

Definition render_dir (mdict : gmap string (list string)) (mdir : string)
  : string :=
  let mstrs :=
    map (fun mname => "  " +:+ mname)
      (sorted_strings (default [] (mdict !! mdir))) in
  "[ " +:+ mdir +:+ " ]" +:+ LF +:+ join_with LF mstrs.

Definition _render_names_in_dirs_str (d : list (string * string)) : string :=
  let mdict := _group_by_dir d in
  let chunks :=
    map (render_dir mdict) (sorted_strings (map fst (map_to_list mdict))) in
  join_with (LF +:+ LF) chunks.

(** ** Commands that call the storage clients

    The storage clients and the web helpers belong to [eta.core.storage]
    and [eta.core.web].  A command is described by the trace it leaves,
    the messages it logs and the calls it makes, in order, and by how it
    ends; what a call returns, or that it raises, is given by the
    environment. *)

Inductive effect : Type :=
| LogInfo (msg : string)
| WebDownloadGoogleDriveFile
    (file_id : string) (path : option string) (chunk_size : option Z)
| GoogleDriveStorageClient (chunk_size : option Z)
| DriveDownloadBytes (file_id : string)
| DriveGetFileMetadata (file_id : string)
| DriveDownload (file_id : string) (local_path : value)
| SFTPStorageClient (hostname username port : option string)
| SFTPDownloadBytes (remote_path : string)
| SFTPDownload (remote_path local_path : string).

Class Services : Type := {
  (** [etaw.download_google_drive_file]: the bytes when no path is given *)
  download_google_drive_file :
    string -> option string -> option Z -> result string;
  (** [etas.GoogleDriveStorageClient(chunk_size=...)] and its methods *)
  drive_client : option Z -> result unit;
  drive_download_bytes : string -> result string;
  drive_get_file_metadata : string -> result record;
  drive_download : string -> value -> result unit;
  (** [etas.SFTPStorageClient(hostname, username, port=...)] and its
      methods *)
  sftp_client : option string -> option string -> option string -> result unit;
  sftp_download_bytes : string -> result string;
  sftp_download : string -> string -> result unit
}.

Inductive cmd (A : Type) : Type :=
| Cmd (trace : list effect) (outcome : result A).
Arguments Cmd {A} trace outcome.

Definition trace {A : Type} (c : cmd A) : list effect :=
  match c with Cmd t _ => t end.

Definition outcome {A : Type} (c : cmd A) : result A :=
  match c with Cmd _ r => r end.

(** Sequencing: the traces follow each other; nothing follows an
    exception. *)
#[global] Instance cmd_bind : MBind cmd :=
  fun A B (k : A -> cmd B) (m : cmd A) =>
    match m with
    | Cmd t (Ok a) => match k a with Cmd t' r => Cmd (t ++ t') r end
    | Cmd t (Raise e) => Cmd t (Raise e)
    end.

#[global] Instance cmd_ret : MRet cmd := fun A a => Cmd [] (Ok a).

(** A call: it is made, and returns or raises what the environment says *)
Definition perform {A : Type} (call : effect) (returned : result A) : cmd A :=
  Cmd [call] returned.

(** [logger.info(msg)] *)
Definition info (msg : string) : cmd unit := Cmd [LogInfo msg] (Ok ()).

(** A step of the command's own that makes no call *)
Definition lift {A : Type} (r : result A) : cmd A := Cmd [] r.

(** ["Downloading '%s' to '%s'" % (what, target)] *)
Definition downloading_msg (what target : string) : string :=
  "Downloading '" +:+ what +:+ "' to '" +:+ target +:+ "'".

Record drive_download_args : Type := mk_drive_download_args {
  dd_file_id : string;
  dd_path : option string;
  dd_public : bool;
  dd_print : bool;
  dd_chunk_size : option Z
}.

Definition GoogleDriveDownloadCommand_run `{Externals} `{Services}
    (args : drive_download_args) : cmd unit :=
  let file_id := dd_file_id args in
  let chunk_size := dd_chunk_size args in
  if dd_public args then
    if dd_print args then
      bytes ← perform (WebDownloadGoogleDriveFile file_id None chunk_size)
                (download_google_drive_file file_id None chunk_size);
      info bytes
    else
      match dd_path args with
      | None =>
          lift (Raise (ValueError
                         "Must provide `path` when `--public` flag is set"))
      | Some path =>
          _ ← info (downloading_msg file_id path);
          _ ← perform
                (WebDownloadGoogleDriveFile file_id (Some path) chunk_size)
                (download_google_drive_file file_id (Some path) chunk_size);
          mret ()
      end
  else
    _ ← perform (GoogleDriveStorageClient chunk_size)
          (drive_client chunk_size);
    if dd_print args then
      bytes ← perform (DriveDownloadBytes file_id)
                (drive_download_bytes file_id);
      info bytes
    else
      local_path ←
        match dd_path args with
        | Some path => mret (VStr path)
        | None =>
            m ← perform (DriveGetFileMetadata file_id)
                  (drive_get_file_metadata file_id);
            lift (subscript m "name")
        end;
      _ ← info (downloading_msg file_id (py_str local_path));
      perform (DriveDownload file_id local_path)
        (drive_download file_id local_path).

(** [os.path.basename] of [posixpath]: [p[p.rfind("/") + 1:]] *)
Fixpoint basename (p : string) : string :=
  match p with
  | EmptyString => EmptyString
  | String c p' =>
      if PyStr.mem "/" p' then basename p'
      else if Ascii.eqb c "/" then p' else p
  end.

Record sftp_download_args : Type := mk_sftp_download_args {
  sd_remote_path : string;
  sd_local_path : option string;
  sd_user : option string;
  sd_host : option string;
  sd_port : option string;
  sd_print : bool
}.

Definition SFTPDownloadCommand_run `{Services} (args : sftp_download_args)
  : cmd unit :=
  '(hostname, username, remote_path) ←
    lift (_parse_remote_path (sd_remote_path args) (sd_host args)
            (sd_user args));
  _ ← perform (SFTPStorageClient hostname username (sd_port args))
        (sftp_client hostname username (sd_port args));
  if sd_print args then
    bytes ← perform (SFTPDownloadBytes remote_path)
              (sftp_download_bytes remote_path);
    info bytes
  else
    let local_path :=
      match sd_local_path args with
      | Some (String _ _ as local_path) => local_path
      | Some EmptyString | None => basename remote_path
      end in
    _ ← info (downloading_msg remote_path local_path);
    perform (SFTPDownload remote_path local_path)
      (sftp_download remote_path local_path).

(** Whether a call is given a path on the local disk to write to *)
Definition takes_local_path (e : effect) : bool :=
  match e with
  | WebDownloadGoogleDriveFile _ (Some _) _ => true
  | DriveDownload _ _ => true
  | SFTPDownload _ _ => true
  | _ => false
  end.

(** ** Showing the active credentials

    The credentials are loaded by [eta.core.storage], which raises
    [GoogleCredentialsError], [AWSCredentialsError] or
    [SSHCredentialsError] when there are none; [Uncaught] is any other
    exception. *)

Inductive auth_exn : Type :=
| GoogleCredentialsError
| AWSCredentialsError
| SSHCredentialsError
| Uncaught (e : exn).

Inductive attempt (A : Type) : Type :=
| Done (a : A)
| Failed (e : auth_exn).
Arguments Done {A} a.
Arguments Failed {A} e.

Class CredentialStores : Type := {
  (** [etas.NeedsGoogleCredentials.load_credentials_json()]: the
      credentials and their path *)
  load_credentials_json : attempt (list (string * value) * value);
  (** [etas.NeedsAWSCredentials.load_credentials()]: the credentials and
      their path, if they come from a file *)
  load_credentials : attempt (list (string * value) * option string);
  (** [etas.NeedsSSHCredentials.get_private_key_path()] *)
  get_private_key_path : attempt value
}.

(** What a printer leaves: the messages logged, and how it ended. *)
Definition shown : Type := list string * attempt unit.

Definition _print_google_credentials_info `{Tabulate} `{CredentialStores}
  : shown :=
  match load_credentials_json with
  | Failed e => ([], Failed e)
  | Done (credentials, path) =>
      match
        (project_id ← subscript credentials "project_id";
         client_email ← subscript credentials "client_email";
         private_key_id ← subscript credentials "private_key_id";
         Ok [ [VStr "project id"; project_id];
              [VStr "client email"; client_email];
              [VStr "private key id"; private_key_id];
              [VStr "path"; path] ])
      with
      | Raise e => ([], Failed (Uncaught e))
      | Ok contents =>
          ([tabulate contents ["Google credentials"; EmptyString] "simple"
            +:+ LF],
           Done ())
      end
  end.

Definition _print_aws_credentials_info `{Tabulate} `{CredentialStores}
  : shown :=
  match load_credentials with
  | Failed e => ([], Failed e)
  | Done (credentials, path) =>
      (* [credentials[key]] cannot raise: [key] is one of the keys *)
      let contents :=
        map (fun key =>
               [VStr (PyStr.replace "_" " " (PyStr.lower key));
                default VNone (dict_get credentials key)])
          (sorted_strings (dict_keys credentials)) in
      let contents :=
        match path with
        | Some (String _ _ as path) => contents ++ [[VStr "path"; VStr path]]
        | Some EmptyString | None => contents
        end in
      ([tabulate contents ["AWS credentials"; EmptyString] "simple" +:+ LF],
       Done ())
  end.

Definition _print_ssh_credentials_info `{Tabulate} `{CredentialStores}
  : shown :=
  match get_private_key_path with
  | Failed e => ([], Failed e)
  | Done path =>
      ([tabulate [[VStr "path"; path]] ["SSH credentials"; EmptyString]
          "simple" +:+ LF],
       Done ())
  end.

(** One statement after another *)
Definition and_then (first second : shown) : shown :=
  match first with
  | (log, Done _) => (log ++ fst second, snd second)
  | (log, Failed e) => (log, Failed e)
  end.

(** [try: body / except cls: pass], where [caught] tells the exceptions of
    class [cls] *)
Definition try_except (caught : auth_exn -> bool) (body : shown) : shown :=
  match body with
  | (log, Failed e) => if caught e then (log, Done ()) else (log, Failed e)
  | done => done
  end.

Definition skip : shown := ([], Done ()).

Record show_auth_args : Type := mk_show_auth_args {
  sa_google : bool;
  sa_aws : bool;
  sa_ssh : bool
}.

Definition ShowAuthCommand_run `{Tabulate} `{CredentialStores}
    (args : show_auth_args) : shown :=
  and_then (if sa_google args then _print_google_credentials_info else skip)
  (and_then (if sa_aws args then _print_aws_credentials_info else skip)
  (and_then (if sa_ssh args then _print_ssh_credentials_info else skip)
  (let show_all_credentials :=
     negb (sa_google args || sa_aws args || sa_ssh args) in
   if show_all_credentials then
     and_then
       (try_except
          (fun e => match e with GoogleCredentialsError => true | _ => false end)
          _print_google_credentials_info)
     (and_then
       (try_except
          (fun e => match e with AWSCredentialsError => true | _ => false end)
          _print_aws_credentials_info)
       (try_except
          (fun e => match e with SSHCredentialsError => true | _ => false end)
          _print_ssh_credentials_info))
   else skip))).

(** ** The pipeline build request

    [eta build] starts from the request file, or from an empty request,
    and lays the values given on the command line over it.  The request
    and the values of [-i], [-o], [-p], [-e] and [-l] are JSON objects
    read by [load_json]; what is modelled is the request as it stands
    before the patterns are replaced and the builder is called. *)

#[warnings="-register-all"]
Inductive json : Type :=
| JNull
| JBool (b : bool)
| JNumber (n : Z)
| JString (s : string)
| JArray (l : list json)
| JObject (d : gmap string json).

Record build_args : Type := mk_build_args {
  b_name : option string;
  b_request : option (gmap string json);
  b_inputs : option (gmap string json);
  b_outputs : option (gmap string json);
  b_parameters : option (gmap string json);
  b_eta_config : option (gmap string json);
  b_logging : option (gmap string json);
  b_debug : bool
}.

(** The truth value of an optional dictionary: [None] and [{}] are
    false. *)
Definition given (o : option (gmap string json)) : option (gmap string json) :=
  match o with
  | Some d => match map_to_list d with [] => None | _ :: _ => Some d end
  | None => None
  end.

(** [d[key].update(source)] on a [defaultdict(dict)]: a missing section is
    created empty first; only a dictionary has [update]. *)
Definition update_section (key : string) (source : gmap string json)
    (d : gmap string json) : result (gmap string json) :=
  match d !! key with
  | None => Ok (<[key := JObject source]> d)
  | Some (JObject target) => Ok (<[key := JObject (source ∪ target)]> d)
  | Some _ => Raise AttributeError
  end.

(** [d[key][k] = v] on a [defaultdict(dict)]: only a dictionary takes a
    string key. *)
Definition set_in_section (key k : string) (v : json)
    (d : gmap string json) : result (gmap string json) :=
  match d !! key with
  | None => Ok (<[key := JObject {[k := v]}]> d)
  | Some (JObject target) => Ok (<[key := JObject (<[k := v]> target)]> d)
  | Some _ => Raise TypeError
  end.

(** [if source: d[key].update(source)] *)
Definition update_if_given (key : string) (source : option (gmap string json))
    (d : gmap string json) : result (gmap string json) :=
  match given source with
  | Some source => update_section key source d
  | None => Ok d
  end.

Definition empty_request : gmap string json :=
  {[ "inputs" := JObject ∅; "outputs" := JObject ∅;
     "parameters" := JObject ∅; "eta_config" := JObject ∅;
     "logging_config" := JObject ∅ ]}.

(** The request that [BuildCommand.run] hands to [fill_patterns] and
    [PipelineBuildRequest.from_dict] *)
Definition build_request (args : build_args) : result (gmap string json) :=
  let d := default empty_request (given (b_request args)) in
  let d :=
    match b_name args with
    | Some (String _ _ as name) => <["pipeline" := JString name]> d
    | Some EmptyString | None => d
    end in
  d ← update_if_given "inputs" (b_inputs args) d;
  d ← update_if_given "outputs" (b_outputs args) d;
  d ← update_if_given "parameters" (b_parameters args) d;
  d ← update_if_given "eta_config" (b_eta_config args) d;
  d ← update_if_given "logging_config" (b_logging args) d;
  if b_debug args then
    d ← set_in_section "logging_config" "stdout_level" (JString "DEBUG") d;
    set_in_section "logging_config" "file_level" (JString "DEBUG") d
  else Ok d.

(** The sum of the sizes that the records show *)
Definition total_size (metadata : list record) : Z :=
  foldr (fun m acc => size_of "size" m + acc) 0 metadata.

Definition size_is_int (m : record) : Prop :=
  exists n, dict_get m "size" = Some (VInt n).

Definition size_is_int_or_None (m : record) : Prop :=
  size_is_int m \/ dict_get m "size" = Some VNone.

(** A plain layout on which the tables can be run: the headers, then one
    line per row, the cells separated by two spaces. *)
Definition reference_tabulate : Tabulate :=
  {| tabulate rows headers _ :=
       join_with LF
         (join_with "  " headers
          :: map (fun r => join_with "  " (map (@py_str reference_externals) r))
               rows) |}.

(** What a list command that returned has logged: the table of the rows
    of records selected from the listing, at most [limit] of them under a
    positive limit, and with [--count] one more message. *)
Definition shows_selection `{Tabulate} (field_map : field_map_t)
    (row : record -> result (list value)) (headers : list string)
    (listing : list record) (args : list_args) (log : list string) : Prop :=
  exists metadata records,
    _filter_records listing (args_limit args) (args_search args)
      (args_sort_by args) (args_ascending args) field_map = Ok metadata /\
    Forall2 (fun m r => row m = Ok r) metadata records /\
    (forall m, In m metadata -> In m listing) /\
    (0 < args_limit args -> Z.of_nat (length records) <= args_limit args) /\
    hd_error log = Some (tabulate records headers TABLE_FORMAT) /\
    length log = if args_count args then 2%nat else 1%nat.

(** The names of the items of [d] whose path lies in directory [dir], in
    the order of [d] *)
Definition names_in (dir : string) (d : list (string * string))
  : list string :=
  map fst (List.filter (fun np => String.eqb (dirname (snd np)) dir) d).

(** Whether an effect is a use of the Google Drive client *)
Definition uses_drive_client (e : effect) : bool :=
  match e with
  | GoogleDriveStorageClient _ | DriveDownloadBytes _
  | DriveGetFileMetadata _ | DriveDownload _ _ => true
  | _ => false
  end.

(** An environment in which every call returns: downloads give the bytes
    ["data"], and the metadata of a Drive file names it ["report.pdf"]. *)
Definition reference_services : Services :=
  {| download_google_drive_file _ _ _ := Ok "data";
     drive_client _ := Ok ();
     drive_download_bytes _ := Ok "data";
     drive_get_file_metadata _ := Ok [("name", VStr "report.pdf")];
     drive_download _ _ := Ok ();
     sftp_client _ _ _ := Ok ();
     sftp_download_bytes _ := Ok "data";
     sftp_download _ _ := Ok () |}.

(** A printer that has shown its table, or has none to show because the
    credentials of its own kind are missing *)
Definition shown_or_missing (missing : auth_exn) (p : shown) : Prop :=
  snd p = Done () \/ p = ([], Failed missing).

(** Stores with Google credentials only *)
Definition reference_stores : CredentialStores :=
  {| load_credentials_json :=
       Done ([("project_id", VStr "eta"); ("client_email", VStr "a@b.c");
              ("private_key_id", VStr "k1")], VStr "/home/ann/google.json");
     load_credentials := Failed AWSCredentialsError;
     get_private_key_path := Failed SSHCredentialsError |}.

(** The request that [eta build] starts from: the request file, or the
    empty request when there is none (or it is an empty object) *)
Definition start_request (args : build_args) : gmap string json :=
  default empty_request (given (b_request args)).

(** The entries of section [key] of a request (none when the section is
    missing or is not an object) *)
Definition section_of (d : gmap string json) (key : string)
  : gmap string json :=
  match d !! key with
  | Some (JObject m) => m
  | _ => ∅
  end.

(** Whether section [key] can be updated: it is missing, or an object *)
Definition updatable (d : gmap string json) (key : string) : Prop :=
  d !! key = None \/ exists m, d !! key = Some (JObject m).

(* ===================================================================== *)
(** * Part II: properties *)
(* ===================================================================== *)

(** ** Splitting and unescaping *)

Example split_plain :
  _split_on_chars "a,b,,c" "," None false = ["a"; "b"; "c"].
Proof. reflexivity. Qed.

Example split_escaped :
  _split_on_chars "name:a\,b,size<20MB" "," None false = ["name:a\,b"; "size<20MB"].
Proof. reflexivity. Qed.

Example split_clause :
  _split_on_chars "size<=20MB:x" ":=<>" (Some 1%nat) true = ["size"; "<="; "20MB:x"].
Proof. reflexivity. Qed.

Example split_edges :
  re_split "," ",a," 0 = [""; ","; "a"; ","; ""].
Proof. reflexivity. Qed.

Example remove_escapes_ex :
  _remove_escapes "a\,b\\:c\d" ",:=<>" = "a,b\:c\d".
Proof. reflexivity. Qed.

Section Split.

Variable chars : string.

Lemma scan_not_nil budget m s : re_split_scan chars budget m s <> [].
Proof.
  destruct s as [|c s]; destruct m as [esc|]; simpl; try discriminate.
  - destruct (_ && _ && _)%bool; [discriminate|].
    destruct (re_split_scan _ _ _ _); discriminate.
  - destruct (PyStr.mem c chars); [|discriminate].
    destruct (re_split_scan _ _ _ _); discriminate.
Qed.

Lemma join_push c chunks :
  PyStr.join (push c chunks) = String c (PyStr.join chunks).
Proof. destruct chunks; reflexivity. Qed.

Lemma join_scan budget m s : PyStr.join (re_split_scan chars budget m s) = s.
Proof.
  revert budget m.
  induction s as [|c s IH]; intros budget m.
  - destruct m; reflexivity.
  - destruct m as [esc|]; simpl.
    + destruct (_ && _ && _)%bool; simpl; rewrite join_push, IH; reflexivity.
    + destruct (PyStr.mem c chars); simpl; rewrite join_push, IH; reflexivity.
Qed.

Lemma marks_push b c chunks :
  chunks <> [] -> chunk_marks b (push c chunks) = b :: chunk_marks b chunks.
Proof. destruct chunks; [congruence | reflexivity]. Qed.

Lemma marks_push_scan b c budget m s :
  chunk_marks b (push c (re_split_scan chars budget m s))
  = b :: chunk_marks b (re_split_scan chars budget m s).
Proof. apply marks_push, scan_not_nil. Qed.

Hypothesis backslash_free : PyStr.mem PyStr.backslash chars = false.

Lemma mem_not_backslash c :
  PyStr.mem c chars = true -> PyStr.is_backslash c = false.
Proof using backslash_free.
  intros Hc. unfold PyStr.is_backslash.
  destruct (Ascii.eqb c PyStr.backslash) eqn:E; [|reflexivity].
  apply Ascii.eqb_eq in E. subst c. congruence.
Qed.

(** No position that follows a backslash is ever put into a delimiter. *)
Lemma scan_keeps_escaped budget m s :
  Forall2 (fun escaped delim => escaped = true -> delim = false)
    (escaped_positions (mode_esc m) s)
    (chunk_marks (mode_mark m) (re_split_scan chars budget m s)).
Proof using backslash_free.
  revert budget m.
  induction s as [|c s IH]; intros budget m.
  - destruct m; constructor.
  - destruct m as [esc|]; simpl.
    + destruct (PyStr.mem c chars) eqn:Hc; simpl.
      * destruct esc; simpl.
        -- rewrite marks_push_scan. constructor; [reflexivity|].
           rewrite (mem_not_backslash c Hc).
           apply (IH budget (Text false)).
        -- destruct (may_split budget); simpl.
           ++ rewrite marks_push_scan. constructor; [discriminate|].
              rewrite (mem_not_backslash c Hc).
              apply (IH (spend budget) Delim).
           ++ rewrite marks_push_scan. constructor; [reflexivity|].
              apply (IH budget (Text (PyStr.is_backslash c))).
      * rewrite marks_push_scan. constructor; [reflexivity|].
        apply (IH budget (Text (PyStr.is_backslash c))).
    + destruct (PyStr.mem c chars) eqn:Hc; simpl.
      * rewrite marks_push_scan. constructor; [discriminate|].
        rewrite (mem_not_backslash c Hc).
        apply (IH budget Delim).
      * rewrite marks_push_scan. constructor; [reflexivity|].
        apply (IH budget (Text (PyStr.is_backslash c))).
Qed.

(** Without a bound on the number of splits, the delimiters are exactly
    the characters of [chars] that no backslash precedes. *)
Lemma scan_marks_unbounded m s :
  chunk_marks (mode_mark m) (re_split_scan chars None m s)
  = unescaped_positions chars (mode_esc m) s.
Proof using backslash_free.
  revert m.
  induction s as [|c s IH]; intros m.
  - destruct m; reflexivity.
  - destruct m as [esc|]; simpl.
    + destruct (PyStr.mem c chars) eqn:Hc; simpl.
      * destruct esc; simpl; rewrite marks_push_scan; f_equal.
        -- rewrite (mem_not_backslash c Hc). apply (IH (Text false)).
        -- rewrite (mem_not_backslash c Hc). apply (IH Delim).
      * rewrite marks_push_scan. f_equal.
        apply (IH (Text (PyStr.is_backslash c))).
    + destruct (PyStr.mem c chars) eqn:Hc; simpl.
      * rewrite marks_push_scan. f_equal.
        rewrite (mem_not_backslash c Hc). apply (IH Delim).
      * rewrite marks_push_scan. f_equal.
        apply (IH (Text (PyStr.is_backslash c))).
Qed.

(** A string in which every character of [chars] follows a backslash is
    not split at all. *)
Lemma scan_all_escaped budget esc s :
  Forall (fun b => b = false) (unescaped_positions chars esc s) ->
  re_split_scan chars budget (Text esc) s = [s].
Proof.
  revert budget esc.
  induction s as [|c s IH]; intros budget esc H; [reflexivity|].
  simpl in *. inversion H as [|? ? Hhd Htl]; subst.
  rewrite Hhd. simpl. rewrite IH by assumption. reflexivity.
Qed.

(** With no split left, the rest of the string is one chunk. *)
Lemma scan_exhausted esc s : re_split_scan chars (Some O) (Text esc) s = [s].
Proof.
  revert esc. induction s as [|c s IH]; intros esc; [reflexivity|].
  simpl. rewrite andb_false_r, IH. reflexivity.
Qed.

Lemma scan_last_delimiter delimiter value :
  all_in chars delimiter = true ->
  starts_in chars value = false ->
  re_split_scan chars (Some O) Delim (delimiter +:+ value) = [delimiter; value].
Proof.
  intros Hd Hv. induction delimiter as [|d delimiter IH]; simpl in *.
  - destruct value as [|c value]; [reflexivity|].
    simpl in *. rewrite Hv, scan_exhausted. reflexivity.
  - apply andb_prop in Hd as [Hd1 Hd2].
    rewrite Hd1, IH by assumption. reflexivity.
Qed.

(** A key, a run of delimiters and a value are found again by a split
    that is bounded to one match. *)
Lemma scan_one_split esc key d delimiter value :
  forallb negb (unescaped_positions chars esc key) = true ->
  last_is_backslash esc key = false ->
  PyStr.mem d chars = true ->
  all_in chars delimiter = true ->
  starts_in chars value = false ->
  re_split_scan chars (Some 1%nat) (Text esc) (key +:+ String d delimiter +:+ value)
  = [key; String d delimiter; value].
Proof.
  revert esc. induction key as [|a key IH]; intros esc Hkey Hlast Hd Hdl Hv.
  - simpl in *. subst esc. rewrite Hd. simpl.
    rewrite scan_last_delimiter by assumption. reflexivity.
  - simpl in Hkey. apply andb_prop in Hkey as [Ha Hkey].
    apply negb_true_iff in Ha.
    change (String a key +:+ ?x) with (String a (key +:+ x)).
    cbn [re_split_scan]. rewrite Ha. cbn [andb].
    rewrite IH; try assumption. reflexivity.
Qed.

(** [_remove_escapes] takes away the backslash of an escaped character
    and treats what comes before and after it independently. *)
Lemma remove_escapes_app_bounded n : forall s1 c s2,
  (String.length s1 <= n)%nat ->
  PyStr.mem c chars = true ->
  _remove_escapes (s1 +:+ String PyStr.backslash (String c s2)) chars
  = _remove_escapes s1 chars +:+ String c (_remove_escapes s2 chars).
Proof using backslash_free.
  induction n as [|n IH]; intros s1 c s2 Hlen Hc.
  - destruct s1; [|simpl in Hlen; lia].
    simpl. rewrite Hc. reflexivity.
  - destruct s1 as [|a [|d s1]]; simpl in Hlen.
    + simpl. rewrite Hc. reflexivity.
    + simpl. rewrite backslash_free, andb_false_r, Hc. reflexivity.
    + change (_remove_escapes (String a (String d s1)) chars)
        with (if (PyStr.is_backslash a && PyStr.mem d chars)%bool
              then String d (_remove_escapes s1 chars)
              else String a (_remove_escapes (String d s1) chars)).
      change (_remove_escapes
                (String a (String d s1) +:+ String PyStr.backslash (String c s2))
                chars)
        with (if (PyStr.is_backslash a && PyStr.mem d chars)%bool
              then String d (_remove_escapes
                     (s1 +:+ String PyStr.backslash (String c s2)) chars)
              else String a (_remove_escapes
                     (String d s1 +:+ String PyStr.backslash (String c s2))
                     chars)).
      destruct (PyStr.is_backslash a && PyStr.mem d chars)%bool.
      * rewrite IH; [reflexivity | lia | assumption].
      * rewrite IH; [reflexivity | simpl; lia | assumption].
Qed.

End Split.

(** C4.  A character of [, : = < >] that directly follows a backslash is
    never a place at which the parser splits, and the backslash is
    stripped from the final literal.  For every set [chars] of delimiters
    (without the backslash itself) and every string [s]:
    - the chunks returned by [_split_on_chars] concatenate to [s], and no
      position of [s] that follows a backslash lies in a delimiter chunk,
      whatever the bound on the number of splits;
    - without a bound, the delimiter chunks consist exactly of the
      characters of [chars] that do not follow a backslash;
    - [_remove_escapes] replaces an escaped character by the character
      itself, removing one backslash, and leaves the text before and after
      it to be treated on its own;
    - a string in which every character of [chars] follows a backslash is
      one chunk, so that a search string whose only commas are escaped
      is parsed as one clause. *)
Theorem escaped_delimiters_do_not_split :
  (forall chars s max_splits,
     PyStr.join (_split_on_chars s chars max_splits true) = s) /\
  (forall chars s max_splits i,
     PyStr.mem PyStr.backslash chars = false ->
     escaped_positions false s !! i = Some true ->
     chunk_marks false (_split_on_chars s chars max_splits true) !! i
     = Some false) /\
  (forall chars s,
     PyStr.mem PyStr.backslash chars = false ->
     chunk_marks false (_split_on_chars s chars None true)
     = unescaped_positions chars false s) /\
  (forall chars s1 c s2,
     PyStr.mem PyStr.backslash chars = false ->
     PyStr.mem c chars = true ->
     _remove_escapes (s1 +:+ String PyStr.backslash (String c s2)) chars
     = _remove_escapes s1 chars +:+ String c (_remove_escapes s2 chars)) /\
  (forall chars s max_splits keep_delimiters,
     Forall (fun b => b = false) (unescaped_positions chars false s) ->
     _split_on_chars s chars max_splits keep_delimiters = [s]) /\
  (forall search_str field_map,
     Forall (fun b => b = false) (unescaped_positions "," false search_str) ->
     _parse_search_str search_str field_map
     = [parse_clause search_str field_map search_str]).
Proof.
  split; [|split; [|split; [|split; [|split]]]].
  - intros chars s max_splits. apply join_scan.
  - intros chars s max_splits i Hchars Hi.
    unfold _split_on_chars, re_split.
    match goal with
    | |- chunk_marks _ (re_split_scan _ ?budget _ _) !! _ = _ =>
        destruct (Forall2_lookup_l _ _ _ _ _
                    (scan_keeps_escaped chars Hchars budget (Text false) s) Hi)
          as (d & Hd & Himp)
    end.
    simpl in Hd. rewrite Hd. f_equal. apply Himp. reflexivity.
  - intros chars s Hchars.
    apply (scan_marks_unbounded chars Hchars (Text false)).
  - intros chars s1 c s2 Hchars Hc.
    apply (remove_escapes_app_bounded chars Hchars (String.length s1)); auto.
  - intros chars s max_splits keep H.
    unfold _split_on_chars, re_split.
    rewrite scan_all_escaped by assumption.
    destruct keep; reflexivity.
  - intros search_str field_map H.
    unfold _parse_search_str, _split_on_chars, re_split.
    rewrite scan_all_escaped by assumption. reflexivity.
Qed.

Lemma escaped_delimiters_do_not_split_witness :
  (PyStr.join (_split_on_chars "name:a\,b,size<1" "," None true)
   = "name:a\,b,size<1" /\
   chunk_marks false (_split_on_chars "name:a\,b,size<1" "," None true) !! 7%nat
   = Some false) /\
  _remove_escapes ("a" +:+ String PyStr.backslash (String "," "b")) ",:=<>"
  = _remove_escapes "a" ",:=<>" +:+ String "," (_remove_escapes "b" ",:=<>") /\
  _split_on_chars "name:a\,b" "," None false = ["name:a\,b"] /\
  (forall field_map,
     _parse_search_str "name:a\,b" field_map
     = [parse_clause "name:a\,b" field_map "name:a\,b"]).
Proof.
  destruct escaped_delimiters_do_not_split as (H0 & H1 & _ & H3 & H4 & H5).
  split; [split|split; [|split]].
  - apply (H0 "," "name:a\,b,size<1" None).
  - apply (H1 "," "name:a\,b,size<1" None 7%nat); reflexivity.
  - apply (H3 ",:=<>" "a" ","%char "b"); reflexivity.
  - apply (H4 "," "name:a\,b" None false).
    repeat constructor.
  - intros field_map. apply (H5 "name:a\,b" field_map).
    repeat constructor.
Defined.

Example escaped_comma_clause `{Externals} :
  _parse_search_str "name:a\,b" _S3_SEARCH_FIELDS_MAP
  = [_make_match_fcn "name" "a\,b" ":" _S3_SEARCH_FIELDS_MAP "name:a\,b"]
  /\ PyStr.strip (_remove_escapes "a\,b" ",:=<>") = "a,b".
Proof. split; reflexivity. Qed.

(** ** Dispatch on the operator *)

Lemma parse_clause_fields key d delimiter value field_map search_str :
  well_formed_key key = true ->
  all_in ":=<>" (String d delimiter) = true ->
  well_formed_value value = true ->
  parse_clause (key +:+ String d delimiter +:+ value) field_map search_str
  = _make_match_fcn key value (String d delimiter) field_map search_str.
Proof.
  intros Hk Hd Hv. unfold parse_clause, _split_on_chars, re_split.
  apply andb_prop in Hk as [Hk1 Hk2]. apply negb_true_iff in Hk2.
  apply negb_true_iff in Hv.
  cbn [all_in] in Hd. apply andb_prop in Hd as [Hd1 Hd2].
  rewrite scan_one_split; try assumption; [reflexivity|].
  destruct key; [reflexivity | exact Hk2].
Qed.

Lemma make_match_fcn_contains key value field_map search_str searcher :
  dict_get field_map (normalize key) = Some searcher ->
  _make_match_fcn key value ":" field_map search_str
  = Ok (on_field searcher
          (contains searcher (PyStr.strip (_remove_escapes value ",:=<>")))).
Proof. intros H. unfold _make_match_fcn. rewrite H. reflexivity. Qed.

Lemma make_match_fcn_compare key value delimiter op field_map search_str searcher :
  dict_get field_map (normalize key) = Some searcher ->
  In (delimiter, op) _SEARCH_COMPARISON_OPERATORS ->
  _make_match_fcn key value delimiter field_map search_str
  = Ok (on_field searcher
          (fun v => compare searcher
                      (PyStr.strip (_remove_escapes value ",:=<>")) v op)).
Proof.
  intros H Hin. unfold _make_match_fcn. rewrite H.
  simpl in Hin.
  destruct Hin as [E|[E|[E|[E|[E|[]]]]]]; injection E as <- <-; reflexivity.
Qed.

(** C1.  A clause [key delimiter value] on a registered field dispatches
    by its operator: [:] applies the searcher's [contains] to the literal
    and the record's value, and [==], [<], [<=], [>], [>=] apply its
    [compare] with equality, greater-than, greater-or-equal, less-than and
    less-or-equal, whatever the searcher is.  The three kinds of searcher
    apply the relation to the user's value first and the record's value
    second.  So [size<20MB] holds of a record exactly when its size is
    below what [20MB] denotes: of one of 10 MB, not of one of 25 MB. *)
Theorem operators_dispatch_by_table :
  (forall field_map key value search_str searcher,
     well_formed_key key = true ->
     well_formed_value value = true ->
     dict_get field_map (normalize key) = Some searcher ->
     let literal := PyStr.strip (_remove_escapes value ",:=<>") in
     let clause delimiter := key +:+ delimiter +:+ value in
     parses_to (clause ":") field_map search_str
       (on_field searcher (contains searcher literal)) /\
     parses_to (clause "==") field_map search_str
       (on_field searcher (fun v => compare searcher literal v operator.eq)) /\
     parses_to (clause "<") field_map search_str
       (on_field searcher (fun v => compare searcher literal v operator.gt)) /\
     parses_to (clause "<=") field_map search_str
       (on_field searcher (fun v => compare searcher literal v operator.ge)) /\
     parses_to (clause ">") field_map search_str
       (on_field searcher (fun v => compare searcher literal v operator.lt)) /\
     parses_to (clause ">=") field_map search_str
       (on_field searcher (fun v => compare searcher literal v operator.le))) /\
  (forall (Ext : Externals) field usr rec (op : binop),
     compare (StringSearcher field) usr rec op
     = op (VStr usr) (VStr (py_str rec)) /\
     compare (BytesSearcher field) usr rec op
     = (usr_bytes ← from_human_bytes_str usr; op (VInt usr_bytes) rec) /\
     compare (DatetimeSearcher field) usr rec op
     = (rec_dt ← _parse_datetime rec;
        usr_dt ← _parse_datetime (VStr usr);
        op (VDatetime usr_dt) (VDatetime rec_dt))) /\
  (forall (Ext : Externals) limit,
     from_human_bytes_str "20MB" = Ok limit ->
     exists f,
       parse_clause "size<20MB" _S3_SEARCH_FIELDS_MAP "size<20MB" = Ok f /\
       forall record size,
         dict_get record "size" = Some (VInt size) ->
         f record = Ok (size <? limit)).
Proof.
  split; [|split].
  - intros field_map key value search_str searcher Hk Hv Hget literal clause.
    unfold parses_to, clause.
    repeat split; eexists; (split; [|intros record; reflexivity]);
      rewrite parse_clause_fields by (assumption || reflexivity).
    + apply make_match_fcn_contains; assumption.
    + apply make_match_fcn_compare; [assumption | simpl; tauto].
    + apply make_match_fcn_compare; [assumption | simpl; tauto].
    + apply make_match_fcn_compare; [assumption | simpl; tauto].
    + apply make_match_fcn_compare; [assumption | simpl; tauto].
    + apply make_match_fcn_compare; [assumption | simpl; tauto].
  - intros Ext field usr rec op. repeat split.
  - intros Ext limit Hlimit.
    eexists. split; [reflexivity|].
    intros record size Hsize.
    simpl. unfold subscript. rewrite Hsize. simpl.
    change (PyStr.strip "20MB") with "20MB". rewrite Hlimit. simpl.
    unfold operator.gt, ordering. simpl.
    rewrite Z.ltb_compare, (Z.compare_antisym size limit).
    destruct (size ?= limit); reflexivity.
Qed.

Lemma operators_dispatch_by_table_witness :
  parses_to "Last Modified>=2020-01-01" (@_S3_SEARCH_FIELDS_MAP reference_externals)
    "Last Modified>=2020-01-01"
    (on_field (@DatetimeSearcher reference_externals "last_modified")
       (fun v => compare (@DatetimeSearcher reference_externals "last_modified")
                   "2020-01-01" v operator.le)) /\
  exists f,
    parse_clause "size<20MB" (@_S3_SEARCH_FIELDS_MAP reference_externals)
      "size<20MB" = Ok f /\
    f (object_record "a.bin" (VInt (10 * MB)) "2019-12-31T23:00:00-05:00")
    = Ok true /\
    f (object_record "b.bin" (VInt (25 * MB)) "2019-12-31T23:00:00-05:00")
    = Ok false.
Proof.
  destruct operators_dispatch_by_table as (H1 & _ & H3).
  split.
  - apply (H1 (@_S3_SEARCH_FIELDS_MAP reference_externals)
             "Last Modified" "2020-01-01" "Last Modified>=2020-01-01"
             (@DatetimeSearcher reference_externals "last_modified")
             eq_refl eq_refl eq_refl).
  - destruct (H3 reference_externals (20 * MB) eq_refl) as (f & Hf & Hrec).
    exists f. split; [exact Hf|]. split.
    + apply (Hrec _ (10 * MB)). reflexivity.
    + apply (Hrec _ (25 * MB)). reflexivity.
Defined.

Example size_below_20MB :
  @_filter_records
    [ object_record "a.bin" (VInt (10 * MB)) "2019-12-31T23:00:00-05:00";
      object_record "b.bin" (VInt (25 * MB)) "2019-12-31T23:00:00-05:00" ]
    (-1) (Some "size<20MB") None true (@_S3_SEARCH_FIELDS_MAP reference_externals)
  = Ok [ object_record "a.bin" (VInt (10 * MB)) "2019-12-31T23:00:00-05:00" ].
Proof. vm_compute. reflexivity. Qed.

(** ** The search stage keeps the records of which every clause holds *)

Lemma filter_by_ok f records out :
  filter_by f records = Ok out -> out = List.filter (holds f) records.
Proof.
  revert out. induction records as [|r rs IH]; intros out H; simpl in H.
  - injection H as <-. reflexivity.
  - unfold holds. simpl.
    destruct (f r) as [keep|e]; simpl in H; [|discriminate].
    destruct (filter_by f rs) as [rest|e]; simpl in H; [|discriminate].
    injection H as <-. rewrite (IH rest eq_refl).
    destruct keep; reflexivity.
Qed.

Lemma filter_by_total f records :
  Forall (fun r => is_ok (f r) = true) records ->
  filter_by f records = Ok (List.filter (holds f) records).
Proof.
  induction 1 as [|r rs Hr _ IH]; [reflexivity|].
  simpl. unfold holds. destruct (f r) as [keep|e]; [|discriminate].
  simpl. rewrite IH. simpl. destruct keep; reflexivity.
Qed.

Lemma filter_filter_holds (p : match_fcn) (q : record -> bool) records :
  List.filter q (List.filter (holds p) records)
  = List.filter (fun r => holds p r && q r) records.
Proof.
  induction records as [|r rs IH]; [reflexivity|].
  simpl. destruct (holds p r); simpl; rewrite IH; reflexivity.
Qed.

Lemma filter_all {A : Type} (l : list A) : List.filter (fun _ => true) l = l.
Proof. induction l as [|x l IH]; [reflexivity|]. simpl. f_equal. exact IH. Qed.

Lemma search_loop_ok steps : forall records out,
  search_loop steps records = Ok out ->
  exists preds,
    steps = map Ok preds /\
    out = List.filter (fun r => forallb (fun p => holds p r) preds) records.
Proof.
  induction steps as [|step steps IH]; intros records out H; simpl in H.
  - injection H as <-. exists []. split; [reflexivity|].
    simpl. symmetry. apply filter_all.
  - destruct step as [f|e]; simpl in H; [|discriminate].
    destruct (filter_by f records) as [kept|e] eqn:Hf; simpl in H; [|discriminate].
    destruct (IH kept out H) as (preds & -> & ->).
    exists (f :: preds). split; [reflexivity|].
    rewrite (filter_by_ok f records kept Hf).
    apply filter_filter_holds.
Qed.

Lemma search_loop_total preds : forall records,
  Forall (fun p => Forall (fun r => is_ok (p r) = true) records) preds ->
  search_loop (map Ok preds) records
  = Ok (List.filter (fun r => forallb (fun p => holds p r) preds) records).
Proof.
  induction preds as [|p preds IH]; intros records H; simpl.
  - f_equal. symmetry. apply filter_all.
  - inversion H as [|? ? Hp Hps]; subst.
    rewrite (filter_by_total p records Hp). simpl.
    rewrite IH.
    + rewrite filter_filter_holds. reflexivity.
    + eapply Forall_impl; [exact Hps|].
      intros q Hq. simpl in Hq.
      rewrite List.Forall_forall in Hq |- *.
      intros r Hr. apply Hq. apply filter_In in Hr. tauto.
Qed.

(** ** The any-field predicate *)

Lemma searcher_map_fold (l : list Searcher) : forall (m0 : gmap string Searcher) n s,
  NoDup (map name l) ->
  foldl (fun m s => <[name s := s]> m) m0 l !! n = Some s <->
  (In s l /\ name s = n) \/
  ((forall s', In s' l -> name s' <> n) /\ m0 !! n = Some s).
Proof.
  induction l as [|x l IH]; intros m0 n s Hnd; simpl.
  - split; [intros H; right; split; [tauto | exact H] | intros [[[] _]|[_ H]]; exact H].
  - apply NoDup_cons in Hnd as [Hx Hnd].
    rewrite (IH _ n s Hnd). clear IH.
    destruct (decide (name x = n)) as [E|NE].
    + rewrite <- E, lookup_insert_eq. split.
      * intros [[Hin Hs]|[Hno Heq]].
        -- exfalso. apply Hx. rewrite <- Hs.
           apply list_elem_of_In, in_map, Hin.
        -- injection Heq as <-. left. split; [left; reflexivity | reflexivity].
      * intros [[[<-|Hin] Hs]|[Hno _]].
        -- right. split; [|reflexivity].
           intros s' Hs' E'. apply Hx. rewrite <- E'.
           apply list_elem_of_In, in_map, Hs'.
        -- exfalso. apply Hx. rewrite <- Hs.
           apply list_elem_of_In, in_map, Hin.
        -- exfalso. apply (Hno x); [left; reflexivity | reflexivity].
    + rewrite lookup_insert_ne by exact NE. split.
      * intros [[Hin Hs]|[Hno Heq]].
        -- left. split; [right; exact Hin | exact Hs].
        -- right. split; [|exact Heq].
           intros s' [<-|Hs']; [exact NE | apply Hno, Hs'].
      * intros [[[<-|Hin] Hs]|[Hno Heq]].
        -- contradiction.
        -- left. split; assumption.
        -- right. split; [|exact Heq].
           intros s' Hs'. apply Hno. right. exact Hs'.
Qed.

(** When no two fields read the same attribute, the searcher map holds
    exactly the searchers of the field map, under their attribute names. *)
Lemma make_searcher_map_lookup field_map n s :
  NoDup (map name (dict_values field_map)) ->
  make_searcher_map field_map !! n = Some s <->
  (exists key, In (key, s) field_map) /\ name s = n.
Proof.
  intros Hnd. unfold make_searcher_map.
  rewrite (searcher_map_fold _ ∅ n s Hnd), lookup_empty.
  unfold dict_values. rewrite in_map_iff. split.
  - intros [[((key & s') & E & Hin) Hs]|[_ H]]; [|discriminate].
    simpl in E. subst s'. split; [exists key; exact Hin | exact Hs].
  - intros [[key Hin] Hs]. left. split; [|exact Hs].
    exists (key, s). split; [reflexivity | exact Hin].
Qed.

Lemma dict_get_In {V : Type} (d : list (string * V)) k v :
  dict_get d k = Some v -> In k (dict_keys d).
Proof.
  induction d as [|[k' v'] d IH]; simpl; [discriminate|].
  destruct (String.eqb k k') eqn:E.
  - apply String.eqb_eq in E. left. congruence.
  - intros H. right. apply IH, H.
Qed.

Lemma dict_keys_get {V : Type} (d : list (string * V)) k :
  In k (dict_keys d) -> exists v, dict_get d k = Some v.
Proof.
  induction d as [|[k' v'] d IH]; simpl; [tauto|].
  intros H. destruct (String.eqb k k') eqn:E; [eauto|].
  destruct H as [H|H]; [|apply IH, H].
  subst k'. rewrite String.eqb_refl in E. discriminate.
Qed.

(** The loop returns [True] exactly when one of the names it visits has a
    searcher whose [contains] holds, provided that no [contains] raises. *)
Lemma any_match_loop_spec sm value (r : record) names :
  (forall n, In n names -> In n (dict_keys r)) ->
  (forall n s v, sm !! n = Some s -> dict_get r n = Some v ->
                 is_ok (contains s value v) = true) ->
  exists b,
    any_match_loop sm value r names = Ok b /\
    (b = true <->
     exists n s v, In n names /\ sm !! n = Some s /\ dict_get r n = Some v /\
                   contains s value v = Ok true).
Proof.
  intros Hkeys Hok. induction names as [|n names IH]; simpl.
  - exists false. split; [reflexivity|].
    split; [discriminate | intros (? & ? & ? & [] & _)].
  - destruct IH as (b & Hb & Hiff).
    { intros n' Hn'. apply Hkeys. right. exact Hn'. }
    destruct (sm !! n) as [s|] eqn:Hs.
    + destruct (dict_keys_get r n (Hkeys n (or_introl eq_refl))) as [v Hv].
      unfold subscript. rewrite Hv. simpl.
      pose proof (Hok n s v Hs Hv) as Hc.
      destruct (contains s value v) as [[|]|e] eqn:Hhit; [| |discriminate]; simpl.
      * exists true. split; [reflexivity|].
        split; [|reflexivity]. intros _.
        exists n, s, v. repeat split; try assumption. left. reflexivity.
      * exists b. split; [exact Hb|]. rewrite Hiff. split.
        -- intros (n' & s' & v' & Hin & H1 & H2 & H3).
           exists n', s', v'. repeat split; try assumption. right. exact Hin.
        -- intros (n' & s' & v' & [<-|Hin] & H1 & H2 & H3).
           ++ rewrite Hs in H1. injection H1 as <-.
              rewrite Hv in H2. injection H2 as <-. congruence.
           ++ exists n', s', v'. repeat split; assumption.
    + exists b. split; [exact Hb|]. rewrite Hiff. split.
      * intros (n' & s' & v' & Hin & H1 & H2 & H3).
        exists n', s', v'. repeat split; try assumption. right. exact Hin.
      * intros (n' & s' & v' & [<-|Hin] & H1 & H2 & H3).
        -- congruence.
        -- exists n', s', v'. repeat split; assumption.
Qed.

Lemma map_eq_Ok {A B : Type} (f : A -> result B) l : forall preds,
  map f l = map Ok preds -> Forall2 (fun x p => f x = Ok p) l preds.
Proof.
  induction l as [|x l IH]; intros [|p preds] H; simpl in H;
    try discriminate; constructor.
  - congruence.
  - apply IH. congruence.
Qed.

Lemma Forall2_map_Ok {A B : Type} (f : A -> result B) l preds :
  Forall2 (fun x p => f x = Ok p) l preds -> map f l = map Ok preds.
Proof. induction 1; simpl; congruence. Qed.

Lemma holds_true p r : holds p r = true <-> p r = Ok true.
Proof.
  unfold holds. destruct (p r) as [[|]|e]; split; congruence.
Qed.

Lemma filter_records_search records limit search_str sort_by ascending field_map :
  _filter_records records limit search_str sort_by ascending field_map
  = (filtered ← search_stage records search_str field_map;
     _filter_records filtered limit None sort_by ascending field_map).
Proof.
  unfold _filter_records, search_stage.
  destruct search_str as [[|c s]|]; reflexivity.
Qed.

(** C3.  The search stage of [_filter_records] returns, in listing order,
    exactly the input records of which the predicate of every
    comma-separated clause holds; it does return them whenever every
    clause is accepted and no predicate raises.  A clause without an
    operator is the any-field predicate, which holds of a record if and
    only if the record has an attribute, read by some registered field,
    whose [contains] holds of the literal and the attribute's value. *)
Theorem search_keeps_records_of_every_clause :
  (forall records limit search_str sort_by ascending field_map,
     _filter_records records limit search_str sort_by ascending field_map
     = (filtered ← search_stage records search_str field_map;
        _filter_records filtered limit None sort_by ascending field_map)) /\
  (forall records c s field_map out,
     search_stage records (Some (String c s)) field_map = Ok out ->
     exists preds,
       Forall2 (fun clause p => parse_clause clause field_map (String c s) = Ok p)
         (_split_on_chars (String c s) "," None false) preds /\
       out = List.filter (fun r => forallb (fun p => holds p r) preds) records /\
       forall r, In r out <->
                 In r records /\ forall p, In p preds -> p r = Ok true) /\
  (forall records c s field_map preds,
     Forall2 (fun clause p => parse_clause clause field_map (String c s) = Ok p)
       (_split_on_chars (String c s) "," None false) preds ->
     Forall (fun p => Forall (fun r => is_ok (p r) = true) records) preds ->
     search_stage records (Some (String c s)) field_map
     = Ok (List.filter (fun r => forallb (fun p => holds p r) preds) records)) /\
  (forall literal field_map search_str,
     Forall (fun b => b = false) (unescaped_positions ":=<>" false literal) ->
     parse_clause literal field_map search_str
     = Ok (_make_any_match_fcn literal field_map)) /\
  (forall literal field_map (r : record),
     let value := PyStr.strip (_remove_escapes literal ",:=<>") in
     NoDup (map name (dict_values field_map)) ->
     (forall key s v, In (key, s) field_map -> dict_get r (name s) = Some v ->
                      is_ok (contains s value v) = true) ->
     exists b,
       _make_any_match_fcn literal field_map r = Ok b /\
       (b = true <->
        exists key s v, In (key, s) field_map /\
                        dict_get r (name s) = Some v /\
                        contains s value v = Ok true)).
Proof.
  split; [exact filter_records_search|].
  split; [|split; [|split]].
  - intros records c s field_map out H. simpl in H.
    destruct (search_loop_ok _ _ _ H) as (preds & Hsteps & Hout).
    exists preds. split; [|split].
    + apply map_eq_Ok. exact Hsteps.
    + exact Hout.
    + intros r. rewrite Hout, filter_In, forallb_forall.
      split; intros [Hin Hall]; (split; [exact Hin|]);
        intros p Hp; apply holds_true, Hall, Hp.
  - intros records c s field_map preds Hparse Htotal. simpl.
    unfold _parse_search_str. rewrite (Forall2_map_Ok _ _ _ Hparse).
    apply search_loop_total, Htotal.
  - intros literal field_map search_str H.
    unfold parse_clause, _split_on_chars, re_split.
    rewrite scan_all_escaped by exact H. reflexivity.
  - intros literal field_map r value Hnd Hok.
    unfold _make_any_match_fcn. fold value.
    destruct (any_match_loop_spec (make_searcher_map field_map) value r
                (dict_keys r)) as (b & Hb & Hiff).
    + tauto.
    + intros n s v Hs Hv.
      apply make_searcher_map_lookup in Hs as [[key Hin] <-]; [|exact Hnd].
      apply (Hok key s v Hin Hv).
    + exists b. split; [exact Hb|]. rewrite Hiff. split.
      * intros (n & s & v & _ & Hs & Hv & Hhit).
        apply make_searcher_map_lookup in Hs as [[key Hin] <-]; [|exact Hnd].
        exists key, s, v. tauto.
      * intros (key & s & v & Hin & Hv & Hhit).
        exists (name s), s, v. repeat split; try assumption.
        -- eapply dict_get_In, Hv.
        -- apply make_searcher_map_lookup; eauto.
Qed.

Lemma search_keeps_records_of_every_clause_witness :
  let S3 := @_S3_SEARCH_FIELDS_MAP reference_externals in
  let a := object_record "a.bin" (VInt (10 * MB)) "2019-12-31T23:00:00-05:00" in
  let b := object_record "b.bin" (VInt (25 * MB)) "2019-12-31T23:00:00-05:00" in
  (exists preds,
     Forall2 (fun clause p => parse_clause clause S3 "size<20MB,bin" = Ok p)
       (_split_on_chars "size<20MB,bin" "," None false) preds /\
     [a] = List.filter (fun r => forallb (fun p => holds p r) preds) [a; b] /\
     forall r, In r [a] <->
               In r [a; b] /\ forall p, In p preds -> p r = Ok true) /\
  parse_clause "bin" S3 "size<20MB,bin" = Ok (_make_any_match_fcn "bin" S3) /\
  (exists hit,
     _make_any_match_fcn "bin" S3 a = Ok hit /\
     (hit = true <->
      exists key s v, In (key, s) S3 /\ dict_get a (name s) = Some v /\
                      contains s (PyStr.strip (_remove_escapes "bin" ",:=<>")) v
                      = Ok true)).
Proof.
  intros S3 a b.
  destruct search_keeps_records_of_every_clause as (_ & H2 & _ & H4 & H5).
  split; [|split].
  - apply (H2 [a; b] "s"%char "ize<20MB,bin" S3 [a]). vm_compute. reflexivity.
  - apply (H4 "bin" S3 "size<20MB,bin"). repeat constructor.
  - apply (H5 "bin" S3 a).
    + apply (bool_decide_unpack _). vm_compute. reflexivity.
    + intros key s v Hin.
      simpl in Hin.
      destruct Hin as [E|[E|[E|[E|[E|[]]]]]]; injection E as <- <-;
        intros Hv; vm_compute in Hv; injection Hv as <-; vm_compute; reflexivity.
Defined.

(** ** Ordering without a sort key, and the limit *)

Lemma filter_records_limit records limit search_str sort_by ascending field_map :
  _filter_records records limit search_str sort_by ascending field_map
  = (full ← _filter_records records 0 search_str sort_by ascending field_map;
     Ok (if 0 <? limit then take (Z.to_nat limit) full else full)).
Proof.
  rewrite (filter_records_search records limit),
          (filter_records_search records 0).
  destruct (search_stage records search_str field_map) as [filtered|e];
    [|reflexivity].
  simpl. unfold _filter_records. simpl.
  destruct sort_by as [[|c s]|]; simpl.
  - destruct ascending; reflexivity.
  - destruct (sorted filtered _ (negb ascending)) as [x|e]; [reflexivity|].
    destruct (is_KeyError e); reflexivity.
  - destruct ascending; reflexivity.
Qed.

(** C6.  Without a sort key ([sort_by] absent or empty), the records that
    pass the search are returned in reversed listing order when
    [ascending] is false, and in listing order when it is true; the limit
    then applies to that sequence. *)
Theorem unsorted_listing_order :
  forall records limit search_str sort_by ascending field_map filtered,
    sort_by = None \/ sort_by = Some ""%string ->
    search_stage records search_str field_map = Ok filtered ->
    _filter_records records 0 search_str sort_by false field_map
    = Ok (rev filtered) /\
    _filter_records records 0 search_str sort_by true field_map
    = Ok filtered /\
    _filter_records records limit search_str sort_by ascending field_map
    = Ok (let listed := if ascending then filtered else rev filtered in
          if 0 <? limit then take (Z.to_nat limit) listed else listed).
Proof.
  intros records limit search_str sort_by ascending field_map filtered
         Hsort Hsearch.
  rewrite !filter_records_search, Hsearch. simpl.
  unfold _filter_records.
  destruct Hsort as [-> | ->]; simpl; repeat split; destruct ascending;
    reflexivity.
Qed.

Lemma unsorted_listing_order_witness :
  let a := object_record "a.bin" (VInt (10 * MB)) "2019-12-31T23:00:00-05:00" in
  let b := object_record "b.bin" (VInt (25 * MB)) "2019-12-31T23:00:00-05:00" in
  let c := object_record "c.txt" (VInt (5 * MB)) "2019-12-31T23:00:00-05:00" in
  let S3 := @_S3_SEARCH_FIELDS_MAP reference_externals in
  _filter_records [a; b; c] 0 (Some "bin") None false S3 = Ok [b; a] /\
  _filter_records [a; b; c] 0 (Some "bin") None true S3 = Ok [a; b] /\
  _filter_records [a; b; c] 1 (Some "bin") None false S3 = Ok [b].
Proof.
  intros a b c S3.
  apply (unsorted_listing_order [a; b; c] 1 (Some "bin") None false S3 [a; b]).
  - left. reflexivity.
  - vm_compute. reflexivity.
Defined.

(** C7.  The limit applies last, to the filtered and sorted sequence: a
    positive [limit] keeps its first [limit] records (all of them when
    there are fewer), and a zero or negative [limit] returns the sequence
    as it is.  An exception of the earlier stages is raised whatever the
    limit is. *)
Theorem limit_truncates :
  forall records limit search_str sort_by ascending field_map,
    (forall full,
       _filter_records records 0 search_str sort_by ascending field_map
       = Ok full ->
       (0 < limit ->
        _filter_records records limit search_str sort_by ascending field_map
        = Ok (take (Z.to_nat limit) full)) /\
       (limit <= 0 ->
        _filter_records records limit search_str sort_by ascending field_map
        = Ok full)) /\
    (forall e,
       _filter_records records 0 search_str sort_by ascending field_map
       = Raise e ->
       _filter_records records limit search_str sort_by ascending field_map
       = Raise e).
Proof.
  intros records limit search_str sort_by ascending field_map.
  rewrite (filter_records_limit records limit).
  split.
  - intros full ->. simpl. split; intros Hl.
    + apply Z.ltb_lt in Hl. rewrite Hl. reflexivity.
    + apply Z.ltb_ge in Hl. rewrite Hl. reflexivity.
  - intros e ->. reflexivity.
Qed.

Lemma limit_truncates_witness :
  let a := object_record "a.bin" (VInt (10 * MB)) "2019-12-31T23:00:00-05:00" in
  let b := object_record "b.bin" (VInt (25 * MB)) "2019-12-31T23:00:00-05:00" in
  let c := object_record "c.txt" (VInt (5 * MB)) "2019-12-31T23:00:00-05:00" in
  let S3 := @_S3_SEARCH_FIELDS_MAP reference_externals in
  _filter_records [a; b; c] 2 None (Some "size") false S3 = Ok [b; a] /\
  _filter_records [a; b; c] (-1) None (Some "size") false S3 = Ok [b; a; c] /\
  _filter_records [a; b; c] 2 None (Some "colour") false S3
  = Raise (KeyError_sort_by "colour" "colour" (dict_keys S3)).
Proof.
  intros a b c S3.
  destruct (limit_truncates [a; b; c] 2 None (Some "size") false S3) as [H2 _].
  destruct (limit_truncates [a; b; c] (-1) None (Some "size") false S3) as [H1 _].
  destruct (limit_truncates [a; b; c] 2 None (Some "colour") false S3) as [_ H3].
  split; [|split].
  - apply (H2 [b; a; c]); [vm_compute; reflexivity | lia].
  - apply (H1 [b; a; c]); [vm_compute; reflexivity | lia].
  - apply H3. vm_compute. reflexivity.
Defined.

(** ** Unknown fields *)

Lemma search_loop_app steps1 steps2 : forall records,
  search_loop (steps1 ++ steps2) records
  = (kept ← search_loop steps1 records; search_loop steps2 kept).
Proof.
  induction steps1 as [|step steps1 IH]; intros records; [reflexivity|].
  simpl. destruct step as [f|e]; [|reflexivity]. simpl.
  destruct (filter_by f records) as [kept|e]; [|reflexivity]. simpl.
  apply IH.
Qed.


Lemma filter_records_raise records limit search_str sort_by ascending field_map e :
  search_stage records search_str field_map = Raise e ->
  _filter_records records limit search_str sort_by ascending field_map = Raise e.
Proof. intros H. rewrite filter_records_search, H. reflexivity. Qed.




(** A key followed by a no-break space is the key: the clause is
    accepted, and the query returns the record above five megabytes. *)
Example key_with_no_break_space :
  let a := object_record "a.bin" (VInt (10 * MB)) "2019-12-31T23:00:00-05:00" in
  let b := object_record "b.bin" (VInt (2 * MB)) "2019-12-31T23:00:00-05:00" in
  let S3 := @_S3_SEARCH_FIELDS_MAP reference_externals in
  _filter_records [a; b] 0
    (Some ("size" +:+ String (Ascii.ascii_of_nat 160) ">5MB")) None true S3
  = Ok [a].
Proof. intros a b S3. vm_compute. reflexivity. Qed.

(** ** Datetime comparison *)

Lemma same_zone_key a b :
  PyDatetime.same_zone a b = true <-> tz_key a = tz_key b.
Proof. apply String.eqb_eq. Qed.

(** The zone of a datetime converted to [tz] is [tz]. *)
Lemma astimezone_zone system dt tz :
  exists z, dt_tzinfo (PyDatetime.astimezone system dt tz) = Some z /\
            tz_key z = tz_key tz.
Proof.
  unfold PyDatetime.astimezone.
  destruct (dt_tzinfo dt) as [z|] eqn:Hz; simpl.
  - destruct (PyDatetime.same_zone tz z) eqn:E; simpl.
    + exists z. split; [exact Hz|]. symmetry. apply same_zone_key, E.
    + exists tz. split; reflexivity.
  - rewrite andb_false_r. exists tz. split; reflexivity.
Qed.

(** C9.  A Datetime comparison parses the user's literal with
    [isoparse], converts both the parsed literal and the record's
    timestamp to the local zone, and applies the relation to the user's
    datetime first and the record's datetime second: both operands carry
    the local zone, so the relation compares their local wall-clock
    readings.  The conversion keeps the instant that the literal denotes:
    with an explicit offset, the instant at that offset; without one, the
    instant at which the local zone shows the literal's reading. *)
Theorem datetime_compare_in_local_zone :
  forall (Ext : Externals) field usr user_time (record_time : datetime)
         (op : binop),
    isoparse usr = Ok user_time ->
    let local := get_localzone in
    let usr_dt := PyDatetime.astimezone local user_time local in
    let rec_dt := PyDatetime.astimezone local record_time local in
    compare (DatetimeSearcher field) usr (VDatetime record_time) op
    = op (VDatetime usr_dt) (VDatetime rec_dt) /\
    (forall s, isoparse s = Ok record_time ->
       compare (DatetimeSearcher field) usr (VStr s) op
       = op (VDatetime usr_dt) (VDatetime rec_dt)) /\
    (exists z, dt_tzinfo usr_dt = Some z /\ tz_key z = tz_key local) /\
    (exists z, dt_tzinfo rec_dt = Some z /\ tz_key z = tz_key local) /\
    PyDatetime.cmp usr_dt rec_dt = Some (dt_wall usr_dt ?= dt_wall rec_dt) /\
    (forall z, dt_tzinfo user_time = Some z ->
       tz_key z <> tz_key local ->
       usr_dt = mk_datetime
                  (tz_fromutc local
                     (dt_wall user_time - tz_utcoffset z (dt_wall user_time)))
                  (Some local)) /\
    (forall z, dt_tzinfo user_time = Some z ->
       tz_key z = tz_key local -> usr_dt = user_time) /\
    (dt_tzinfo user_time = None ->
     usr_dt = mk_datetime
                (tz_fromutc local
                   (dt_wall user_time - tz_utcoffset local (dt_wall user_time)))
                (Some local)).
Proof.
  intros Ext field usr user_time record_time op Hparse local usr_dt rec_dt.
  destruct (astimezone_zone local user_time local) as (zu & Hzu & Hku).
  destruct (astimezone_zone local record_time local) as (zr & Hzr & Hkr).
  fold usr_dt in Hzu. fold rec_dt in Hzr.
  repeat split.
  - simpl. unfold _parse_datetime. rewrite Hparse. reflexivity.
  - intros s Hs. simpl. unfold _parse_datetime. rewrite Hs, Hparse. reflexivity.
  - exists zu. split; assumption.
  - exists zr. split; assumption.
  - unfold PyDatetime.cmp. rewrite Hzu, Hzr.
    assert (E : PyDatetime.same_zone zu zr = true)
      by (apply same_zone_key; congruence).
    rewrite E. reflexivity.
  - intros z Hz Hne. unfold usr_dt, PyDatetime.astimezone. rewrite Hz. simpl.
    destruct (PyDatetime.same_zone local z) eqn:E; [|reflexivity].
    apply same_zone_key in E. congruence.
  - intros z Hz Heq. unfold usr_dt, PyDatetime.astimezone. rewrite Hz. simpl.
    assert (E : PyDatetime.same_zone local z = true)
      by (apply same_zone_key; congruence).
    rewrite E. reflexivity.
  - intros Hz. unfold usr_dt, PyDatetime.astimezone. rewrite Hz. simpl.
    rewrite andb_false_r. reflexivity.
Qed.

Lemma datetime_compare_in_local_zone_witness :
  let Ext := reference_externals in
  let rec_time := mk_datetime 1577833200
                    (Some (PyDatetime.fixed_zone "UTC+01:00" 3600)) in
  compare (DatetimeSearcher "last_modified") "2020-01-01" (VDatetime rec_time)
    operator.gt
  = operator.gt
      (VDatetime (PyDatetime.astimezone reference_zone
                    (mk_datetime 1577836800 None) reference_zone))
      (VDatetime (PyDatetime.astimezone reference_zone rec_time reference_zone)).
Proof.
  intros Ext rec_time.
  apply (datetime_compare_in_local_zone reference_externals "last_modified"
           "2020-01-01" (mk_datetime 1577836800 None) rec_time operator.gt).
  reflexivity.
Defined.

(** The scenario of the design document: with the local zone five hours
    behind UTC, [last modified<2020-01-01] holds of a record stamped
    [2019-12-31T23:00:00-05:00]. *)
Example last_modified_before_2020 :
  let a := object_record "a.bin" (VInt (10 * MB)) "2019-12-31T23:00:00-05:00" in
  let b := object_record "b.bin" (VInt (25 * MB)) "2020-01-01T06:00:00+01:00" in
  let S3 := @_S3_SEARCH_FIELDS_MAP reference_externals in
  _filter_records [a; b] (-1) (Some "last modified<2020-01-01") None true S3
  = Ok [a].
Proof. vm_compute. reflexivity. Qed.

(** ** Sizes that are unknown *)

Lemma contains_dash usr :
  PyStr.contains usr "-" = true <-> usr = ""%string \/ usr = "-"%string.
Proof.
  destruct usr as [|c [|c' usr]]; simpl.
  - split; [left; reflexivity | reflexivity].
  - destruct (ascii_dec c "-") as [->|Hc]; simpl.
    + split; [right; reflexivity | reflexivity].
    + split; [discriminate | intros [H|H]; [discriminate | congruence]].
  - destruct (ascii_dec c "-"); simpl;
      (split; [discriminate | intros [H|H]; discriminate]).
Qed.

(** C10.  A size that is [None] or negative is rendered as ["-"], so the
    [contains] of a bytes searcher holds of it exactly when the search
    string is a substring of ["-"], that is, empty or ["-"] itself.  This
    is what a [size:] clause returns for such a record, and what a bare
    literal tests when its loop visits the size attribute. *)
Theorem unknown_size_is_a_dash :
  forall (Ext : Externals) (size : value),
    size = VNone \/ (exists n, size = VInt n /\ n < 0) ->
    _render_bytes size = Ok "-"%string /\
    (forall field usr,
       contains (BytesSearcher field) usr size = Ok (PyStr.contains usr "-") /\
       (contains (BytesSearcher field) usr size = Ok true <->
        usr = ""%string \/ usr = "-"%string)) /\
    (forall field_map key value search_str field (r : record),
       well_formed_key key = true ->
       well_formed_value value = true ->
       dict_get field_map (normalize key) = Some (BytesSearcher field) ->
       dict_get r field = Some size ->
       exists f,
         parse_clause (key +:+ ":" +:+ value) field_map search_str = Ok f /\
         f r = Ok (PyStr.contains
                     (PyStr.strip (_remove_escapes value ",:=<>")) "-")) /\
    (forall searcher_map usr (r : record) attribute field names,
       searcher_map !! attribute = Some (BytesSearcher field) ->
       dict_get r attribute = Some size ->
       any_match_loop searcher_map usr r (attribute :: names)
       = if PyStr.contains usr "-" then Ok true
         else any_match_loop searcher_map usr r names).
Proof.
  intros Ext size Hsize.
  assert (Hrender : _render_bytes size = Ok "-"%string).
  { destruct Hsize as [->|(n & -> & Hn)]; [reflexivity|].
    simpl. apply Z.ltb_lt in Hn. rewrite Hn. reflexivity. }
  assert (Hcontains : forall field usr,
            contains (BytesSearcher field) usr size
            = Ok (PyStr.contains usr "-")).
  { intros field usr. simpl. rewrite Hrender. reflexivity. }
  split; [exact Hrender|]. split; [|split].
  - intros field usr. split; [apply Hcontains|].
    rewrite Hcontains, <- contains_dash. split; congruence.
  - intros field_map key value search_str field r Hk Hv Hget Hr.
    eexists. split.
    + rewrite parse_clause_fields by (assumption || reflexivity).
      apply make_match_fcn_contains. exact Hget.
    + unfold on_field, subscript. cbn [name BytesSearcher]. rewrite Hr.
      apply Hcontains.
  - intros searcher_map usr r attribute field names Hs Hr.
    cbn [any_match_loop]. rewrite Hs. unfold subscript. rewrite Hr.
    change (Ok size ≫= ?k) with (k size). cbv beta.
    rewrite Hcontains. reflexivity.
Qed.

Lemma unknown_size_is_a_dash_witness :
  let Ext := reference_externals in
  let folder := object_record "logs/" VNone "2019-12-31T23:00:00-05:00" in
  _render_bytes (VInt (-1)) = Ok "-"%string /\
  (exists f,
     parse_clause "size: - " _S3_SEARCH_FIELDS_MAP "size: - " = Ok f /\
     f folder = Ok true) /\
  (exists f,
     parse_clause "size:0" _S3_SEARCH_FIELDS_MAP "size:0" = Ok f /\
     f folder = Ok false).
Proof.
  intros Ext folder.
  split; [|split].
  - apply (unknown_size_is_a_dash reference_externals (VInt (-1))).
    right. exists (-1). split; [reflexivity | lia].
  - destruct (unknown_size_is_a_dash reference_externals VNone
                (or_introl eq_refl)) as (_ & _ & H & _).
    apply (H _S3_SEARCH_FIELDS_MAP "size" " - " "size: - " "size" folder);
      reflexivity.
  - destruct (unknown_size_is_a_dash reference_externals VNone
                (or_introl eq_refl)) as (_ & _ & H & _).
    apply (H _S3_SEARCH_FIELDS_MAP "size" "0" "size:0" "size" folder);
      reflexivity.
Defined.

(** ** The built-in sort *)

Lemma str_ltb_irrefl s : PyStr.ltb s s = false.
Proof.
  induction s as [|c s IH]; [reflexivity|].
  simpl. rewrite Nat.ltb_irrefl. exact IH.
Qed.

Lemma str_ltb_asym a : forall b, PyStr.ltb a b = true -> PyStr.ltb b a = false.
Proof.
  induction a as [|x a IH]; intros [|y b] H; simpl in *; try congruence.
  destruct (Nat.ltb_spec (Ascii.nat_of_ascii x) (Ascii.nat_of_ascii y)) as [Hxy|Hxy].
  - destruct (Nat.ltb_spec (Ascii.nat_of_ascii y) (Ascii.nat_of_ascii x));
      [lia | reflexivity].
  - destruct (Nat.ltb_spec (Ascii.nat_of_ascii y) (Ascii.nat_of_ascii x));
      [discriminate|].
    apply IH, H.
Qed.

Lemma same_zone_sym a b : PyDatetime.same_zone a b = PyDatetime.same_zone b a.
Proof. apply String.eqb_sym. Qed.

(** [<] on sort keys is asymmetric. *)
Lemma key_ltb_asym a b : key_ltb a b = true -> key_ltb b a = false.
Proof.
  unfold key_ltb.
  destruct a as [|x|x|x], b as [|y|y|y]; simpl; try discriminate.
  - destruct (PyStr.ltb x y) eqn:E; [|destruct (PyStr.ltb y x); discriminate].
    intros _. rewrite (str_ltb_asym x y E). reflexivity.
  - rewrite (Z.compare_antisym x y).
    destruct (x ?= y); simpl; congruence.
  - unfold PyDatetime.cmp.
    destruct (dt_tzinfo x) as [zx|], (dt_tzinfo y) as [zy|]; try discriminate.
    + rewrite (same_zone_sym zy zx).
      destruct (PyDatetime.same_zone zx zy).
      * rewrite (Z.compare_antisym (dt_wall x) (dt_wall y)).
        destruct (dt_wall x ?= dt_wall y); simpl; congruence.
      * rewrite (Z.compare_antisym (PyDatetime.to_utc zx (dt_wall x))
                   (PyDatetime.to_utc zy (dt_wall y))).
        destruct (PyDatetime.to_utc zx (dt_wall x)
                  ?= PyDatetime.to_utc zy (dt_wall y)); simpl; congruence.
    + rewrite (Z.compare_antisym (dt_wall x) (dt_wall y)).
      destruct (dt_wall x ?= dt_wall y); simpl; congruence.
Qed.

Lemma neighbours_rev {A : Type} (l : list A) a b :
  neighbours (rev l) a b -> neighbours l b a.
Proof.
  intros (l1 & l2 & H). exists (rev l2), (rev l1).
  rewrite <- (rev_involutive l), H, rev_app_distr. simpl.
  rewrite <- !app_assoc. reflexivity.
Qed.

Lemma neighbours_map {A B : Type} (f : A -> B) (l : list A) b1 b2 :
  neighbours (map f l) b1 b2 ->
  exists a1 a2, neighbours l a1 a2 /\ f a1 = b1 /\ f a2 = b2.
Proof.
  intros (l1 & l2 & H).
  apply map_eq_app in H as (k1 & k2 & -> & <- & H).
  destruct k2 as [|a1 [|a2 k2]]; simpl in H; try discriminate.
  injection H as <- <- <-.
  exists a1, a2. split; [exists k1, k2; reflexivity | split; reflexivity].
Qed.

Lemma Sorted_neighbours {A : Type} (R : A -> A -> Prop) (l : list A) a b :
  Sorted R l -> neighbours l a b -> R a b.
Proof.
  intros Hs (l1 & l2 & ->).
  induction l1 as [|x l1 IH]; simpl in Hs.
  - apply Sorted_inv in Hs as [_ Hhd]. apply HdRel_inv in Hhd. exact Hhd.
  - apply Sorted_inv in Hs as [Hs _]. apply IH, Hs.
Qed.

Lemma insert_keyed_perm x l : Permutation (insert_keyed x l) (x :: l).
Proof.
  induction l as [|y l IH]; simpl; [reflexivity|].
  destruct (key_ltb (fst y) (fst x)); [|reflexivity].
  rewrite IH. apply perm_swap.
Qed.

Lemma stable_sort_perm l : Permutation (stable_sort l) l.
Proof.
  induction l as [|x l IH]; simpl; [reflexivity|].
  rewrite insert_keyed_perm, IH. reflexivity.
Qed.

Lemma insert_keyed_sorted x l :
  Sorted not_after l -> Sorted not_after (insert_keyed x l).
Proof.
  induction l as [|y l IH]; intros Hs; simpl.
  - repeat constructor.
  - destruct (key_ltb (fst y) (fst x)) eqn:E.
    + apply Sorted_inv in Hs as [Hs Hhd].
      constructor; [apply IH, Hs|].
      destruct l as [|z l]; simpl.
      * constructor. apply key_ltb_asym, E.
      * destruct (key_ltb (fst z) (fst x)).
        -- constructor. apply HdRel_inv in Hhd. exact Hhd.
        -- constructor. apply key_ltb_asym, E.
    + constructor; [exact Hs|]. constructor. exact E.
Qed.

Lemma stable_sort_sorted l : Sorted not_after (stable_sort l).
Proof.
  induction l as [|x l IH]; simpl; [constructor|].
  apply insert_keyed_sorted, IH.
Qed.

(** Elements that are pairwise not smaller than each other are not
    reordered. *)
Section Stability.

Variable P : keyed -> bool.

Lemma insert_keyed_filter x l :
  (forall y, In y l -> P y = true -> P x = true ->
             key_ltb (fst y) (fst x) = false) ->
  List.filter P (insert_keyed x l) = List.filter P (x :: l).
Proof.
  induction l as [|y l IH]; intros Hties; [reflexivity|].
  simpl. destruct (key_ltb (fst y) (fst x)) eqn:E; [|reflexivity].
  simpl. rewrite IH by (intros z Hz; apply Hties; right; exact Hz). simpl.
  destruct (P y) eqn:Hy, (P x) eqn:Hx; try reflexivity.
  rewrite (Hties y (or_introl eq_refl) Hy eq_refl) in E. discriminate.
Qed.

Lemma stable_sort_filter l :
  (forall x y, In x l -> In y l -> P x = true -> P y = true ->
               key_ltb (fst x) (fst y) = false) ->
  List.filter P (stable_sort l) = List.filter P l.
Proof.
  induction l as [|x l IH]; intros Hties; [reflexivity|].
  simpl. rewrite insert_keyed_filter.
  - simpl. rewrite IH; [reflexivity|].
    intros a b Ha Hb. apply Hties; right; assumption.
  - intros y Hy. apply Hties; [right | left; reflexivity].
    eapply Permutation_in; [apply stable_sort_perm | exact Hy].
Qed.

End Stability.

(** The pairs that [sorted] works on, in the order in which it leaves
    them. *)
Lemma sorted_keys_perm (reverse : bool) keys :
  Permutation (if reverse then rev (stable_sort (rev keys))
               else stable_sort keys) keys.
Proof.
  destruct reverse.
  - rewrite <- Permutation_rev, stable_sort_perm, <- Permutation_rev.
    reflexivity.
  - apply stable_sort_perm.
Qed.

Lemma sorted_keys_neighbours (reverse : bool) keys a b :
  neighbours (if reverse then rev (stable_sort (rev keys))
              else stable_sort keys) a b ->
  if reverse then key_ltb (fst a) (fst b) = false
  else key_ltb (fst b) (fst a) = false.
Proof.
  destruct reverse; intros H.
  - apply neighbours_rev in H.
    apply (Sorted_neighbours not_after _ b a (stable_sort_sorted _) H).
  - apply (Sorted_neighbours not_after _ a b (stable_sort_sorted _) H).
Qed.

Lemma sorted_keys_filter (P : keyed -> bool) (reverse : bool) keys :
  (forall x y, In x keys -> In y keys -> P x = true -> P y = true ->
               key_ltb (fst x) (fst y) = false) ->
  List.filter P (if reverse then rev (stable_sort (rev keys))
                 else stable_sort keys)
  = List.filter P keys.
Proof.
  intros Hties. destruct reverse.
  - rewrite filter_rev, stable_sort_filter, filter_rev, rev_involutive.
    + reflexivity.
    + intros x y Hx Hy. apply Hties; apply in_rev; assumption.
  - apply stable_sort_filter, Hties.
Qed.

Lemma subscript_Some {V : Type} (d : list (string * V)) k v :
  dict_get d k = Some v -> subscript d k = Ok v.
Proof. intros H. unfold subscript. rewrite H. reflexivity. Qed.

Lemma subscript_None {V : Type} (d : list (string * V)) k :
  dict_get d k = None -> subscript d k = Raise (KeyError_missing k).
Proof. intros H. unfold subscript. rewrite H. reflexivity. Qed.

Lemma sorted_keys records key reverse keys :
  compute_keys key records = Ok keys ->
  sorted records key reverse
  = match keys with
    | [] | [_] => Ok records
    | (k0, _) :: _ =>
        if forallb (fun kr => comparable k0 (fst kr)) keys
        then Ok (map snd (if reverse then rev (stable_sort (rev keys))
                          else stable_sort keys))
        else Raise TypeError
    end.
Proof. intros H. unfold sorted. rewrite H. reflexivity. Qed.

Lemma compute_keys_ok k records :
  (forall r, In r records -> exists v, dict_get r k = Some v) ->
  exists keys,
    compute_keys (fun r => subscript r k) records = Ok keys /\
    map snd keys = records /\
    Forall (fun kr => dict_get (snd kr) k = Some (fst kr)) keys.
Proof.
  induction records as [|r rs IH]; intros Hall.
  - exists []. repeat split. constructor.
  - destruct IH as (keys & Hk & Hsnd & Hget).
    { intros r' Hr'. apply Hall. right. exact Hr'. }
    destruct (Hall r (or_introl eq_refl)) as [v Hv].
    exists ((v, r) :: keys). cbn [compute_keys].
    rewrite (subscript_Some r k v Hv), Hk. simpl. repeat split.
    + rewrite Hsnd. reflexivity.
    + constructor; assumption.
Qed.

Lemma compute_keys_missing k records :
  (exists r, In r records /\ dict_get r k = None) ->
  compute_keys (fun r => subscript r k) records = Raise (KeyError_missing k).
Proof.
  induction records as [|r rs IH]; intros (r' & Hin & Hnone).
  - destruct Hin.
  - cbn [compute_keys].
    destruct (dict_get r k) as [v|] eqn:Hv;
      [rewrite (subscript_Some r k v Hv)
      | rewrite (subscript_None r k Hv); reflexivity].
    rewrite IH; [reflexivity|].
    destruct Hin as [<-|Hin]; [congruence|].
    exists r'. split; assumption.
Qed.

(** What sorting does: when every record has the attribute that the
    normalised [sort_by] names, and the values found there can be compared
    with each other (or there is at most one record),
    [_filter_records] returns a permutation of the records
    that pass the search, in which no record has a smaller key than the
    record before it (a larger one when [ascending] is false), and in which
    records whose keys are pairwise not smaller than each other keep their
    listing order.  When some record lacks the attribute, it raises the
    [KeyError] that lists the keys of the field map. *)
Theorem sort_by_attribute :
  forall records search_str c s ascending field_map filtered,
    let sort_by := String c s in
    let attribute := normalize sort_by in
    search_stage records search_str field_map = Ok filtered ->
    ((forall r, In r filtered -> exists v, dict_get r attribute = Some v) ->
     ((length filtered <= 1)%nat \/
      forall r1 r2 v1 v2, In r1 filtered -> In r2 filtered ->
        dict_get r1 attribute = Some v1 -> dict_get r2 attribute = Some v2 ->
        comparable v1 v2 = true) ->
     exists out,
       _filter_records records 0 search_str (Some sort_by) ascending field_map
       = Ok out /\
       Permutation out filtered /\
       (forall a b ka kb,
          neighbours out a b ->
          dict_get a attribute = Some ka -> dict_get b attribute = Some kb ->
          if ascending then key_ltb kb ka = false
          else key_ltb ka kb = false) /\
       (forall Q : record -> bool,
          (forall r1 r2 v1 v2, Q r1 = true -> Q r2 = true ->
             dict_get r1 attribute = Some v1 ->
             dict_get r2 attribute = Some v2 ->
             key_ltb v1 v2 = false) ->
          List.filter Q out = List.filter Q filtered)) /\
    ((exists r, In r filtered /\ dict_get r attribute = None) ->
     forall limit,
       _filter_records records limit search_str (Some sort_by) ascending
         field_map
       = Raise (KeyError_sort_by sort_by attribute (dict_keys field_map))).
Proof.
  intros records search_str c s ascending field_map filtered sort_by attribute
         Hsearch.
  split.
  - intros Hhas Hcmp.
    destruct (compute_keys_ok attribute filtered Hhas)
      as (keys & Hkeys & Hsnd & Hget).
    set (ordered := if negb ascending then rev (stable_sort (rev keys))
                    else stable_sort keys).
    assert (Hperm : Permutation ordered keys) by apply sorted_keys_perm.
    assert (Hget' : Forall (fun kr => dict_get (snd kr) attribute
                                      = Some (fst kr)) ordered).
    { rewrite List.Forall_forall in Hget |- *. intros kr Hkr.
      apply Hget. eapply Permutation_in; [exact Hperm | exact Hkr]. }
    assert (Hsorted : sorted filtered (fun r => subscript r attribute)
                        (negb ascending) = Ok (map snd ordered)).
    { rewrite (sorted_keys filtered _ (negb ascending) keys Hkeys).
      destruct keys as [|[k0 r0] [|[k1 r1] keys']].
      - rewrite <- Hsnd. unfold ordered. destruct ascending; reflexivity.
      - rewrite <- Hsnd. unfold ordered. destruct ascending; reflexivity.
      - match goal with
        | |- (if ?b then _ else _) = _ => assert (Hall : b = true)
        end.
        { destruct Hcmp as [Hlen|Hcmp];
            [rewrite <- Hsnd in Hlen; simpl in Hlen; lia|].
          apply forallb_forall. intros [k r] Hin.
          rewrite List.Forall_forall in Hget.
          apply (Hcmp r0 r k0 k).
          - rewrite <- Hsnd. left. reflexivity.
          - rewrite <- Hsnd. apply (in_map snd _ _ Hin).
          - apply (Hget (k0, r0)). left. reflexivity.
          - apply (Hget (k, r)), Hin. }
        rewrite Hall. reflexivity. }
    exists (map snd ordered). split; [|split; [|split]].
    + rewrite filter_records_search, Hsearch. simpl.
      unfold _filter_records. simpl. fold sort_by. fold attribute.
      rewrite Hsorted. reflexivity.
    + rewrite <- Hsnd. apply Permutation_map, Hperm.
    + intros a b ka kb Hn Ha Hb.
      apply neighbours_map in Hn as ([ka' a'] & [kb' b'] & Hn & <- & <-).
      rewrite List.Forall_forall in Hget'.
      destruct Hn as (l1 & l2 & Hn).
      assert (Ha' : dict_get a' attribute = Some ka').
      { apply (Hget' (ka', a')). rewrite Hn. apply in_elt. }
      assert (Hb' : dict_get b' attribute = Some kb').
      { apply (Hget' (kb', b')). rewrite Hn.
        apply in_or_app. right. right. left. reflexivity. }
      simpl in Ha, Hb. rewrite Ha' in Ha. rewrite Hb' in Hb.
      injection Ha as <-. injection Hb as <-.
      pose proof (sorted_keys_neighbours (negb ascending) keys
                    (ka', a') (kb', b')) as Hord.
      fold ordered in Hord.
      specialize (Hord (ex_intro _ l1 (ex_intro _ l2 Hn))).
      destruct ascending; exact Hord.
    + intros Q Hties.
      rewrite filter_map_swap. unfold ordered.
      rewrite sorted_keys_filter.
      * rewrite <- filter_map_swap, Hsnd. reflexivity.
      * intros x y Hx Hy HQx HQy.
        rewrite List.Forall_forall in Hget.
        apply (Hties (snd x) (snd y)); try assumption.
        -- apply Hget, Hx.
        -- apply Hget, Hy.
  - intros Hmissing limit.
    rewrite filter_records_search, Hsearch. simpl.
    unfold _filter_records. simpl. fold sort_by. fold attribute.
    unfold sorted. rewrite (compute_keys_missing attribute filtered Hmissing).
    reflexivity.
Qed.

Example sort_by_size_is_stable :
  let a := object_record "a.bin" (VInt (10 * MB)) "2019-12-31T23:00:00-05:00" in
  let b := object_record "b.bin" (VInt (25 * MB)) "2019-12-31T23:00:00-05:00" in
  let c := object_record "c.bin" (VInt (10 * MB)) "2019-12-31T23:00:00-05:00" in
  let S3 := @_S3_SEARCH_FIELDS_MAP reference_externals in
  _filter_records [a; b; c] 0 None (Some "Size ") false S3 = Ok [b; a; c] /\
  _filter_records [a; b; c] 0 None (Some "Size ") true S3 = Ok [a; c; b].
Proof. split; vm_compute; reflexivity. Qed.

(** ** Sorting by a field *)

(** C2 (the code departs from it).  [_filter_records] looks the
    normalised [sort_by] up in the records themselves, not in the field
    map.  The field [name] of the S3 field map, which reads the attribute
    [object_name], is therefore rejected as a sort key, with an exception
    that lists [name] among the supported keys, although a search on the
    same field is accepted; the attribute name [object_name], which is not a
    field, sorts.  On an empty listing no sort key is rejected. *)
Theorem sort_by_field_name_is_rejected :
  let a := object_record "a.bin" (VInt (10 * MB)) "2019-12-31T23:00:00-05:00" in
  let b := object_record "b.bin" (VInt (25 * MB)) "2019-12-31T23:00:00-05:00" in
  let S3 := @_S3_SEARCH_FIELDS_MAP reference_externals in
  name <$> dict_get S3 (normalize "name") = Some "object_name"%string /\
  In "name"%string (dict_keys S3) /\
  _filter_records [a; b] (-1) None (Some "name") false S3
  = Raise (KeyError_sort_by "name" "name"
             ["bucket"; "name"; "size"; "type"; "last_modified"]) /\
  _filter_records [a; b] (-1) (Some "name:b.") None false S3 = Ok [b] /\
  _filter_records [a; b] (-1) None (Some "object_name") false S3 = Ok [b; a] /\
  _filter_records [] (-1) None (Some "colour") false S3 = Ok [].
Proof.
  intros a b S3.
  split; [reflexivity|].
  split; [right; left; reflexivity|].
  split; [vm_compute; reflexivity|].
  split; [vm_compute; reflexivity|].
  split; vm_compute; reflexivity.
Qed.

(** ** The synchronisation plan *)

Lemma syncDir_In d overwrite (L R : gset string) p a :
  In (p, a) (Sync.syncDir d overwrite L R) <->
  p ∈ Sync.source d L R /\
  a = if bool_decide (p ∈ Sync.dest d L R)
      then (if overwrite then Sync.Transfer else Sync.Skip)
      else Sync.Transfer.
Proof.
  unfold Sync.syncDir. rewrite in_map_iff. split.
  - intros (q & E & Hq). injection E as -> <-.
    split; [|reflexivity].
    apply elem_of_elements, list_elem_of_In, Hq.
  - intros [Hp ->]. exists p. split; [reflexivity|].
    apply list_elem_of_In, elem_of_elements, Hp.
Qed.

(** C5.  The plan of [syncDir] holds a [Transfer] for exactly the files of
    the source that the destination lacks, together with the files that
    both sides have when [overwrite] is set; the files that both sides
    have are skipped otherwise; a file that only the destination has does
    not occur in the plan, and no path is planned twice.  With local files
    [a.txt], [b.txt] and remote files [b.txt], [c.txt], an upload
    transfers [a.txt] alone without [overwrite] and [a.txt] and [b.txt]
    with it, and never plans anything for [c.txt]. *)
Theorem sync_plan_transfers :
  (forall d overwrite (L R : gset string) p,
     let plan := Sync.syncDir d overwrite L R in
     let src := Sync.source d L R in
     let dst := Sync.dest d L R in
     (In (p, Sync.Transfer) plan <->
      p ∈ src /\ (p ∉ dst \/ overwrite = true)) /\
     (In (p, Sync.Skip) plan <-> p ∈ src /\ p ∈ dst /\ overwrite = false) /\
     (p ∉ src -> forall a, ~ In (p, a) plan) /\
     NoDup (map fst plan)) /\
  (let L : gset string := {[ "a.txt"; "b.txt" ]}%string in
   let R : gset string := {[ "b.txt"; "c.txt" ]}%string in
   Sync.planned Sync.Transfer (Sync.syncDir Sync.Upload false L R)
   = {[ "a.txt"%string ]} /\
   Sync.planned Sync.Skip (Sync.syncDir Sync.Upload false L R)
   = {[ "b.txt"%string ]} /\
   Sync.planned Sync.Transfer (Sync.syncDir Sync.Upload true L R)
   = {[ "a.txt"; "b.txt" ]}%string /\
   forall overwrite a,
     ~ In ("c.txt"%string, a) (Sync.syncDir Sync.Upload overwrite L R)).
Proof.
  split.
  - intros d overwrite L R p plan src dst. unfold plan.
    split; [|split; [|split]].
    + rewrite syncDir_In. fold src dst.
      destruct (bool_decide (p ∈ dst)) eqn:E.
      * apply bool_decide_eq_true in E.
        destruct overwrite; split; intros [Hp H]; split; try assumption;
          try reflexivity; try discriminate; try (right; reflexivity).
        destruct H as [H|H]; [contradiction | discriminate].
      * apply bool_decide_eq_false in E.
        split; intros [Hp H]; split; try assumption; try reflexivity.
        left. exact E.
    + rewrite syncDir_In. fold src dst.
      destruct (bool_decide (p ∈ dst)) eqn:E.
      * apply bool_decide_eq_true in E.
        destruct overwrite; split.
        -- intros [_ H]. discriminate.
        -- intros (_ & _ & H). discriminate.
        -- intros [Hp _]. repeat split; assumption.
        -- intros (Hp & _ & _). split; [assumption | reflexivity].
      * apply bool_decide_eq_false in E. split.
        -- intros [_ H]. discriminate.
        -- intros (_ & H & _). contradiction.
    + intros Hp a H. apply syncDir_In in H as [Hp' _]. contradiction.
    + unfold Sync.syncDir. rewrite map_map. simpl. rewrite map_id.
      apply NoDup_elements.
  - intros L R.
    split; [vm_compute; reflexivity|].
    split; [vm_compute; reflexivity|].
    split; [vm_compute; reflexivity|].
    intros overwrite a H.
    destruct (proj1 (syncDir_In Sync.Upload overwrite L R "c.txt" a) H)
      as [Hp _].
    unfold Sync.source, L in Hp.
    apply elem_of_union in Hp as [Hp|Hp]; apply elem_of_singleton in Hp;
      discriminate.
Qed.

Lemma sync_plan_transfers_witness :
  let L : gset string := {[ "a.txt"; "b.txt" ]}%string in
  let R : gset string := {[ "b.txt"; "c.txt" ]}%string in
  In ("c.txt"%string, Sync.Transfer) (Sync.syncDir Sync.Download false L R) /\
  In ("b.txt"%string, Sync.Skip) (Sync.syncDir Sync.Download false L R) /\
  ~ In ("a.txt"%string, Sync.Transfer) (Sync.syncDir Sync.Download true L R).
Proof.
  intros L R.
  destruct sync_plan_transfers as [H _].
  destruct (H Sync.Download false L R "c.txt"%string) as (Hc & _ & _ & _).
  destruct (H Sync.Download false L R "b.txt"%string) as (_ & Hb & _ & _).
  destruct (H Sync.Download true L R "a.txt"%string) as (_ & _ & Ha & _).
  assert (Hin : forall x y : string, y ∈ ({[ x; y ]} : gset string)).
  { intros x y. apply elem_of_union. right. apply elem_of_singleton.
    reflexivity. }
  assert (Hin' : forall x y : string, x ∈ ({[ x; y ]} : gset string)).
  { intros x y. apply elem_of_union. left. apply elem_of_singleton.
    reflexivity. }
  assert (Hout : forall x y z : string,
            z <> x -> z <> y -> z ∉ ({[ x; y ]} : gset string)).
  { intros x y z Hx Hy Hz.
    apply elem_of_union in Hz as [Hz|Hz]; apply elem_of_singleton in Hz;
      contradiction. }
  split; [|split].
  - apply (proj2 Hc). split; [apply Hin|].
    left. apply Hout; discriminate.
  - apply (proj2 Hb). split; [apply Hin'|]. split; [apply Hin | reflexivity].
  - apply Ha. apply Hout; discriminate.
Defined.

(* ===================================================================== *)
(** * Part III: further properties of the code *)
(* ===================================================================== *)

(** ** Operators that are not supported *)

Lemma dict_get_operators_None delimiter :
  ~ In delimiter supported_delimiters ->
  dict_get _SEARCH_COMPARISON_OPERATORS delimiter = None.
Proof.
  intros Hnot. unfold supported_delimiters in Hnot. simpl in Hnot. simpl.
  repeat match goal with
         | |- context [String.eqb delimiter ?x] =>
             destruct (String.eqb_spec delimiter x);
               [exfalso; apply Hnot; subst delimiter; tauto|]
         end.
  reflexivity.
Qed.

(** X1.  A clause on a registered field whose operator run is not one of
    [:], [==], [<], [<=], [>], [>=] (a single [=], say, or [<>]) is
    rejected with the [KeyError] that names the search string and the
    run. *)
Theorem unsupported_operator_is_rejected :
  forall field_map key d delimiter value search_str searcher,
    well_formed_key key = true ->
    all_in ":=<>" (String d delimiter) = true ->
    well_formed_value value = true ->
    dict_get field_map (normalize key) = Some searcher ->
    ~ In (String d delimiter) supported_delimiters ->
    parse_clause (key +:+ String d delimiter +:+ value) field_map search_str
    = Raise (KeyError_unsupported_delimiter search_str (String d delimiter)).
Proof.
  intros field_map key d delimiter value search_str searcher Hk Hd Hv Hget Hnot.
  rewrite parse_clause_fields by assumption.
  unfold _make_match_fcn. rewrite Hget.
  destruct (String.eqb_spec (String d delimiter) ":") as [E|_].
  - exfalso. apply Hnot. rewrite E. left. reflexivity.
  - rewrite (dict_get_operators_None _ Hnot). reflexivity.
Qed.

Lemma unsupported_operator_is_rejected_witness :
  parse_clause "size=20MB" (@_S3_SEARCH_FIELDS_MAP reference_externals)
    "size=20MB"
  = Raise (KeyError_unsupported_delimiter "size=20MB" "=").
Proof.
  apply (unsupported_operator_is_rejected
           (@_S3_SEARCH_FIELDS_MAP reference_externals) "size" "="%char ""
           "20MB" "size=20MB" (@BytesSearcher reference_externals "size"));
    try reflexivity.
  unfold supported_delimiters. simpl.
  intros [H|[H|[H|[H|[H|[H|[]]]]]]]; discriminate.
Defined.

(** ** The shape of what a split returns *)

Lemma length_push c chunks :
  chunks <> [] -> length (push c chunks) = length chunks.
Proof. destruct chunks; [congruence | reflexivity]. Qed.

Lemma scan_length_parity chars budget m s :
  Nat.odd (length (re_split_scan chars budget m s))
  = negb (mode_mark m).
Proof.
  revert budget m. induction s as [|c s IH]; intros budget m.
  - destruct m; reflexivity.
  - destruct m as [esc|]; cbn [re_split_scan].
    + destruct (_ && _ && _)%bool.
      * cbn [length]. rewrite Nat.odd_succ, <- Nat.negb_odd.
        rewrite length_push by apply scan_not_nil.
        rewrite IH. reflexivity.
      * rewrite length_push by apply scan_not_nil. rewrite IH. reflexivity.
    + destruct (PyStr.mem c chars).
      * rewrite length_push by apply scan_not_nil. rewrite IH. reflexivity.
      * cbn [length]. rewrite Nat.odd_succ, <- Nat.negb_odd.
        rewrite length_push by apply scan_not_nil.
        rewrite IH. reflexivity.
Qed.

Lemma scan_length_bound chars n m s :
  (length (re_split_scan chars (Some n) m s)
   <= 2 * n + (if mode_mark m then 2 else 1))%nat.
Proof.
  revert n m. induction s as [|c s IH]; intros n m.
  - destruct m; simpl; lia.
  - destruct m as [esc|]; cbn [re_split_scan].
    + destruct (PyStr.mem c chars && negb esc && may_split (Some n))%bool eqn:E.
      * destruct n as [|n]; [rewrite andb_false_r in E; discriminate|].
        cbn [length spend Nat.pred].
        rewrite length_push by apply scan_not_nil.
        specialize (IH n Delim). simpl in IH |- *. lia.
      * rewrite length_push by apply scan_not_nil.
        apply (IH n (Text (PyStr.is_backslash c))).
    + destruct (PyStr.mem c chars).
      * rewrite length_push by apply scan_not_nil. apply (IH n Delim).
      * cbn [length]. rewrite length_push by apply scan_not_nil.
        specialize (IH n (Text (PyStr.is_backslash c))). simpl in IH |- *. lia.
Qed.

(** In mode [Delim] the first chunk continues a delimiter that has at
    least one character already. *)
Lemma scan_delimiters chars budget m s :
  match m, re_split_scan chars budget m s with
  | Text _, chunks => delimiters_ok chars false chunks = true
  | Delim, d :: rest =>
      all_in chars d = true /\ delimiters_ok chars false rest = true
  | Delim, [] => False
  end.
Proof.
  revert budget m. induction s as [|c s IH]; intros budget m.
  - destruct m; simpl; auto.
  - destruct m as [esc|]; cbn [re_split_scan].
    + destruct (PyStr.mem c chars && negb esc && may_split budget)%bool eqn:E.
      * apply andb_prop in E as [E _]. apply andb_prop in E as [Hc _].
        specialize (IH (spend budget) Delim). cbn beta iota in IH.
        destruct (re_split_scan chars (spend budget) Delim s) as [|d rest];
          [contradiction|].
        destruct IH as [Hd Hrest].
        cbn [push delimiters_ok negb String.eqb all_in andb].
        rewrite Hc, Hd, Hrest. reflexivity.
      * specialize (IH budget (Text (PyStr.is_backslash c))).
        cbn beta iota in IH.
        destruct (re_split_scan chars budget (Text (PyStr.is_backslash c)) s)
          as [|t rest]; [reflexivity|].
        exact IH.
    + destruct (PyStr.mem c chars) eqn:Hc.
      * specialize (IH budget Delim). cbn beta iota in IH.
        destruct (re_split_scan chars budget Delim s) as [|d rest];
          [contradiction|].
        destruct IH as [Hd Hrest]. cbn [push all_in].
        rewrite Hc, Hd. split; [reflexivity | exact Hrest].
      * split; [reflexivity|].
        specialize (IH budget (Text (PyStr.is_backslash c))).
        cbn beta iota in IH.
        destruct (re_split_scan chars budget (Text (PyStr.is_backslash c)) s)
          as [|t rest]; [reflexivity|].
        exact IH.
Qed.

(** X2.  What [_split_on_chars] returns with the delimiters kept has an odd
    number of chunks, at most [2 * max_splits + 1] of them under a bound,
    in which every second chunk is a non-empty run of delimiter
    characters.  Bounded to one split, as [_parse_search_str] calls it, the
    result has one chunk or three, so that the unpacking into key,
    delimiter and value cannot fail; [parse_clause] never takes its last
    branch. *)
Theorem split_chunks_alternate :
  (forall chars s max_splits,
     let chunks := _split_on_chars s chars max_splits true in
     Nat.odd (length chunks) = true /\
     delimiters_ok chars false chunks = true /\
     forall n, max_splits = Some (S n) ->
               (length chunks <= 2 * S n + 1)%nat) /\
  (forall s,
     (exists value, _split_on_chars s ":=<>" (Some 1%nat) true = [value]) \/
     (exists key delimiter value,
        _split_on_chars s ":=<>" (Some 1%nat) true = [key; delimiter; value]
        /\ delimiter <> ""%string /\ all_in ":=<>" delimiter = true)) /\
  (forall s field_map search_str,
     parse_clause s field_map search_str <> Raise (ValueError s)).
Proof.
  assert (Hshape : forall s,
    (exists value, _split_on_chars s ":=<>" (Some 1%nat) true = [value]) \/
    (exists key delimiter value,
       _split_on_chars s ":=<>" (Some 1%nat) true = [key; delimiter; value]
       /\ delimiter <> ""%string /\ all_in ":=<>" delimiter = true)).
  { intros s. unfold _split_on_chars, re_split.
    pose proof (scan_length_parity ":=<>" (Some 1%nat) (Text false) s) as Hodd.
    pose proof (scan_length_bound ":=<>" 1 (Text false) s) as Hle.
    pose proof (scan_delimiters ":=<>" (Some 1%nat) (Text false) s) as Hok.
    cbn beta iota in Hok.
    destruct (re_split_scan ":=<>" (Some 1%nat) (Text false) s)
      as [|a [|b [|c [|e rest]]]]; simpl in Hodd, Hle; try discriminate;
      try lia.
    - left. exists a. reflexivity.
    - right. exists a, b, c. split; [reflexivity|].
      simpl in Hok. rewrite andb_true_r in Hok.
      apply andb_prop in Hok as [Hne Hall]. split; [|exact Hall].
      intros ->. discriminate. }
  split; [|split].
  - intros chars s max_splits chunks. unfold chunks, _split_on_chars, re_split.
    split; [apply (scan_length_parity chars _ (Text false))|].
    split; [apply (scan_delimiters chars _ (Text false))|].
    intros n ->. apply (scan_length_bound chars (S n) (Text false)).
  - exact Hshape.
  - intros s field_map search_str. unfold parse_clause.
    destruct (Hshape s) as [[value ->]|(key & delimiter & value & -> & _)].
    + discriminate.
    + unfold _make_match_fcn.
      destruct (dict_get field_map (normalize key)); [|discriminate].
      destruct (String.eqb delimiter ":"); [discriminate|].
      destruct (dict_get _SEARCH_COMPARISON_OPERATORS delimiter); discriminate.
Qed.

(** ** Unescaping *)

(** Induction on strings that steps over one character or two. *)
Lemma string_pair_ind (P : string -> Prop) :
  P EmptyString ->
  (forall c, P (String c EmptyString)) ->
  (forall c d s, P s -> P (String d s) -> P (String c (String d s))) ->
  forall s, P s.
Proof.
  intros H0 H1 H2 s.
  enough (H : P s /\ forall c, P (String c s)) by apply H.
  induction s as [|d s [IHs IHc]].
  - split; [exact H0 | exact H1].
  - split; [apply IHc|]. intros c. apply H2; [exact IHs | apply IHc].
Qed.

(** X3.  [_remove_escapes] returns its argument when there is no escaped
    character in it, and a strictly shorter string otherwise; it never
    returns a longer one. *)
Theorem remove_escapes_shortens :
  forall s chars,
    (String.length (_remove_escapes s chars) <= String.length s)%nat /\
    (has_escape chars s = false -> _remove_escapes s chars = s) /\
    (has_escape chars s = true ->
     (String.length (_remove_escapes s chars) < String.length s)%nat).
Proof.
  intros s chars. induction s as [|c|c d s IHs IHd] using string_pair_ind.
  - repeat split; simpl; [lia | discriminate].
  - repeat split; simpl; [lia | discriminate].
  - change (_remove_escapes (String c (String d s)) chars)
      with (if (PyStr.is_backslash c && PyStr.mem d chars)%bool
            then String d (_remove_escapes s chars)
            else String c (_remove_escapes (String d s) chars)).
    change (has_escape chars (String c (String d s)))
      with ((PyStr.is_backslash c && PyStr.mem d chars)
            || has_escape chars (String d s))%bool.
    destruct IHs as (Hs & _ & _). destruct IHd as (Hd & Hd0 & Hd1).
    destruct (PyStr.is_backslash c && PyStr.mem d chars)%bool.
    + cbn [orb String.length] in *. repeat split; try discriminate; lia.
    + cbn [orb String.length] in *. repeat split.
      * lia.
      * intros H. rewrite (Hd0 H). reflexivity.
      * intros H. specialize (Hd1 H). lia.
Qed.

Lemma remove_escapes_shortens_witness :
  _remove_escapes "a.bin, b" ",:=<>" = "a.bin, b"%string /\
  (String.length (_remove_escapes "a\,b" ",:=<>") < String.length "a\,b")%nat.
Proof.
  destruct (remove_escapes_shortens "a.bin, b" ",:=<>") as (_ & H0 & _).
  destruct (remove_escapes_shortens "a\,b" ",:=<>") as (_ & _ & H1).
  split; [apply H0 | apply H1]; reflexivity.
Defined.

(** ** Normalised field names *)

Lemma lower_char_idem c : PyStr.lower_char (PyStr.lower_char c) = PyStr.lower_char c.
Proof. destruct c as [[] [] [] [] [] [] [] []]; reflexivity. Qed.

Lemma lower_char_space c : PyStr.is_space (PyStr.lower_char c) = PyStr.is_space c.
Proof. destruct c as [[] [] [] [] [] [] [] []]; reflexivity. Qed.

Lemma lower_char_not_upper c : is_upper (PyStr.lower_char c) = false.
Proof. destruct c as [[] [] [] [] [] [] [] []]; reflexivity. Qed.

Lemma is_space_replaced c :
  PyStr.is_space (if Ascii.eqb c " " then "_"%char else c) = false ->
  PyStr.is_space c = false \/ c = " "%char.
Proof. destruct c as [[] [] [] [] [] [] [] []]; simpl; auto. Qed.

Lemma not_space_replaced c :
  PyStr.is_space c = false ->
  (if Ascii.eqb c " " then "_"%char else c) = c.
Proof. destruct c as [[] [] [] [] [] [] [] []]; simpl; auto; discriminate. Qed.

Lemma not_upper_replaced c :
  is_upper c = false ->
  is_upper (if Ascii.eqb c " " then "_"%char else c) = false.
Proof. destruct c as [[] [] [] [] [] [] [] []]; simpl; auto. Qed.

Lemma not_upper_lower_char c : is_upper c = false -> PyStr.lower_char c = c.
Proof. destruct c as [[] [] [] [] [] [] [] []]; simpl; auto; discriminate. Qed.

Lemma lower_no_upper s : has_upper (PyStr.lower s) = false.
Proof.
  induction s as [|c s IH]; [reflexivity|].
  simpl. rewrite lower_char_not_upper, IH. reflexivity.
Qed.

Lemma no_upper_lower s : has_upper s = false -> PyStr.lower s = s.
Proof.
  induction s as [|c s IH]; [reflexivity|].
  simpl. intros H. apply orb_false_elim in H as [Hc Hs].
  rewrite (not_upper_lower_char c Hc), (IH Hs). reflexivity.
Qed.

Lemma lstrip_head_ok s : head_ok (PyStr.lstrip s) = true.
Proof.
  induction s as [|c s IH]; [reflexivity|].
  simpl. destruct (PyStr.is_space c) eqn:E; [exact IH|].
  simpl. rewrite E. reflexivity.
Qed.

Lemma head_ok_lstrip s : head_ok s = true -> PyStr.lstrip s = s.
Proof.
  destruct s as [|c s]; [reflexivity|].
  simpl. intros H. apply negb_true_iff in H. rewrite H. reflexivity.
Qed.

Lemma rstrip_last_ok s : last_ok (PyStr.rstrip s) = true.
Proof.
  induction s as [|c s IH]; [reflexivity|].
  simpl. destruct (PyStr.rstrip s) as [|d t] eqn:E.
  - destruct (PyStr.is_space c) eqn:Hc; [reflexivity|].
    simpl. rewrite Hc. reflexivity.
  - exact IH.
Qed.

Lemma last_ok_rstrip s : last_ok s = true -> PyStr.rstrip s = s.
Proof.
  induction s as [|c s IH]; [reflexivity|].
  intros H. simpl. destruct s as [|d s].
  - simpl in H. apply negb_true_iff in H. simpl. rewrite H. reflexivity.
  - rewrite (IH H). reflexivity.
Qed.

Lemma head_ok_rstrip s : head_ok s = true -> head_ok (PyStr.rstrip s) = true.
Proof.
  destruct s as [|c s]; [reflexivity|].
  simpl. intros H. destruct (PyStr.rstrip s).
  - apply negb_true_iff in H. rewrite H. simpl. rewrite H. reflexivity.
  - exact H.
Qed.

Lemma strip_trimmed s :
  head_ok (PyStr.strip s) = true /\ last_ok (PyStr.strip s) = true.
Proof.
  unfold PyStr.strip. split.
  - apply head_ok_rstrip, lstrip_head_ok.
  - apply rstrip_last_ok.
Qed.

Lemma trimmed_strip s :
  head_ok s = true -> last_ok s = true -> PyStr.strip s = s.
Proof.
  intros Hh Hl. unfold PyStr.strip.
  rewrite (head_ok_lstrip s Hh). apply last_ok_rstrip, Hl.
Qed.

Lemma replace_head_ok s :
  head_ok s = true -> head_ok (PyStr.replace " " "_" s) = true.
Proof.
  destruct s as [|c s]; [reflexivity|].
  simpl. intros H. apply negb_true_iff in H.
  rewrite (not_space_replaced c H), H. reflexivity.
Qed.

Lemma replace_last_ok s :
  last_ok s = true -> last_ok (PyStr.replace " " "_" s) = true.
Proof.
  induction s as [|c s IH]; [reflexivity|].
  intros H. destruct s as [|d s].
  - simpl in *. apply negb_true_iff in H.
    rewrite (not_space_replaced c H), H. reflexivity.
  - specialize (IH H). cbn [PyStr.replace] in IH |- *. exact IH.
Qed.

Lemma replaced_not_space c :
  Ascii.eqb " " (if Ascii.eqb c " " then "_"%char else c) = false.
Proof. destruct c as [[] [] [] [] [] [] [] []]; reflexivity. Qed.

Lemma not_space_kept c :
  Ascii.eqb " " c = false -> (if Ascii.eqb c " " then "_"%char else c) = c.
Proof. destruct c as [[] [] [] [] [] [] [] []]; simpl; auto; discriminate. Qed.

Lemma replace_no_space s : PyStr.mem " " (PyStr.replace " " "_" s) = false.
Proof.
  induction s as [|c s IH]; [reflexivity|].
  cbn [PyStr.replace PyStr.mem]. rewrite IH, replaced_not_space. reflexivity.
Qed.

Lemma no_space_replace s :
  PyStr.mem " " s = false -> PyStr.replace " " "_" s = s.
Proof.
  induction s as [|c s IH]; [reflexivity|].
  cbn [PyStr.replace PyStr.mem]. intros H.
  apply orb_false_elim in H as [Hc Hs].
  rewrite (IH Hs), (not_space_kept c Hc). reflexivity.
Qed.

Lemma replace_no_upper s :
  has_upper s = false -> has_upper (PyStr.replace " " "_" s) = false.
Proof.
  induction s as [|c s IH]; [reflexivity|].
  simpl. intros H. apply orb_false_elim in H as [Hc Hs].
  rewrite (not_upper_replaced c Hc), (IH Hs). reflexivity.
Qed.

Lemma lstrip_no_upper s : has_upper s = false -> has_upper (PyStr.lstrip s) = false.
Proof.
  induction s as [|c s IH]; [reflexivity|].
  simpl. intros H. destruct (PyStr.is_space c); [|exact H].
  apply orb_false_elim in H as [_ Hs]. apply IH, Hs.
Qed.

Lemma rstrip_no_upper s : has_upper s = false -> has_upper (PyStr.rstrip s) = false.
Proof.
  induction s as [|c s IH]; [reflexivity|].
  simpl. intros H. apply orb_false_elim in H as [Hc Hs].
  specialize (IH Hs). destruct (PyStr.rstrip s).
  - destruct (PyStr.is_space c); simpl; [reflexivity|].
    rewrite Hc. reflexivity.
  - simpl in *. rewrite Hc. exact IH.
Qed.

(** X4.  The normalised form of a field name has no upper-case letter, no
    space, and no white space at either end (the no-break space and the
    next-line character included), and normalising it again changes
    nothing: a name that is already in that form is looked up as it
    is. *)
Theorem normalize_is_idempotent :
  forall key,
    has_upper (normalize key) = false /\
    PyStr.mem " " (normalize key) = false /\
    head_ok (normalize key) = true /\
    last_ok (normalize key) = true /\
    normalize (normalize key) = normalize key.
Proof.
  intros key.
  assert (Hu : has_upper (normalize key) = false).
  { unfold normalize, PyStr.strip.
    apply replace_no_upper, rstrip_no_upper, lstrip_no_upper, lower_no_upper. }
  assert (Hs : PyStr.mem " " (normalize key) = false)
    by apply replace_no_space.
  destruct (strip_trimmed (PyStr.lower key)) as [Hh Hl].
  assert (Hh' : head_ok (normalize key) = true) by apply replace_head_ok, Hh.
  assert (Hl' : last_ok (normalize key) = true) by apply replace_last_ok, Hl.
  repeat split; try assumption.
  unfold normalize at 1.
  rewrite (no_upper_lower _ Hu), (trimmed_strip _ Hh' Hl').
  apply no_space_replace, Hs.
Qed.

Example normalize_examples :
  normalize "Last Modified" = "last_modified"%string /\
  normalize "  last_modified " = "last_modified"%string /\
  normalize " _name" = "_name"%string.
Proof. repeat split. Qed.

(** Beyond ASCII: a no-break space (U+00A0) after the name is stripped,
    and the capital E with acute accent (U+00C9) is lower-cased to
    U+00E9. *)
Example normalize_beyond_ascii :
  normalize ("size" +:+ String (Ascii.ascii_of_nat 160) EmptyString)
  = "size"%string /\
  normalize (String (Ascii.ascii_of_nat 201) "TAT")
  = String (Ascii.ascii_of_nat 233) "tat".
Proof. split; reflexivity. Qed.

(** ** What the pipeline returns is taken from its input *)

Lemma filter_complement {A : Type} (P : A -> bool) (l : list A) :
  Permutation (List.filter P l ++ List.filter (fun x => negb (P x)) l) l.
Proof.
  induction l as [|x l IH]; [reflexivity|].
  simpl. destruct (P x); simpl.
  - constructor. exact IH.
  - rewrite <- Permutation_middle. constructor. exact IH.
Qed.

Lemma search_stage_filter records search_str field_map filtered :
  search_stage records search_str field_map = Ok filtered ->
  exists P, filtered = List.filter P records.
Proof.
  unfold search_stage. intros H.
  destruct search_str as [[|c s]|].
  - injection H as <-. exists (fun _ => true). symmetry. apply filter_all.
  - destruct (search_loop_ok _ _ _ H) as (preds & _ & ->). eauto.
  - injection H as <-. exists (fun _ => true). symmetry. apply filter_all.
Qed.

Lemma compute_keys_snd key records : forall keys,
  compute_keys key records = Ok keys -> map snd keys = records.
Proof.
  induction records as [|r rs IH]; intros keys H; simpl in H.
  - injection H as <-. reflexivity.
  - destruct (key r) as [k|e]; [|discriminate]. simpl in H.
    destruct (compute_keys key rs) as [ks|e]; [|discriminate]. simpl in H.
    injection H as <-. simpl. rewrite (IH ks eq_refl). reflexivity.
Qed.

(** The built-in sort returns a rearrangement of its argument. *)
Lemma sorted_permutation records key reverse out :
  sorted records key reverse = Ok out -> Permutation out records.
Proof.
  intros H.
  destruct (compute_keys key records) as [keys|e] eqn:Hk;
    [|unfold sorted in H; rewrite Hk in H; discriminate].
  rewrite (sorted_keys _ _ _ _ Hk) in H.
  pose proof (compute_keys_snd _ _ _ Hk) as Hsnd.
  destruct keys as [|[k0 r0] [|[k1 r1] keys]].
  - injection H as <-. reflexivity.
  - injection H as <-. reflexivity.
  - destruct (forallb _ _); [|discriminate].
    injection H as <-. rewrite <- Hsnd.
    apply Permutation_map.
    exact (sorted_keys_perm reverse ((k0, r0) :: (k1, r1) :: keys)).
Qed.

Lemma order_stage_permutation filtered limit sort_by ascending field_map out :
  _filter_records filtered limit None sort_by ascending field_map = Ok out ->
  exists ordered,
    Permutation ordered filtered /\
    out = if 0 <? limit then take (Z.to_nat limit) ordered else ordered.
Proof.
  unfold _filter_records. simpl. intros H.
  destruct sort_by as [[|c s]|].
  - exists (if negb ascending then rev filtered else filtered).
    split; [destruct ascending; simpl; [reflexivity|]|].
    + symmetry. apply Permutation_rev.
    + destruct ascending; simpl in H; injection H as <-; reflexivity.
  - destruct (sorted filtered _ (negb ascending)) as [ordered|e] eqn:Hs.
    + exists ordered. split; [eapply sorted_permutation, Hs|].
      simpl in H. injection H as <-. reflexivity.
    + destruct (is_KeyError e); discriminate.
  - exists (if negb ascending then rev filtered else filtered).
    split; [destruct ascending; simpl; [reflexivity|]|].
    + symmetry. apply Permutation_rev.
    + destruct ascending; simpl in H; injection H as <-; reflexivity.
Qed.

(** X5.  Whatever its arguments, [_filter_records] returns records of its input,
    each at most as often as the input has it: the result together with
    some remainder is a rearrangement of the input.  So it is never longer
    than the input, and with a positive limit never longer than the
    limit. *)
Theorem filter_records_selects_from_input :
  forall records limit search_str sort_by ascending field_map out,
    _filter_records records limit search_str sort_by ascending field_map
    = Ok out ->
    (exists rest, Permutation (out ++ rest) records) /\
    (forall r, In r out -> In r records) /\
    (length out <= length records)%nat /\
    (0 < limit -> Z.of_nat (length out) <= limit).
Proof.
  intros records limit search_str sort_by ascending field_map out H.
  rewrite filter_records_search in H.
  destruct (search_stage records search_str field_map) as [filtered|e] eqn:Hs;
    [|discriminate].
  simpl in H.
  destruct (search_stage_filter _ _ _ _ Hs) as [P ->].
  destruct (order_stage_permutation _ _ _ _ _ _ H) as (ordered & Hperm & Hout).
  assert (Hrest : exists rest, Permutation (out ++ rest) records).
  { exists ((if 0 <? limit then drop (Z.to_nat limit) ordered else [])
            ++ List.filter (fun r => negb (P r)) records).
    rewrite app_assoc.
    etransitivity; [|apply (filter_complement P records)].
    apply Permutation_app_tail. rewrite <- Hperm, Hout.
    destruct (0 <? limit).
    - rewrite take_drop. reflexivity.
    - rewrite app_nil_r. reflexivity. }
  destruct Hrest as [rest Hrest].
  split; [exists rest; exact Hrest|]. split; [|split].
  - intros r Hr. eapply Permutation_in; [exact Hrest|].
    apply in_or_app. left. exact Hr.
  - rewrite <- (Permutation_length Hrest), length_app. lia.
  - intros Hl. apply Z.ltb_lt in Hl. rewrite Hl in Hout. rewrite Hout.
    rewrite length_take. lia.
Qed.

Lemma filter_records_selects_from_input_witness :
  let a := object_record "a.bin" (VInt (10 * MB)) "2019-12-31T23:00:00-05:00" in
  let b := object_record "b.bin" (VInt (25 * MB)) "2019-12-31T23:00:00-05:00" in
  let c := object_record "c.txt" (VInt (5 * MB)) "2019-12-31T23:00:00-05:00" in
  exists rest, Permutation ([b] ++ rest) [a; b; c].
Proof.
  intros a b c.
  apply (filter_records_selects_from_input [a; b; c] 1 (Some "bin")
           (Some "size") false (@_S3_SEARCH_FIELDS_MAP reference_externals) [b]).
  vm_compute. reflexivity.
Defined.

(** ** Clauses joined by commas *)

Lemma scan_delimiter_run chars budget delimiter rest :
  all_in chars delimiter = true ->
  starts_in chars rest = false ->
  re_split_scan chars budget Delim (delimiter +:+ rest)
  = delimiter :: re_split_scan chars budget (Text false) rest.
Proof.
  intros Hd Hr. induction delimiter as [|d delimiter IH]; simpl in *.
  - destruct rest as [|c rest]; [reflexivity|].
    simpl in *. rewrite Hr. reflexivity.
  - apply andb_prop in Hd as [Hd1 Hd2].
    rewrite Hd1, IH by assumption. reflexivity.
Qed.

Lemma scan_text_then_delimiter chars budget esc text d delimiter rest :
  forallb negb (unescaped_positions chars esc text) = true ->
  last_is_backslash esc text = false ->
  may_split budget = true ->
  all_in chars (String d delimiter) = true ->
  starts_in chars rest = false ->
  re_split_scan chars budget (Text esc) (text +:+ String d delimiter +:+ rest)
  = text :: String d delimiter
    :: re_split_scan chars (spend budget) (Text false) rest.
Proof.
  revert esc. induction text as [|a text IH]; intros esc Ht Hlast Hb Hd Hr.
  - cbn [all_in] in Hd. apply andb_prop in Hd as [Hd1 Hd2].
    simpl in Hlast. subst esc.
    change (EmptyString +:+ ?x) with x.
    change (String d delimiter +:+ rest) with (String d (delimiter +:+ rest)).
    cbn [re_split_scan]. rewrite Hd1, Hb. cbn [negb andb].
    rewrite scan_delimiter_run by assumption. reflexivity.
  - simpl in Ht. apply andb_prop in Ht as [Ha Ht].
    apply negb_true_iff in Ha.
    change (String a text +:+ ?x) with (String a (text +:+ x)).
    cbn [re_split_scan]. rewrite Ha. cbn [andb].
    rewrite IH; try assumption. reflexivity.
Qed.

Lemma comma_free_Forall s :
  comma_free s = true ->
  Forall (fun b => b = false) (unescaped_positions "," false s).
Proof.
  unfold comma_free. intros H. apply List.Forall_forall. intros b Hb.
  rewrite forallb_forall in H. specialize (H b Hb).
  destruct b; [discriminate | reflexivity].
Qed.

Lemma comma_free_starts s : comma_free s = true -> starts_in "," s = false.
Proof.
  destruct s as [|c s]; [reflexivity|].
  unfold comma_free. simpl. intros H. apply andb_prop in H as [H _].
  rewrite andb_true_r in H. apply negb_true_iff in H. exact H.
Qed.

Lemma join_with_starts sep c cs :
  c <> EmptyString ->
  starts_in "," (join_with sep (c :: cs)) = starts_in "," c.
Proof.
  intros Hc. destruct c as [|a c]; [congruence|].
  destruct cs; reflexivity.
Qed.

(** Splitting on commas undoes joining with commas. *)
Lemma split_join_commas cs :
  Forall (fun c => clause_ok c = true) cs ->
  cs <> [] ->
  _split_on_chars (join_with "," cs) "," None false = cs.
Proof.
  unfold _split_on_chars, re_split.
  induction 1 as [|c cs Hc Hcs IH]; intros Hne; [congruence|].
  unfold clause_ok in Hc.
  apply andb_prop in Hc as [Hc Hbs]. apply andb_prop in Hc as [Hnonempty Hfree].
  apply negb_true_iff in Hbs.
  destruct cs as [|c' cs].
  - simpl. rewrite scan_all_escaped by apply comma_free_Forall, Hfree.
    reflexivity.
  - change (join_with "," (c :: c' :: cs))
      with (c +:+ "," +:+ join_with "," (c' :: cs)).
    rewrite scan_text_then_delimiter.
    + cbn [every_other spend]. f_equal. apply IH. discriminate.
    + exact Hfree.
    + destruct c; [reflexivity | exact Hbs].
    + reflexivity.
    + reflexivity.
    + inversion Hcs as [|? ? Hc' _]; subst.
      unfold clause_ok in Hc'.
      apply andb_prop in Hc' as [Hc' _]. apply andb_prop in Hc' as [Hn' Hf'].
      rewrite join_with_starts.
      * apply comma_free_starts, Hf'.
      * intros ->. discriminate.
Qed.

(** The predicate made for a clause does not depend on the search string
    that the clause is part of; only the exceptions mention it. *)
Lemma parse_clause_independent c field_map search_str search_str' p :
  parse_clause c field_map search_str = Ok p ->
  parse_clause c field_map search_str' = Ok p.
Proof.
  unfold parse_clause.
  destruct (_split_on_chars c ":=<>" (Some 1%nat) true)
    as [|a [|b [|d [|e rest]]]]; try discriminate; [auto|].
  unfold _make_match_fcn.
  destruct (dict_get field_map (normalize a)); [|discriminate].
  destruct (String.eqb b ":"); [auto|].
  destruct (dict_get _SEARCH_COMPARISON_OPERATORS b); [auto | discriminate].
Qed.

Lemma join_with_not_empty sep c cs :
  c <> EmptyString -> join_with sep (c :: cs) <> EmptyString.
Proof.
  intros Hc. destruct c as [|a c]; [congruence|].
  destruct cs; discriminate.
Qed.

Lemma search_stage_joined records cs field_map :
  Forall (fun c => clause_ok c = true) cs ->
  cs <> [] ->
  search_stage records (Some (join_with "," cs)) field_map
  = search_loop
      (map (fun c => parse_clause c field_map (join_with "," cs)) cs) records.
Proof.
  intros Hok Hne. unfold search_stage.
  destruct (join_with "," cs) as [|a s] eqn:E.
  - exfalso. destruct cs as [|c cs]; [congruence|].
    inversion Hok as [|? ? Hc _]; subst.
    apply (join_with_not_empty "," c cs); [|exact E].
    intros ->. discriminate.
  - unfold _parse_search_str. rewrite <- E.
    rewrite (split_join_commas cs Hok Hne). reflexivity.
Qed.

Lemma forallb_clauses field_map search_str (r : record) cs preds :
  Forall2 (fun c p => parse_clause c field_map search_str = Ok p) cs preds ->
  forallb (fun p => holds p r) preds
  = forallb (fun c => clause_holds field_map c r) cs.
Proof.
  induction 1 as [|c p cs preds Hp _ IH]; [reflexivity|].
  cbn [forallb]. rewrite IH. f_equal. unfold clause_holds.
  rewrite (parse_clause_independent _ _ _ c _ Hp). reflexivity.
Qed.

(** The records that a search of several clauses returns, when it returns:
    those of which every clause holds, in listing order. *)
Lemma search_joined_ok records cs field_map out :
  Forall (fun c => clause_ok c = true) cs ->
  cs <> [] ->
  search_stage records (Some (join_with "," cs)) field_map = Ok out ->
  out = List.filter
          (fun r => forallb (fun c => clause_holds field_map c r) cs) records.
Proof.
  intros Hok Hne H. rewrite (search_stage_joined _ _ _ Hok Hne) in H.
  destruct (search_loop_ok _ _ _ H) as (preds & Hsteps & ->).
  apply List.filter_ext. intros r.
  apply (forallb_clauses field_map (join_with "," cs)).
  apply map_eq_Ok, Hsteps.
Qed.

Lemma filter_twice {A : Type} (p q : A -> bool) (l : list A) :
  List.filter q (List.filter p l) = List.filter (fun x => p x && q x) l.
Proof.
  induction l as [|x l IH]; [reflexivity|].
  simpl. destruct (p x); simpl; rewrite IH; reflexivity.
Qed.

Lemma forallb_permutation {A : Type} (f : A -> bool) l l' :
  Permutation l l' -> forallb f l = forallb f l'.
Proof.
  induction 1 as [|x l l' _ IH|x y l|l l' l'' _ IH1 _ IH2]; simpl.
  - reflexivity.
  - rewrite IH. reflexivity.
  - destruct (f x), (f y); reflexivity.
  - congruence.
Qed.

(** X6.  The order in which the clauses of a search are written does not
    matter for what is found: two searches with the same clauses in
    different orders, when both return, return the same records in the
    same order. *)
Theorem clause_order_is_irrelevant :
  forall records cs cs' field_map out out',
    Forall (fun c => clause_ok c = true) cs ->
    cs <> [] ->
    Permutation cs cs' ->
    search_stage records (Some (join_with "," cs)) field_map = Ok out ->
    search_stage records (Some (join_with "," cs')) field_map = Ok out' ->
    out = out'.
Proof.
  intros records cs cs' field_map out out' Hok Hne Hperm H H'.
  assert (Hok' : Forall (fun c => clause_ok c = true) cs').
  { rewrite List.Forall_forall in Hok |- *. intros c Hc. apply Hok.
    eapply Permutation_in; [symmetry; exact Hperm | exact Hc]. }
  assert (Hne' : cs' <> []).
  { intros ->. symmetry in Hperm. apply Permutation_nil in Hperm.
    contradiction. }
  rewrite (search_joined_ok _ _ _ _ Hok Hne H),
          (search_joined_ok _ _ _ _ Hok' Hne' H').
  apply List.filter_ext. intros r. apply forallb_permutation, Hperm.
Qed.

Lemma clause_order_is_irrelevant_witness :
  let a := object_record "a.bin" (VInt (10 * MB)) "2019-12-31T23:00:00-05:00" in
  let b := object_record "b.bin" (VInt (25 * MB)) "2019-12-31T23:00:00-05:00" in
  let S3 := @_S3_SEARCH_FIELDS_MAP reference_externals in
  search_stage [a; b] (Some "size<20MB,bin") S3 = Ok [a] /\
  search_stage [a; b] (Some "bin,size<20MB") S3 = Ok [a] /\
  [a] = [a].
Proof.
  intros a b S3.
  assert (H : search_stage [a; b] (Some "size<20MB,bin") S3 = Ok [a])
    by (vm_compute; reflexivity).
  assert (H' : search_stage [a; b] (Some "bin,size<20MB") S3 = Ok [a])
    by (vm_compute; reflexivity).
  split; [exact H|]. split; [exact H'|].
  apply (clause_order_is_irrelevant [a; b] ["size<20MB"; "bin"]
           ["bin"; "size<20MB"] S3 [a] [a]).
  - repeat constructor.
  - discriminate.
  - apply perm_swap.
  - exact H.
  - exact H'.
Defined.

(** X7.  Writing one more clause at the end of a search filters what the search
    without it finds: if the longer search returns, so does the shorter
    one, and the longer one returns those of its records of which the new
    clause holds. *)
Theorem extra_clause_narrows_the_search :
  forall records cs c field_map out',
    Forall (fun c => clause_ok c = true) cs ->
    cs <> [] ->
    clause_ok c = true ->
    search_stage records (Some (join_with "," (cs ++ [c]))) field_map
    = Ok out' ->
    exists out,
      search_stage records (Some (join_with "," cs)) field_map = Ok out /\
      out' = List.filter (clause_holds field_map c) out /\
      forall r, In r out' -> In r out.
Proof.
  intros records cs c field_map out' Hok Hne Hc H'.
  assert (Hok' : Forall (fun c => clause_ok c = true) (cs ++ [c])).
  { apply Forall_app. split; [exact Hok | repeat constructor; exact Hc]. }
  assert (Hne' : cs ++ [c] <> []) by (destruct cs; discriminate).
  pose proof (search_joined_ok _ _ _ _ Hok' Hne' H') as Hout'.
  rewrite (search_stage_joined _ _ _ Hok' Hne'), map_app, search_loop_app in H'.
  destruct (search_loop _ records) as [mid|e] eqn:Hmid; [|discriminate].
  destruct (search_loop_ok _ _ _ Hmid) as (preds & Hsteps & Hmid').
  assert (Hout : search_stage records (Some (join_with "," cs)) field_map
                 = Ok mid).
  { rewrite (search_stage_joined _ _ _ Hok Hne).
    rewrite Hsteps in Hmid.
    assert (Hsteps' : map (fun c0 => parse_clause c0 field_map
                                       (join_with "," cs)) cs
                      = map Ok preds).
    { apply Forall2_map_Ok. apply map_eq_Ok in Hsteps.
      eapply Forall2_impl; [exact Hsteps|].
      intros x p Hp. simpl in Hp. eapply parse_clause_independent, Hp. }
    rewrite Hsteps'. exact Hmid. }
  exists mid. split; [exact Hout|].
  assert (E : out' = List.filter (clause_holds field_map c) mid).
  { rewrite Hout', (search_joined_ok _ _ _ _ Hok Hne Hout).
    rewrite filter_twice. apply List.filter_ext. intros r.
    rewrite forallb_app. simpl. rewrite andb_true_r. reflexivity. }
  split; [exact E|].
  intros r Hr. rewrite E in Hr. apply filter_In in Hr. tauto.
Qed.

Lemma extra_clause_narrows_the_search_witness :
  let a := object_record "a.bin" (VInt (10 * MB)) "2019-12-31T23:00:00-05:00" in
  let b := object_record "b.bin" (VInt (25 * MB)) "2019-12-31T23:00:00-05:00" in
  let S3 := @_S3_SEARCH_FIELDS_MAP reference_externals in
  exists out,
    search_stage [a; b] (Some (join_with "," ["bin"])) S3 = Ok out /\
    [a] = List.filter (clause_holds S3 "size<20MB") out /\
    forall r, In r [a] -> In r out.
Proof.
  intros a b S3.
  apply (extra_clause_narrows_the_search [a; b] ["bin"] "size<20MB" S3 [a]).
  - repeat constructor.
  - discriminate.
  - reflexivity.
  - vm_compute. reflexivity.
Defined.

(** X8.  Splitting a search string on commas gives back the clauses that were
    joined with commas, provided that no clause is empty, holds an
    unescaped comma or ends in a backslash. *)
Theorem comma_split_inverts_join :
  forall cs,
    Forall (fun c => clause_ok c = true) cs ->
    cs <> [] ->
    _split_on_chars (join_with "," cs) "," None false = cs /\
    forall field_map,
      _parse_search_str (join_with "," cs) field_map
      = map (fun c => parse_clause c field_map (join_with "," cs)) cs.
Proof.
  intros cs Hok Hne. split; [apply split_join_commas; assumption|].
  intros field_map. unfold _parse_search_str.
  rewrite split_join_commas by assumption. reflexivity.
Qed.

Lemma comma_split_inverts_join_witness :
  _split_on_chars (join_with "," ["name:a\,b"; " size<20MB"; "bin"]) "," None false
  = ["name:a\,b"; " size<20MB"; "bin"].
Proof.
  apply (comma_split_inverts_join ["name:a\,b"; " size<20MB"; "bin"]).
  - repeat constructor.
  - discriminate.
Defined.

(** ** An empty listing *)

Lemma search_loop_nil steps :
  Forall (fun step => is_ok step = true) steps ->
  search_loop steps [] = Ok [].
Proof.
  induction 1 as [|step steps Hstep _ IH]; [reflexivity|].
  simpl. destruct step as [f|e]; [|discriminate]. simpl. exact IH.
Qed.

Lemma parse_clause_on_field key delimiter value field_map search_str searcher :
  well_formed_key key = true ->
  well_formed_value value = true ->
  In delimiter supported_delimiters ->
  dict_get field_map (normalize key) = Some searcher ->
  exists test,
    parse_clause (key +:+ delimiter +:+ value) field_map search_str
    = Ok (on_field searcher test).
Proof.
  intros Hk Hv Hin Hget.
  unfold supported_delimiters in Hin. simpl in Hin.
  destruct Hin as [<-|[<-|[<-|[<-|[<-|[<-|[]]]]]]];
    rewrite parse_clause_fields by (assumption || reflexivity).
  - eexists. apply make_match_fcn_contains, Hget.
  - eexists. apply make_match_fcn_compare; [exact Hget | simpl; tauto].
  - eexists. apply make_match_fcn_compare; [exact Hget | simpl; tauto].
  - eexists. apply make_match_fcn_compare; [exact Hget | simpl; tauto].
  - eexists. apply make_match_fcn_compare; [exact Hget | simpl; tauto].
  - eexists. apply make_match_fcn_compare; [exact Hget | simpl; tauto].
Qed.

(** X9.  On an empty listing nothing but the field names and the operators of
    the search is checked: when every clause is accepted (which, for a
    clause on a registered field with a supported operator, does not
    depend on its value), [_filter_records] returns the empty list,
    whatever the values of the clauses and whatever [sort_by] is. *)
Theorem empty_listing_is_not_validated :
  (forall limit search_str sort_by ascending field_map,
     Forall (fun step => is_ok step = true)
       (_parse_search_str search_str field_map) ->
     _filter_records [] limit (Some search_str) sort_by ascending field_map
     = Ok []) /\
  (forall limit sort_by ascending field_map,
     _filter_records [] limit None sort_by ascending field_map = Ok []) /\
  (forall key delimiter value field_map search_str searcher,
     well_formed_key key = true ->
     well_formed_value value = true ->
     In delimiter supported_delimiters ->
     dict_get field_map (normalize key) = Some searcher ->
     is_ok (parse_clause (key +:+ delimiter +:+ value) field_map search_str)
     = true).
Proof.
  assert (Hnone : forall limit sort_by ascending field_map,
            _filter_records [] limit None sort_by ascending field_map = Ok []).
  { intros limit sort_by ascending field_map. unfold _filter_records. simpl.
    destruct sort_by as [[|c s]|]; simpl;
      destruct ascending; simpl; destruct (0 <? limit);
      rewrite ?take_nil; reflexivity. }
  split; [|split].
  - intros limit search_str sort_by ascending field_map Hsteps.
    rewrite filter_records_search.
    assert (Hs : search_stage [] (Some search_str) field_map = Ok []).
    { unfold search_stage. destruct search_str; [reflexivity|].
      apply search_loop_nil, Hsteps. }
    rewrite Hs. apply Hnone.
  - exact Hnone.
  - intros key delimiter value field_map search_str searcher Hk Hv Hin Hget.
    destruct (parse_clause_on_field key delimiter value field_map search_str
                searcher Hk Hv Hin Hget) as [test ->].
    reflexivity.
Qed.

Lemma empty_listing_is_not_validated_witness :
  let S3 := @_S3_SEARCH_FIELDS_MAP reference_externals in
  let a := object_record "a.bin" (VInt (10 * MB)) "2019-12-31T23:00:00-05:00" in
  _filter_records [] 0 (Some "size<a lot,last modified>=soon") (Some "colour")
    false S3 = Ok [] /\
  _filter_records [a] 0 (Some "size<a lot,last modified>=soon") (Some "colour")
    false S3 = Raise (ValueError "a lot") /\
  is_ok (parse_clause ("size" +:+ "<" +:+ "a lot") S3 "size<a lot") = true.
Proof.
  intros S3 a.
  destruct empty_listing_is_not_validated as (H1 & _ & H3).
  split; [|split].
  - apply H1. repeat constructor.
  - vm_compute. reflexivity.
  - apply (H3 "size" "<" "a lot" S3 "size<a lot"
              (@BytesSearcher reference_externals "size")); try reflexivity.
    right. right. left. reflexivity.
Defined.

(** ** Records that lack an attribute *)

Lemma filter_by_first_raises f (r : record) rs e :
  f r = Raise e -> filter_by f (r :: rs) = Raise e.
Proof. intros H. simpl. rewrite H. reflexivity. Qed.

Lemma single_clause_search records c s field_map :
  comma_free (String c s) = true ->
  search_stage records (Some (String c s)) field_map
  = (f ← parse_clause (String c s) field_map (String c s);
     filter_by f records).
Proof.
  intros Hfree. unfold search_stage, _parse_search_str, _split_on_chars, re_split.
  rewrite scan_all_escaped by apply comma_free_Forall, Hfree.
  simpl. destruct (parse_clause _ _ _) as [f|e]; [|reflexivity].
  simpl. destruct (filter_by f records); reflexivity.
Qed.

(** X10.  A clause on a field reads the attribute that the field's searcher
    names with a plain subscript: on a listing whose first record lacks
    that attribute, the search raises the [KeyError] of the subscript,
    which names the attribute and not the field. *)
Theorem field_clause_needs_the_attribute :
  forall (r : record) rs limit sort_by ascending
         key delimiter value field_map searcher,
    well_formed_key key = true ->
    well_formed_value value = true ->
    In delimiter supported_delimiters ->
    comma_free (key +:+ delimiter +:+ value) = true ->
    dict_get field_map (normalize key) = Some searcher ->
    dict_get r (name searcher) = None ->
    _filter_records (r :: rs) limit (Some (key +:+ delimiter +:+ value))
      sort_by ascending field_map
    = Raise (KeyError_missing (name searcher)).
Proof.
  intros r rs limit sort_by ascending key delimiter value field_map searcher
         Hk Hv Hin Hfree Hget Hr.
  apply filter_records_raise.
  destruct (key +:+ delimiter +:+ value) as [|c s] eqn:E.
  - exfalso. unfold supported_delimiters in Hin. simpl in Hin.
    destruct key; [|discriminate]. simpl in E.
    destruct Hin as [<-|[<-|[<-|[<-|[<-|[<-|[]]]]]]]; discriminate.
  - rewrite single_clause_search by exact Hfree. rewrite <- E.
    destruct (parse_clause_on_field key delimiter value field_map
                (key +:+ delimiter +:+ value) searcher Hk Hv Hin Hget)
      as [test ->].
    cbn [mbind result_bind]. apply filter_by_first_raises.
    unfold on_field. rewrite (subscript_None r (name searcher) Hr).
    reflexivity.
Qed.

Lemma field_clause_needs_the_attribute_witness :
  let drive_file : record :=
    [ ("id", VStr "1x"); ("name", VStr "a.bin"); ("size", VInt 5);
      ("mime_type", VStr "text/plain");
      ("last_modified", VStr "2019-12-31T23:00:00-05:00") ] in
  _filter_records [drive_file] (-1) (Some ("name" +:+ ":" +:+ "a")) None false
    (@_S3_SEARCH_FIELDS_MAP reference_externals)
  = Raise (KeyError_missing "object_name").
Proof.
  intros drive_file.
  apply (field_clause_needs_the_attribute drive_file [] (-1) None false
           "name" ":" "a" (@_S3_SEARCH_FIELDS_MAP reference_externals)
           (@StringSearcher reference_externals "object_name"));
    try reflexivity.
  left. reflexivity.
Defined.

Lemma searcher_map_from_field_map (l : list Searcher) :
  forall (m0 : gmap string Searcher) n s,
    foldl (fun m s => <[name s := s]> m) m0 l !! n = Some s ->
    (In s l /\ name s = n) \/ m0 !! n = Some s.
Proof.
  induction l as [|x l IH]; intros m0 n s H; simpl in H; [right; exact H|].
  destruct (IH _ _ _ H) as [[Hin Hn]|Hm].
  - left. split; [right; exact Hin | exact Hn].
  - destruct (decide (name x = n)) as [E|NE].
    + rewrite <- E, lookup_insert_eq in Hm. injection Hm as <-.
      left. split; [left; reflexivity | exact E].
    + rewrite lookup_insert_ne in Hm by exact NE. right. exact Hm.
Qed.

Lemma any_match_loop_unregistered sm value (r : record) names :
  (forall n, In n names -> sm !! n = None) ->
  any_match_loop sm value r names = Ok false.
Proof.
  induction names as [|n names IH]; intros H; [reflexivity|].
  simpl. rewrite (H n (or_introl eq_refl)).
  apply IH. intros n' Hn'. apply H. right. exact Hn'.
Qed.

(** X11.  A bare literal is looked for in the attributes that some field of the
    field map reads, and nowhere else: of a record that has none of these
    attributes (the empty record, say) it does not hold, whatever the
    literal is, and no exception is raised. *)
Theorem bare_literal_needs_a_registered_attribute :
  forall value field_map (r : record),
    (forall key s, In (key, s) field_map -> ~ In (name s) (dict_keys r)) ->
    _make_any_match_fcn value field_map r = Ok false.
Proof.
  intros value field_map r Hnone. unfold _make_any_match_fcn.
  apply any_match_loop_unregistered. intros n Hn.
  destruct (make_searcher_map field_map !! n) as [s|] eqn:Hs; [|reflexivity].
  exfalso. unfold make_searcher_map in Hs.
  apply searcher_map_from_field_map in Hs as [[Hin Hname]|Hempty].
  - unfold dict_values in Hin. apply in_map_iff in Hin as ([key s'] & E & Hin).
    simpl in E. subst s'. apply (Hnone key s Hin). rewrite Hname. exact Hn.
  - rewrite lookup_empty in Hempty. discriminate.
Qed.

Lemma bare_literal_needs_a_registered_attribute_witness :
  _make_any_match_fcn "a" (@_S3_SEARCH_FIELDS_MAP reference_externals)
    [("name", VStr "a.bin"); ("id", VStr "a")]
  = Ok false.
Proof.
  apply bare_literal_needs_a_registered_attribute.
  intros key s Hin. simpl in Hin.
  destruct Hin as [E|[E|[E|[E|[E|[]]]]]]; injection E as <- <-;
    simpl; intros [H|[H|[]]]; discriminate.
Defined.

(** ** Size comparisons *)

Lemma unescaped_positions_app chars a : forall esc b,
  unescaped_positions chars esc (a +:+ b)
  = unescaped_positions chars esc a
    ++ unescaped_positions chars (last_is_backslash esc a) b.
Proof.
  induction a as [|c a IH]; intros esc b; [reflexivity|].
  change (String c a +:+ b) with (String c (a +:+ b)).
  cbn [unescaped_positions]. rewrite IH. destruct a; reflexivity.
Qed.

Lemma comma_free_clause key delimiter value :
  well_formed_key key = true ->
  comma_free key = true ->
  comma_free (delimiter +:+ value) = true ->
  comma_free (key +:+ delimiter +:+ value) = true.
Proof.
  unfold comma_free, well_formed_key. intros Hk Hfree Hrest.
  apply andb_prop in Hk as [_ Hbs]. apply negb_true_iff in Hbs.
  rewrite unescaped_positions_app, forallb_app, Hfree.
  replace (last_is_backslash false key) with false
    by (destruct key; [reflexivity | symmetry; exact Hbs]).
  exact Hrest.
Qed.

Lemma filter_by_pointwise f (g : record -> bool) records :
  Forall (fun r => f r = Ok (g r)) records ->
  filter_by f records = Ok (List.filter g records).
Proof.
  induction 1 as [|r rs Hr _ IH]; [reflexivity|].
  simpl. rewrite Hr, IH. simpl. destruct (g r); reflexivity.
Qed.

Lemma bytes_clause_search `{Externals} records key delimiter op value
    field_map field n (test : Z -> bool) :
  well_formed_key key = true ->
  well_formed_value value = true ->
  comma_free key = true ->
  comma_free (delimiter +:+ value) = true ->
  In (delimiter, op) _SEARCH_COMPARISON_OPERATORS ->
  dict_get field_map (normalize key) = Some (BytesSearcher field) ->
  from_human_bytes_str (PyStr.strip (_remove_escapes value ",:=<>")) = Ok n ->
  (forall size, op (VInt n) (VInt size) = Ok (test size)) ->
  Forall (fun r => exists size, dict_get r field = Some (VInt size)) records ->
  search_stage records (Some (key +:+ delimiter +:+ value)) field_map
  = Ok (List.filter (fun r => test (size_of field r)) records).
Proof.
  intros Hk Hv Hfk Hfv Hop Hget Hn Htest Hrecords.
  assert (Hin : In delimiter supported_delimiters).
  { simpl in Hop. unfold supported_delimiters. simpl.
    destruct Hop as [E|[E|[E|[E|[E|[]]]]]]; injection E as <- _; tauto. }
  pose proof (comma_free_clause key delimiter value Hk Hfk Hfv) as Hfree.
  destruct (key +:+ delimiter +:+ value) as [|c s] eqn:E.
  - exfalso. destruct key; [|discriminate]. simpl in E, Hin.
    unfold supported_delimiters in Hin. simpl in Hin.
    destruct Hin as [<-|[<-|[<-|[<-|[<-|[<-|[]]]]]]]; discriminate.
  - rewrite single_clause_search by exact Hfree. rewrite <- E.
    assert (Hd : exists d delimiter', delimiter = String d delimiter'
                                      /\ all_in ":=<>" delimiter = true).
    { simpl in Hop.
      destruct Hop as [E'|[E'|[E'|[E'|[E'|[]]]]]]; injection E' as <- _;
        eexists; eexists; split; reflexivity. }
    destruct Hd as (d & delimiter' & -> & Hall).
    rewrite parse_clause_fields by assumption.
    rewrite (make_match_fcn_compare _ _ _ op _ _ _ Hget Hop).
    cbn [mbind result_bind]. apply filter_by_pointwise.
    eapply Forall_impl; [exact Hrecords|].
    intros r [size Hsize]. unfold on_field, size_of.
    cbn [name BytesSearcher].
    rewrite (subscript_Some r field (VInt size) Hsize), Hsize.
    cbn [mbind result_bind compare BytesSearcher].
    rewrite Hn. cbn [mbind result_bind]. apply Htest.
Qed.

Lemma ordering_ints test n size :
  ordering test (VInt n) (VInt size) = Ok (test (n ?= size)).
Proof. reflexivity. Qed.

(** X12.  On a listing whose sizes are all known, the clauses [size<v] and
    [size>=v] split the listing in two: the first keeps the records whose
    size is below the number of bytes that [v] denotes, the second the
    others, each in listing order; so do [size<=v] and [size>v]. *)
Theorem size_operators_are_complementary :
  forall (Ext : Externals) records key value field_map field n,
    well_formed_key key = true ->
    well_formed_value value = true ->
    comma_free key = true ->
    comma_free value = true ->
    dict_get field_map (normalize key) = Some (BytesSearcher field) ->
    from_human_bytes_str (PyStr.strip (_remove_escapes value ",:=<>")) = Ok n ->
    Forall (fun r => exists size, dict_get r field = Some (VInt size)) records ->
    let search delimiter :=
      search_stage records (Some (key +:+ delimiter +:+ value)) field_map in
    search "<" = Ok (List.filter (fun r => size_of field r <? n) records) /\
    search ">="
    = Ok (List.filter (fun r => negb (size_of field r <? n)) records) /\
    search "<=" = Ok (List.filter (fun r => size_of field r <=? n) records) /\
    search ">"
    = Ok (List.filter (fun r => negb (size_of field r <=? n)) records) /\
    search "==" = Ok (List.filter (fun r => size_of field r =? n) records).
Proof.
  intros Ext records key value field_map field n Hk Hv Hfk Hfv Hget Hn Hrecords
         search.
  assert (Hfree : forall a b : ascii,
            Ascii.eqb a "," = false -> Ascii.eqb a PyStr.backslash = false ->
            comma_free (String a value) = true).
  { intros a b Ha Hb. unfold comma_free. cbn [unescaped_positions forallb].
    cbn [PyStr.mem]. rewrite Ha. unfold PyStr.is_backslash. rewrite Hb.
    exact Hfv. }
  assert (Hfree2 : forall a b : ascii,
            Ascii.eqb a "," = false -> Ascii.eqb b "," = false ->
            Ascii.eqb b PyStr.backslash = false ->
            comma_free (String a (String b value)) = true).
  { intros a b Ha Hb Hbb. unfold comma_free.
    cbn [unescaped_positions forallb PyStr.mem]. rewrite Ha, Hb.
    unfold PyStr.is_backslash at 2. rewrite Hbb. cbn [orb andb negb].
    exact Hfv. }
  assert (Hgt : forall size, operator.gt (VInt n) (VInt size)
                             = Ok (size <? n)).
  { intros size. unfold operator.gt. rewrite ordering_ints.
    rewrite Z.ltb_compare, (Z.compare_antisym n size).
    destruct (n ?= size); reflexivity. }
  assert (Hle : forall size, operator.le (VInt n) (VInt size)
                             = Ok (negb (size <? n))).
  { intros size. unfold operator.le. rewrite ordering_ints.
    rewrite Z.ltb_compare, (Z.compare_antisym n size).
    destruct (n ?= size); reflexivity. }
  assert (Hge : forall size, operator.ge (VInt n) (VInt size)
                             = Ok (size <=? n)).
  { intros size. unfold operator.ge. rewrite ordering_ints.
    rewrite Z.leb_compare, (Z.compare_antisym n size).
    destruct (n ?= size); reflexivity. }
  assert (Hlt : forall size, operator.lt (VInt n) (VInt size)
                             = Ok (negb (size <=? n))).
  { intros size. unfold operator.lt. rewrite ordering_ints.
    rewrite Z.leb_compare, (Z.compare_antisym n size).
    destruct (n ?= size); reflexivity. }
  assert (Heq : forall size, operator.eq (VInt n) (VInt size)
                             = Ok (size =? n)).
  { intros size. unfold operator.eq. simpl. rewrite Z.eqb_sym. reflexivity. }
  unfold search. split; [|split; [|split; [|split]]].
  - refine (bytes_clause_search records key "<" operator.gt value field_map
              field n (fun size => size <? n) Hk Hv Hfk _ _ Hget Hn Hgt
              Hrecords).
    + apply (Hfree "<"%char "<"%char); reflexivity.
    + simpl. tauto.
  - refine (bytes_clause_search records key ">=" operator.le value field_map
              field n (fun size => negb (size <? n)) Hk Hv Hfk _ _ Hget Hn Hle
              Hrecords).
    + apply (Hfree2 ">"%char "="%char); reflexivity.
    + simpl. tauto.
  - refine (bytes_clause_search records key "<=" operator.ge value field_map
              field n (fun size => size <=? n) Hk Hv Hfk _ _ Hget Hn Hge
              Hrecords).
    + apply (Hfree2 "<"%char "="%char); reflexivity.
    + simpl. tauto.
  - refine (bytes_clause_search records key ">" operator.lt value field_map
              field n (fun size => negb (size <=? n)) Hk Hv Hfk _ _ Hget Hn Hlt
              Hrecords).
    + apply (Hfree ">"%char ">"%char); reflexivity.
    + simpl. tauto.
  - refine (bytes_clause_search records key "==" operator.eq value field_map
              field n (fun size => size =? n) Hk Hv Hfk _ _ Hget Hn Heq
              Hrecords).
    + apply (Hfree2 "="%char "="%char); reflexivity.
    + simpl. tauto.
Qed.

Lemma size_operators_are_complementary_witness :
  let a := object_record "a.bin" (VInt (10 * MB)) "2019-12-31T23:00:00-05:00" in
  let b := object_record "b.bin" (VInt (25 * MB)) "2019-12-31T23:00:00-05:00" in
  let c := object_record "c.bin" (VInt (20 * MB)) "2019-12-31T23:00:00-05:00" in
  let S3 := @_S3_SEARCH_FIELDS_MAP reference_externals in
  search_stage [a; b; c] (Some "size<20MB") S3 = Ok [a] /\
  search_stage [a; b; c] (Some "size>=20MB") S3 = Ok [b; c].
Proof.
  intros a b c S3.
  destruct (size_operators_are_complementary reference_externals [a; b; c]
              "size" "20MB" S3 "size" (20 * MB)
              eq_refl eq_refl eq_refl eq_refl eq_refl eq_refl)
    as (Hlt & Hge & _).
  - repeat constructor; eexists; reflexivity.
  - split; [exact Hlt | exact Hge].
Defined.

(** ** Remote paths *)

Lemma str_split_not_nil sep s : str_split sep s <> [].
Proof.
  destruct s as [|c s]; simpl; [discriminate|].
  destruct (Ascii.eqb c sep); [discriminate|].
  destruct (str_split sep s); discriminate.
Qed.

Lemma length_str_split sep s :
  length (str_split sep s) = S (count_char sep s).
Proof.
  induction s as [|c s IH]; [reflexivity|].
  simpl. destruct (Ascii.eqb c sep); simpl.
  - rewrite IH. reflexivity.
  - rewrite length_push by apply str_split_not_nil. exact IH.
Qed.

Lemma mem_count_char c s :
  PyStr.mem c s = negb (count_char c s =? 0)%nat.
Proof.
  induction s as [|c' s IH]; [reflexivity|].
  simpl. rewrite Ascii.eqb_sym. destruct (Ascii.eqb c' c); simpl; [reflexivity|exact IH].
Qed.

Lemma str_split_none sep s :
  PyStr.mem sep s = false -> str_split sep s = [s].
Proof.
  induction s as [|c s IH]; [reflexivity|].
  simpl. rewrite Ascii.eqb_sym.
  destruct (Ascii.eqb c sep); simpl; [discriminate|].
  intros H. rewrite (IH H). reflexivity.
Qed.

Lemma str_split_app sep a b :
  PyStr.mem sep a = false ->
  str_split sep (a +:+ String sep b) = a :: str_split sep b.
Proof.
  induction a as [|c a IH]; simpl.
  - intros _. rewrite Ascii.eqb_refl. reflexivity.
  - rewrite Ascii.eqb_sym. destruct (Ascii.eqb c sep); simpl; [discriminate|].
    intros H. rewrite (IH H). reflexivity.
Qed.

Lemma mem_app c a b :
  PyStr.mem c (a +:+ b) = PyStr.mem c a || PyStr.mem c b.
Proof.
  induction a as [|d a IH]; [reflexivity|].
  simpl. rewrite IH. apply orb_assoc.
Qed.

Lemma mem_cons_same c s : PyStr.mem c (String c s) = true.
Proof. simpl. rewrite Ascii.eqb_refl. reflexivity. Qed.

Lemma parse_remote_path_host a b hostname username :
  PyStr.mem "@" a = false -> PyStr.mem "@" b = false ->
  PyStr.mem ":" a = false -> PyStr.mem ":" b = false ->
  _parse_remote_path (a +:+ String ":" b) hostname username
  = Ok (Some a, username, b).
Proof.
  intros Ha Hb Hca Hcb. unfold _parse_remote_path.
  rewrite mem_app, Ha. cbn [orb PyStr.mem]. rewrite Hb. cbn.
  rewrite mem_app, mem_cons_same, orb_true_r.
  rewrite str_split_app, (str_split_none _ b) by assumption.
  reflexivity.
Qed.

Lemma parse_remote_path_user a rest hostname username :
  PyStr.mem "@" a = false -> PyStr.mem "@" rest = false ->
  _parse_remote_path (a +:+ String "@" rest) hostname username
  = _parse_remote_path rest hostname (Some a).
Proof.
  intros Ha Hr. unfold _parse_remote_path at 1.
  rewrite mem_app, mem_cons_same, orb_true_r.
  rewrite str_split_app, (str_split_none _ rest) by assumption.
  cbn. unfold _parse_remote_path. rewrite Hr. reflexivity.
Qed.

(** X13.  A remote path [user@host:path] is taken apart into its three parts,
    which take the place of [--host] and [--user]; a part that the path
    does not give is left to the option.  (Here [user], [host] and [path]
    contain no further [@], and [host] and [path] no [:].) *)
Theorem remote_path_parts_replace_the_options :
  forall user host path hostname username,
    PyStr.mem "@" user = false ->
    PyStr.mem "@" host = false -> PyStr.mem ":" host = false ->
    PyStr.mem "@" path = false -> PyStr.mem ":" path = false ->
    _parse_remote_path (user +:+ "@" +:+ host +:+ ":" +:+ path)
      hostname username
    = Ok (Some host, Some user, path) /\
    _parse_remote_path (user +:+ "@" +:+ path) hostname username
    = Ok (hostname, Some user, path) /\
    _parse_remote_path (host +:+ ":" +:+ path) hostname username
    = Ok (Some host, username, path) /\
    _parse_remote_path path hostname username
    = Ok (hostname, username, path).
Proof.
  intros user host path hostname username Hu Hh Hhc Hp Hpc.
  assert (Hplain : forall u,
    _parse_remote_path path hostname u = Ok (hostname, u, path)).
  { intros u. unfold _parse_remote_path. rewrite Hp. cbn. rewrite Hpc.
    reflexivity. }
  repeat split.
  - change (user +:+ "@" +:+ host +:+ ":" +:+ path)
      with (user +:+ String "@" (host +:+ String ":" path)).
    rewrite parse_remote_path_user; [|assumption|].
    + apply parse_remote_path_host; assumption.
    + rewrite mem_app, Hh. simpl. exact Hp.
  - change (user +:+ "@" +:+ path) with (user +:+ String "@" path).
    rewrite parse_remote_path_user by assumption. apply Hplain.
  - apply (parse_remote_path_host host path); assumption.
  - apply Hplain.
Qed.

Lemma remote_path_parts_replace_the_options_witness :
  _parse_remote_path "ann@example.org:/data/a.bin" (Some "other.org") None
  = Ok (Some "example.org", Some "ann", "/data/a.bin") /\
  _parse_remote_path "/data/a.bin" (Some "other.org") (Some "bob")
  = Ok (Some "other.org", Some "bob", "/data/a.bin").
Proof.
  destruct (remote_path_parts_replace_the_options "ann" "example.org"
              "/data/a.bin" (Some "other.org") None
              eq_refl eq_refl eq_refl eq_refl eq_refl) as (H1 & _ & _ & _).
  destruct (remote_path_parts_replace_the_options "ann" "example.org"
              "/data/a.bin" (Some "other.org") (Some "bob")
              eq_refl eq_refl eq_refl eq_refl eq_refl) as (_ & _ & _ & H4).
  split; [exact H1 | exact H4].
Defined.

Lemma unpack_pair_ok whole parts :
  is_ok (unpack_pair whole parts) = (length parts =? 2)%nat.
Proof. destruct parts as [|a [|b [|c parts]]]; reflexivity. Qed.

(** X14.  [_parse_remote_path] returns exactly when the remote path has at
    most one [@] and what follows the [@] has at most one [:]; otherwise
    the unpacking of the split raises [ValueError].  So a path with a
    second colon, or a user name with an [@], is rejected. *)
Theorem remote_path_separators_at_most_once :
  forall remote_path hostname username,
    is_ok (_parse_remote_path remote_path hostname username)
    = (count_char "@" remote_path <=? 1)%nat
      && (count_char ":" (List.last (str_split "@" remote_path) EmptyString) <=? 1)%nat.
Proof.
  intros p h u.
  assert (Hcolon : forall q h' u',
    is_ok ('(hostname, q') ←
             (if PyStr.mem ":" q
              then '(h0, p0) ← unpack_pair q (str_split ":" q); Ok (Some h0, p0)
              else Ok (h', q));
           Ok (hostname, u', q') : result (option string * option string * string))
    = (count_char ":" q <=? 1)%nat).
  { intros q h' u'. rewrite mem_count_char.
    pose proof (length_str_split ":" q) as Hlen.
    destruct (count_char ":" q) as [|[|n]] eqn:Hc; cbn [Nat.eqb negb].
    - reflexivity.
    - destruct (str_split ":" q) as [|a [|b [|c l]]]; try discriminate.
      reflexivity.
    - destruct (str_split ":" q) as [|a [|b [|c l]]]; try discriminate.
      reflexivity. }
  unfold _parse_remote_path. rewrite mem_count_char.
  pose proof (length_str_split "@" p) as Hlen.
  destruct (count_char "@" p) as [|[|n]] eqn:Hc; cbn [Nat.eqb negb].
  - assert (Hm : PyStr.mem "@" p = false)
      by (rewrite mem_count_char, Hc; reflexivity).
    rewrite (str_split_none _ _ Hm). cbn [List.last].
    exact (Hcolon p h u).
  - destruct (str_split "@" p) as [|a [|b [|c l]]]; try discriminate.
    cbn [List.last]. exact (Hcolon b h (Some a)).
  - destruct (str_split "@" p) as [|a [|b [|c l]]]; try discriminate.
    reflexivity.
Qed.

(** ** Names cut to the column width *)

Lemma length_str_take n : forall s,
  String.length (str_take n s) = Nat.min n (String.length s).
Proof.
  induction n as [|n IH]; intros [|c s]; simpl; try reflexivity.
  rewrite IH. reflexivity.
Qed.

Lemma str_length_app a b :
  String.length (a +:+ b) = (String.length a + String.length b)%nat.
Proof. induction a as [|c a IH]; simpl; [reflexivity|]. rewrite IH. reflexivity. Qed.

(** X15.  With a column width of at least four, a rendered name is never wider
    than the column: a name that fits is unchanged, a longer one is cut to
    [width - 4] characters followed by [" ..."], which makes exactly
    [width]. *)
Theorem rendered_name_fits_the_column :
  forall width name,
    4 <= width ->
    exists rendered,
      _render_name_at (Some width) (VStr name) = Ok (VStr rendered) /\
      Z.of_nat (String.length rendered) <= width /\
      (Z.of_nat (String.length name) <= width -> rendered = name) /\
      (width < Z.of_nat (String.length name) ->
       rendered = str_take (Z.to_nat (width - 4)) name +:+ " ..." /\
       Z.of_nat (String.length rendered) = width).
Proof.
  intros width name Hw. unfold _render_name_at.
  destruct (width <? Z.of_nat (String.length name)) eqn:Hlt.
  - apply Z.ltb_lt in Hlt.
    assert (Hslice : slice_to name (width - 4)
                     = str_take (Z.to_nat (width - 4)) name).
    { unfold slice_to. destruct (width - 4 <? 0) eqn:Hneg; [|reflexivity].
      apply Z.ltb_lt in Hneg. lia. }
    rewrite Hslice.
    assert (Hlen : Z.of_nat (String.length
                     (str_take (Z.to_nat (width - 4)) name +:+ " ...")) = width).
    { rewrite str_length_app, length_str_take. simpl. lia. }
    eexists. split; [reflexivity|]. split; [lia|]. split; [lia|].
    intros _. split; [reflexivity | exact Hlen].
  - apply Z.ltb_ge in Hlt.
    exists name. split; [reflexivity|]. split; [exact Hlt|].
    split; [reflexivity | lia].
Qed.

Lemma rendered_name_fits_the_column_witness :
  _render_name_at (Some 8) (VStr "photographs.tar") = Ok (VStr "phot ...") /\
  _render_name_at (Some 8) (VStr "a.bin") = Ok (VStr "a.bin").
Proof.
  split.
  - destruct (rendered_name_fits_the_column 8 "photographs.tar" ltac:(lia))
      as (rendered & Heq & _ & _ & Hcut).
    destruct (Hcut ltac:(simpl; lia)) as [-> _]. exact Heq.
  - destruct (rendered_name_fits_the_column 8 "a.bin" ltac:(lia))
      as (rendered & Heq & _ & Hfit & _).
    rewrite (Hfit ltac:(simpl; lia)) in Heq. exact Heq.
Defined.

(** ** The tables *)

Section Tables.
Context `{Externals} `{Tabulate}.

Lemma build_rows_Forall2 row metadata : forall records,
  build_rows row metadata = Ok records <->
  Forall2 (fun m r => row m = Ok r) metadata records.
Proof.
  induction metadata as [|m metadata IH]; intros records; simpl.
  - split.
    + intros [= <-]. constructor.
    + intros Hf. inversion Hf. reflexivity.
  - split.
    + destruct (row m) as [r|e] eqn:Hr; [|discriminate]. cbn.
      destruct (build_rows row metadata) as [rs|e]; [|discriminate]. cbn.
      intros [= <-]. constructor; [exact Hr|]. apply IH. reflexivity.
    + intros Hf. inversion Hf as [|m' r ms rs Hr Hrs]; subst.
      rewrite Hr. cbn. rewrite (proj2 (IH rs) Hrs). reflexivity.
Qed.

Lemma build_rows_raises row before m after e :
  Forall (fun m => is_ok (row m) = true) before ->
  row m = Raise e ->
  build_rows row (before ++ m :: after) = Raise e.
Proof.
  intros Hb Hm. induction Hb as [|b before Hb _ IH]; simpl.
  - rewrite Hm. reflexivity.
  - destruct (row b); [|discriminate]. cbn. rewrite IH. reflexivity.
Qed.

Lemma sum_sizes_ints metadata : forall acc,
  Forall size_is_int metadata ->
  sum_sizes acc metadata = Ok (acc + total_size metadata).
Proof.
  induction metadata as [|m metadata IH]; intros acc Hall; simpl.
  - f_equal. lia.
  - inversion Hall as [|m' ms [n Hn] Hrest]; subst.
    unfold subscript, size_of. rewrite Hn. cbn.
    rewrite (IH _ Hrest). f_equal. lia.
Qed.

Lemma sum_sizes_None metadata : forall acc,
  Forall size_is_int_or_None metadata ->
  Exists (fun m => dict_get m "size" = Some VNone) metadata ->
  sum_sizes acc metadata = Raise TypeError.
Proof.
  induction metadata as [|m metadata IH]; intros acc Hall Hex.
  - inversion Hex.
  - inversion Hall as [|m' ms Hm Hrest]; subst. simpl. unfold subscript.
    destruct Hm as [[n Hn]|Hnone].
    + rewrite Hn. cbn. apply IH; [exact Hrest|].
      inversion Hex as [m' ms Hhere|m' ms Hthere]; subst; [congruence|exact Hthere].
    + rewrite Hnone. reflexivity.
Qed.

Lemma print_file_table_ok row headers count_line metadata show_count records :
  build_rows row metadata = Ok records ->
  Forall size_is_int metadata ->
  print_file_table row headers count_line metadata show_count
  = (tabulate records headers TABLE_FORMAT
     :: (if show_count
         then [count_line (length metadata)
                 (if total_size metadata <? 0 then "-"
                  else to_human_bytes_str (total_size metadata))]
         else []),
     Ok ()).
Proof.
  intros Hrows Hall. unfold print_file_table. rewrite Hrows.
  destruct show_count; [|reflexivity].
  rewrite (sum_sizes_ints _ _ Hall), Z.add_0_l. cbn.
  apply build_rows_Forall2, Forall2_length in Hrows. rewrite <- Hrows.
  destruct (total_size metadata <? 0); reflexivity.
Qed.

Lemma print_file_table_None row headers count_line metadata records :
  build_rows row metadata = Ok records ->
  Forall size_is_int_or_None metadata ->
  Exists (fun m => dict_get m "size" = Some VNone) metadata ->
  print_file_table row headers count_line metadata true
  = ([tabulate records headers TABLE_FORMAT], Raise TypeError).
Proof.
  intros Hrows Hall Hex. unfold print_file_table. rewrite Hrows.
  rewrite (sum_sizes_None _ _ Hall Hex). reflexivity.
Qed.

Lemma print_file_table_raises row headers count_line before m after
    show_count e :
  Forall (fun m => is_ok (row m) = true) before ->
  row m = Raise e ->
  print_file_table row headers count_line (before ++ m :: after) show_count
  = ([], Raise e).
Proof.
  intros Hb Hm. unfold print_file_table.
  rewrite (build_rows_raises _ _ _ _ _ Hb Hm). reflexivity.
Qed.

Lemma s3_file_row_size m r :
  s3_file_row m = Ok r -> size_is_int_or_None m.
Proof.
  unfold s3_file_row, subscript, size_is_int_or_None, size_is_int.
  destruct (dict_get m "bucket"); [|discriminate]. cbn.
  destruct (dict_get m "object_name"); [|discriminate]. cbn.
  destruct (dict_get m "size") as [[| | |]|]; try discriminate;
    intros _; eauto.
Qed.

Lemma google_drive_file_row_size m r :
  google_drive_file_row m = Ok r -> size_is_int_or_None m.
Proof.
  unfold google_drive_file_row, subscript, size_is_int_or_None, size_is_int.
  destruct (dict_get m "id"); [|discriminate]. cbn.
  destruct (dict_get m "name"); [|discriminate]. cbn.
  destruct (dict_get m "size") as [[| | |]|]; try discriminate;
    intros _; eauto.
Qed.

(** A row is built only for a size that is an integer or [None]. *)
Lemma build_rows_sizes row metadata records :
  (forall m r, row m = Ok r -> size_is_int_or_None m) ->
  build_rows row metadata = Ok records ->
  Forall size_is_int_or_None metadata.
Proof.
  intros Hrow Hrows. apply build_rows_Forall2 in Hrows.
  induction Hrows as [|m r ms rs Hm _ IH]; constructor; eauto.
Qed.

End Tables.

(** X16.  With [--count], when every listed record carries an integer size,
    each file table logs exactly two messages and returns: the table of
    the rows, one per record, and the count line with the number of records
    and the rendered sum of their sizes. *)
Theorem count_line_totals_the_sizes :
  forall (E : Externals) (T : Tabulate) metadata,
    Forall size_is_int metadata ->
    let total :=
      if total_size metadata <? 0 then "-"
      else to_human_bytes_str (total_size metadata) in
    (forall records,
       build_rows s3_file_row metadata = Ok records ->
       let table :=
         tabulate records ["bucket"; "name"; "size"; "type"; "last modified"]
           TABLE_FORMAT in
       _print_s3_file_info_table metadata true
       = ([table; files_line (length metadata) total], Ok ()) /\
       _print_gcs_file_info_table metadata true
       = ([table; files_line (length metadata) total], Ok ())) /\
    (forall records,
       build_rows google_drive_file_row metadata = Ok records ->
       _print_google_drive_file_info_table metadata true
       = ([tabulate records ["id"; "name"; "size"; "type"; "last modified"]
             TABLE_FORMAT;
           showing_files_line (length metadata) total], Ok ())).
Proof.
  intros E T metadata Hall total. split.
  - intros records Hrows table.
    pose proof (print_file_table_ok s3_file_row
                  ["bucket"; "name"; "size"; "type"; "last modified"]
                  files_line metadata true records Hrows Hall) as Hp.
    split; exact Hp.
  - intros records Hrows.
    exact (print_file_table_ok google_drive_file_row _ showing_files_line
             metadata true records Hrows Hall).
Qed.

Lemma count_line_totals_the_sizes_witness :
  let a := object_record "a.bin" (VInt (10 * MB)) "2019-12-31T23:00:00-05:00" in
  let b := object_record "b.bin" (VInt (25 * MB)) "2019-12-31T23:00:00-05:00" in
  exists table,
    @_print_s3_file_info_table reference_externals reference_tabulate
      [a; b] true
    = ([table;
        files_line 2 (@to_human_bytes_str reference_externals (35 * MB))],
       Ok ()).
Proof.
  intros a b.
  assert (Hall : Forall size_is_int [a; b]).
  { repeat constructor; eexists; reflexivity. }
  destruct (count_line_totals_the_sizes reference_externals reference_tabulate
              [a; b] Hall) as [Hs3 _].
  destruct (@build_rows (@s3_file_row reference_externals) [a; b])
    as [records|e] eqn:Hrows; [|vm_compute in Hrows; discriminate].
  destruct (Hs3 records eq_refl) as [Hp _].
  eexists. exact Hp.
Defined.

(** X17.  With [--count], a record whose size is [None] (shown as "-" in its
    row) makes the total a [TypeError]: the table has been logged by then,
    the count line is not.  Without [--count] the same listing is shown
    and the command returns. *)
Theorem unknown_size_breaks_the_count :
  forall (E : Externals) (T : Tabulate) metadata,
    Exists (fun m => dict_get m "size" = Some VNone) metadata ->
    (forall records,
       build_rows s3_file_row metadata = Ok records ->
       let table :=
         tabulate records ["bucket"; "name"; "size"; "type"; "last modified"]
           TABLE_FORMAT in
       _print_s3_file_info_table metadata true = ([table], Raise TypeError) /\
       _print_gcs_file_info_table metadata true = ([table], Raise TypeError) /\
       _print_s3_file_info_table metadata false = ([table], Ok ())) /\
    (forall records,
       build_rows google_drive_file_row metadata = Ok records ->
       let table :=
         tabulate records ["id"; "name"; "size"; "type"; "last modified"]
           TABLE_FORMAT in
       _print_google_drive_file_info_table metadata true
       = ([table], Raise TypeError) /\
       _print_google_drive_file_info_table metadata false = ([table], Ok ())).
Proof.
  intros E T metadata Hex. split.
  - intros records Hrows table.
    pose proof (build_rows_sizes _ _ _ s3_file_row_size Hrows) as Hall.
    pose proof (print_file_table_None s3_file_row
                  ["bucket"; "name"; "size"; "type"; "last modified"]
                  files_line metadata records Hrows Hall Hex) as Hp.
    split; [exact Hp|]. split; [exact Hp|].
    unfold _print_s3_file_info_table, print_file_table. rewrite Hrows.
    reflexivity.
  - intros records Hrows table.
    pose proof (build_rows_sizes _ _ _ google_drive_file_row_size Hrows)
      as Hall.
    split.
    + exact (print_file_table_None google_drive_file_row _ showing_files_line
               metadata records Hrows Hall Hex).
    + unfold _print_google_drive_file_info_table, print_file_table.
      rewrite Hrows. reflexivity.
Qed.

Lemma unknown_size_breaks_the_count_witness :
  let a := object_record "a.bin" (VInt (10 * MB)) "2019-12-31T23:00:00-05:00" in
  let b := object_record "b.bin" VNone "2019-12-31T23:00:00-05:00" in
  exists table,
    @_print_s3_file_info_table reference_externals reference_tabulate
      [a; b] true
    = ([table], Raise TypeError).
Proof.
  intros a b.
  assert (Hex : Exists (fun m => dict_get m "size" = Some VNone) [a; b]).
  { apply Exists_cons_tl, Exists_cons_hd. reflexivity. }
  destruct (unknown_size_breaks_the_count reference_externals
              reference_tabulate [a; b] Hex) as [Hs3 _].
  destruct (@build_rows (@s3_file_row reference_externals) [a; b])
    as [records|e] eqn:Hrows; [|vm_compute in Hrows; discriminate].
  destruct (Hs3 records eq_refl) as [Hp _].
  eexists. exact Hp.
Defined.

(** X18.  A table is logged whole or not at all.  When the row of some
    record cannot be built (an attribute is missing, the size is not a
    number, the date cannot be read), nothing is logged and the exception
    of the first such record is raised, whatever the records before and
    after it. *)
Theorem no_table_when_a_row_fails :
  forall (E : Externals) (T : Tabulate) before m after show_count,
    (forall e,
       Forall (fun m => is_ok (s3_file_row m) = true) before ->
       s3_file_row m = Raise e ->
       _print_s3_file_info_table (before ++ m :: after) show_count
       = ([], Raise e) /\
       _print_gcs_file_info_table (before ++ m :: after) show_count
       = ([], Raise e)) /\
    (forall e,
       Forall (fun m => is_ok (google_drive_file_row m) = true) before ->
       google_drive_file_row m = Raise e ->
       _print_google_drive_file_info_table (before ++ m :: after) show_count
       = ([], Raise e)) /\
    (forall e first,
       Forall (fun m => is_ok (folder_row first m) = true) before ->
       folder_row first m = Raise e ->
       print_folder_table first (before ++ m :: after) = ([], Raise e)).
Proof.
  intros E T before m after show_count. split; [|split].
  - intros e Hb Hm.
    pose proof (print_file_table_raises s3_file_row
                  ["bucket"; "name"; "size"; "type"; "last modified"]
                  files_line before m after show_count e Hb Hm) as Hp.
    split; exact Hp.
  - intros e Hb Hm.
    exact (print_file_table_raises google_drive_file_row _ showing_files_line
             before m after show_count e Hb Hm).
  - intros e first Hb Hm. unfold print_folder_table.
    rewrite (build_rows_raises _ _ _ _ _ Hb Hm). reflexivity.
Qed.

Lemma no_table_when_a_row_fails_witness :
  let a := object_record "a.bin" (VInt (10 * MB)) "2019-12-31T23:00:00-05:00" in
  let b := object_record "b.bin" (VStr "big") "2019-12-31T23:00:00-05:00" in
  let c := object_record "c.txt" (VInt (5 * MB)) "2019-12-31T23:00:00-05:00" in
  @_print_s3_file_info_table reference_externals reference_tabulate
    [a; b; c] false
  = ([], Raise TypeError).
Proof.
  intros a b c.
  destruct (no_table_when_a_row_fails reference_externals reference_tabulate
              [a] b [c] false) as [Hs3 _].
  destruct (Hs3 TypeError) as [Hp _].
  - repeat constructor.
  - reflexivity.
  - exact Hp.
Defined.

(** ** The list commands *)

Lemma filter_records_members records limit search_str sort_by ascending
    field_map out :
  _filter_records records limit search_str sort_by ascending field_map
  = Ok out ->
  (forall r, In r out -> In r records) /\
  (0 < limit -> Z.of_nat (length out) <= limit).
Proof.
  intros Hf. rewrite filter_records_search in Hf.
  destruct (search_stage records search_str field_map) as [filtered|e] eqn:Hs;
    [|discriminate].
  simpl in Hf.
  destruct (search_stage_filter _ _ _ _ Hs) as [P ->].
  destruct (order_stage_permutation _ _ _ _ _ _ Hf) as (ordered & Hperm & Hout).
  split.
  - intros r Hr.
    assert (Hin : In r ordered).
    { rewrite Hout in Hr. destruct (0 <? limit); [|exact Hr].
      rewrite <- (take_drop (Z.to_nat limit) ordered).
      apply in_or_app. left. exact Hr. }
    apply (Permutation_in _ Hperm) in Hin.
    apply List.filter_In in Hin. tauto.
  - intros Hl. apply Z.ltb_lt in Hl. rewrite Hl in Hout. rewrite Hout.
    rewrite length_take. lia.
Qed.

Section Lists.
Context `{Externals} `{Tabulate}.

Lemma list_command_run_shows field_map row headers count_line listing args log :
  list_command_run field_map (print_file_table row headers count_line)
    listing args = (log, Ok ()) ->
  shows_selection field_map row headers listing args log.
Proof.
  unfold list_command_run, shows_selection. intros Hrun.
  destruct (_filter_records listing _ _ _ _ field_map) as [metadata|e] eqn:Hf;
    [|discriminate].
  destruct (filter_records_members _ _ _ _ _ _ _ Hf) as [Hin Hlim].
  unfold print_file_table in Hrun.
  destruct (build_rows row metadata) as [records|e] eqn:Hrows; [|discriminate].
  pose proof (proj1 (build_rows_Forall2 _ _ _) Hrows) as Hf2.
  exists metadata, records.
  split; [reflexivity|]. split; [exact Hf2|]. split; [exact Hin|].
  split; [rewrite <- (Forall2_length _ _ _ Hf2); exact Hlim|].
  destruct (args_count args).
  - destruct (_ ← sum_sizes 0 metadata; _) as [total|e]; [|discriminate].
    injection Hrun as <-. split; reflexivity.
  - injection Hrun as <-. split; reflexivity.
Qed.

End Lists.

(** X19.  When a list command returns, what it has logged starts with the
    table of the rows of records that the listing contains: those that
    [_filter_records] selects with the field map of the command, so at most
    [--limit] rows under a positive limit; [--count] adds one message. *)
Theorem list_commands_show_the_selection :
  forall (E : Externals) (T : Tabulate) listing args log,
    (S3ListCommand_run listing args = (log, Ok ()) ->
     shows_selection _S3_SEARCH_FIELDS_MAP s3_file_row
       ["bucket"; "name"; "size"; "type"; "last modified"] listing args log) /\
    (GCSListCommand_run listing args = (log, Ok ()) ->
     shows_selection _GCS_SEARCH_FIELDS_MAP s3_file_row
       ["bucket"; "name"; "size"; "type"; "last modified"] listing args log) /\
    (GoogleDriveListCommand_run listing args = (log, Ok ()) ->
     shows_selection _GOOGLE_DRIVE_SEARCH_FIELDS_MAP google_drive_file_row
       ["id"; "name"; "size"; "type"; "last modified"] listing args log).
Proof.
  intros E T listing args log. split; [|split].
  - apply list_command_run_shows.
  - apply list_command_run_shows.
  - apply list_command_run_shows.
Qed.

Lemma list_commands_show_the_selection_witness :
  let a := object_record "a.bin" (VInt (10 * MB)) "2019-12-31T23:00:00-05:00" in
  let b := object_record "b.bin" (VInt (25 * MB)) "2019-12-31T23:00:00-05:00" in
  let c := object_record "c.txt" (VInt (5 * MB)) "2019-12-31T23:00:00-05:00" in
  let args := mk_list_args 1 (Some "bin") (Some "size") false true in
  @shows_selection reference_tabulate
    (@_S3_SEARCH_FIELDS_MAP reference_externals)
    (@s3_file_row reference_externals)
    ["bucket"; "name"; "size"; "type"; "last modified"] [a; b; c] args
    (fst (@S3ListCommand_run reference_externals reference_tabulate
            [a; b; c] args)).
Proof.
  intros a b c args.
  apply (list_commands_show_the_selection reference_externals
           reference_tabulate [a; b; c] args).
  vm_compute. reflexivity.
Defined.

(** ** Names by directory *)

Lemma group_by_dir_fold d : forall (dd : gmap string (list string)) dir,
  foldl (fun dd '(name, path) =>
           <[dirname path := default [] (dd !! dirname path) ++ [name]]> dd)
    dd d !! dir
  = match dd !! dir, names_in dir d with
    | None, [] => None
    | o, names => Some (default [] o ++ names)
    end.
Proof.
  induction d as [|[name path] d IH]; intros dd dir; simpl.
  - unfold names_in. simpl. destruct (dd !! dir) as [l|]; [|reflexivity].
    simpl. rewrite app_nil_r. reflexivity.
  - rewrite IH. unfold names_in. simpl.
    destruct (String.eqb_spec (dirname path) dir) as [->|Hne].
    + rewrite lookup_insert_eq. simpl.
      rewrite <- app_assoc. simpl.
      destruct (dd !! dir); reflexivity.
    + rewrite lookup_insert_ne by exact Hne. reflexivity.
Qed.

Lemma group_by_dir_lookup_eq d dir :
  _group_by_dir d !! dir
  = match names_in dir d with [] => None | names => Some names end.
Proof.
  unfold _group_by_dir. rewrite group_by_dir_fold, lookup_empty.
  destruct (names_in dir d); reflexivity.
Qed.

Lemma names_in_nil dir d :
  names_in dir d = [] <->
  forall name path, In (name, path) d -> dirname path <> dir.
Proof.
  unfold names_in. induction d as [|[n p] d IH]; simpl.
  - split; [intros _ ? ? []|reflexivity].
  - destruct (String.eqb_spec (dirname p) dir) as [He|Hne]; simpl.
    + split; [discriminate|]. intros Hall. exfalso.
      exact (Hall n p (or_introl eq_refl) He).
    + rewrite IH. split.
      * intros Hall n' p' [[= <- <-]|Hin]; [exact Hne|exact (Hall _ _ Hin)].
      * intros Hall n' p' Hin. exact (Hall _ _ (or_intror Hin)).
Qed.

(** X20.  [_group_by_dir] files every name under the directory of its path
    and nowhere else: the group of a directory is the list of the names
    whose path lies in it, in the order of the items, and a directory in
    which no path lies has no group (so no group is empty). *)
Theorem group_by_dir_files_names_by_directory :
  forall d dir,
    default [] (_group_by_dir d !! dir) = names_in dir d /\
    (_group_by_dir d !! dir = None <->
     forall name path, In (name, path) d -> dirname path <> dir) /\
    (forall names, _group_by_dir d !! dir = Some names -> names <> []).
Proof.
  intros d dir. rewrite group_by_dir_lookup_eq. split; [|split].
  - destruct (names_in dir d); reflexivity.
  - rewrite <- names_in_nil. destruct (names_in dir d); split; congruence.
  - intros names. destruct (names_in dir d); congruence.
Qed.

(** ** The order of [str] *)

Lemma str_ltb_trans a : forall b c,
  PyStr.ltb a b = true -> PyStr.ltb b c = true -> PyStr.ltb a c = true.
Proof.
  induction a as [|x a IH]; intros [|y b] [|z c] Hab Hbc; simpl in *;
    try congruence.
  destruct (Nat.ltb_spec (nat_of_ascii x) (nat_of_ascii y)),
           (Nat.ltb_spec (nat_of_ascii y) (nat_of_ascii z)),
           (Nat.ltb_spec (nat_of_ascii x) (nat_of_ascii z));
    try reflexivity; try lia;
    destruct (Nat.ltb_spec (nat_of_ascii y) (nat_of_ascii x));
    try discriminate; try lia;
    destruct (Nat.ltb_spec (nat_of_ascii z) (nat_of_ascii y));
    try discriminate; try lia;
    destruct (Nat.ltb_spec (nat_of_ascii z) (nat_of_ascii x));
    try lia.
  eapply IH; eassumption.
Qed.

Lemma str_ltb_total a : forall b,
  PyStr.ltb a b = false -> PyStr.ltb b a = false -> a = b.
Proof.
  induction a as [|x a IH]; intros [|y b] Hab Hba; simpl in *;
    try congruence.
  destruct (Nat.ltb_spec (nat_of_ascii x) (nat_of_ascii y)); [discriminate|].
  destruct (Nat.ltb_spec (nat_of_ascii y) (nat_of_ascii x)); [discriminate|].
  assert (Hxy : x = y).
  { rewrite <- (ascii_nat_embedding x), <- (ascii_nat_embedding y).
    f_equal. lia. }
  subst y. f_equal. apply IH; assumption.
Qed.

Lemma insert_str_comm a b l :
  insert_str a (insert_str b l) = insert_str b (insert_str a l).
Proof.
  induction l as [|x l IH]; simpl.
  - destruct (PyStr.ltb a b) eqn:Hab, (PyStr.ltb b a) eqn:Hba;
      try reflexivity.
    + rewrite (str_ltb_asym _ _ Hab) in Hba. discriminate.
    + rewrite (str_ltb_total _ _ Hab Hba). reflexivity.
  - destruct (PyStr.ltb b x) eqn:Hbx, (PyStr.ltb a x) eqn:Hax; simpl;
      rewrite ?Hbx, ?Hax.
    + destruct (PyStr.ltb a b) eqn:Hab, (PyStr.ltb b a) eqn:Hba;
        try reflexivity.
      * rewrite (str_ltb_asym _ _ Hab) in Hba. discriminate.
      * rewrite (str_ltb_total _ _ Hab Hba). reflexivity.
    + destruct (PyStr.ltb a b) eqn:Hab.
      * rewrite (str_ltb_trans _ _ _ Hab Hbx) in Hax. discriminate.
      * reflexivity.
    + destruct (PyStr.ltb b a) eqn:Hba.
      * rewrite (str_ltb_trans _ _ _ Hba Hax) in Hbx. discriminate.
      * reflexivity.
    + rewrite IH. reflexivity.
Qed.

(** Sorting strings forgets the order in which they came. *)
Lemma sorted_strings_permutation l l' :
  Permutation l l' -> sorted_strings l = sorted_strings l'.
Proof.
  induction 1 as [|x l l' _ IH|x y l|l l' l'' _ IH1 _ IH2]; simpl.
  - reflexivity.
  - rewrite IH. reflexivity.
  - apply insert_str_comm.
  - congruence.
Qed.

Lemma filter_permutation {A : Type} (P : A -> bool) l l' :
  Permutation l l' -> Permutation (List.filter P l) (List.filter P l').
Proof.
  induction 1 as [|x l l' _ IH|x y l|l l' l'' _ IH1 _ IH2]; simpl.
  - reflexivity.
  - destruct (P x); [constructor|]; exact IH.
  - destruct (P x), (P y); try reflexivity. constructor.
  - etransitivity; eassumption.
Qed.

Lemma names_in_permutation dir d d' :
  Permutation d d' -> Permutation (names_in dir d) (names_in dir d').
Proof.
  intros Hp. unfold names_in. apply Permutation_map, filter_permutation, Hp.
Qed.

Lemma group_by_dir_keys_permutation d d' :
  Permutation d d' ->
  Permutation (map fst (map_to_list (_group_by_dir d)))
              (map fst (map_to_list (_group_by_dir d'))).
Proof.
  intros Hp. apply NoDup_Permutation.
  - apply NoDup_fst_map_to_list.
  - apply NoDup_fst_map_to_list.
  - assert (Hkey : forall d0 dir,
      dir ∈ map fst (map_to_list (_group_by_dir d0)) <-> names_in dir d0 <> []).
    { intros d0 dir. rewrite list_elem_of_fmap. split.
      - intros [[k names] [-> Hin]]. apply elem_of_map_to_list in Hin.
        simpl. rewrite group_by_dir_lookup_eq in Hin.
        destruct (names_in k d0); congruence.
      - intros Hne. exists (dir, names_in dir d0). split; [reflexivity|].
        apply elem_of_map_to_list. rewrite group_by_dir_lookup_eq.
        destruct (names_in dir d0); congruence. }
    intros dir. rewrite !Hkey.
    pose proof (names_in_permutation dir d d' Hp) as Hn.
    split; intros Hne Heq; apply Hne.
    + rewrite Heq in Hn. apply Permutation_nil. symmetry. exact Hn.
    + rewrite Heq in Hn. apply Permutation_nil. exact Hn.
Qed.

(** X21.  The listing of names by directory does not depend on the order of
    the items of the dictionary it is given: two dictionaries with the same
    items are rendered as the same string. *)
Theorem names_in_dirs_ignore_item_order :
  forall d d',
    Permutation d d' ->
    _render_names_in_dirs_str d = _render_names_in_dirs_str d'.
Proof.
  intros d d' Hp. unfold _render_names_in_dirs_str.
  rewrite (sorted_strings_permutation _ _ (group_by_dir_keys_permutation _ _ Hp)).
  f_equal. apply map_ext. intros dir. unfold render_dir.
  rewrite !group_by_dir_lookup_eq.
  assert (Hn : sorted_strings (names_in dir d) = sorted_strings (names_in dir d'))
    by apply sorted_strings_permutation, names_in_permutation, Hp.
  destruct (names_in dir d) as [|n ns] eqn:E, (names_in dir d') as [|n' ns'] eqn:E';
    cbn [default id from_option]; rewrite ?Hn; reflexivity.
Qed.

Lemma names_in_dirs_ignore_item_order_witness :
  _render_names_in_dirs_str
    [("resize", "/eta/modules/resize.json");
     ("detect", "/opt/modules/detect.json");
     ("clip", "/eta/modules/clip.json")]
  = _render_names_in_dirs_str
      [("clip", "/eta/modules/clip.json");
       ("resize", "/eta/modules/resize.json");
       ("detect", "/opt/modules/detect.json")].
Proof.
  apply names_in_dirs_ignore_item_order.
  apply Permutation_cons_app with (l1 := [("clip", "/eta/modules/clip.json")])
                                  (l2 := [("detect", "/opt/modules/detect.json")]).
  simpl. apply perm_swap.
Defined.

Example names_in_dirs_example :
  _render_names_in_dirs_str
    [("resize", "/eta/modules/resize.json");
     ("detect", "/opt/modules/detect.json");
     ("clip", "/eta/modules/clip.json")]
  = "[ /eta/modules ]" +:+ LF +:+ "  clip" +:+ LF +:+ "  resize" +:+ LF +:+ LF
    +:+ "[ /opt/modules ]" +:+ LF +:+ "  detect".
Proof. vm_compute. reflexivity. Qed.

(** *** Directories of paths *)

Lemma head_of_path_join dir file :
  PyStr.mem "/" file = false ->
  head_of_path (dir +:+ String "/" file) = dir +:+ "/".
Proof.
  intros Hf. induction dir as [|c dir IH]; simpl.
  - rewrite Hf. reflexivity.
  - rewrite mem_app, mem_cons_same, orb_true_r, IH. reflexivity.
Qed.

Lemma all_slashes_app a b :
  all_slashes (a +:+ b) = all_slashes a && all_slashes b.
Proof.
  induction a as [|c a IH]; [reflexivity|].
  change (all_slashes (String c a +:+ b))
    with (Ascii.eqb c "/" && all_slashes (a +:+ b)).
  rewrite IH. apply andb_assoc.
Qed.

Lemma rstrip_slashes_app_slash dir :
  rstrip_slashes (dir +:+ "/") = rstrip_slashes dir.
Proof.
  induction dir as [|c dir IH]; [reflexivity|].
  change (rstrip_slashes (String c dir +:+ "/"))
    with (if all_slashes (String c dir +:+ "/") then EmptyString
          else String c (rstrip_slashes (dir +:+ "/"))).
  rewrite all_slashes_app, IH.
  change (all_slashes "/") with true. rewrite andb_true_r. reflexivity.
Qed.

Lemma rstrip_slashes_fixed dir :
  dir <> EmptyString -> rstrip_slashes dir = dir -> all_slashes dir = false.
Proof.
  destruct dir as [|c dir]; [congruence|]. intros _.
  cbn [rstrip_slashes]. destruct (all_slashes (String c dir)); [discriminate|].
  reflexivity.
Qed.

Lemma dirname_join dir file :
  dir <> EmptyString -> rstrip_slashes dir = dir ->
  PyStr.mem "/" file = false ->
  dirname (dir +:+ String "/" file) = dir.
Proof.
  intros Hne Hfix Hf. unfold dirname. rewrite (head_of_path_join _ _ Hf).
  rewrite all_slashes_app, (rstrip_slashes_fixed dir Hne Hfix).
  destruct dir as [|c dir]; [congruence|].
  cbn [String.append String.eqb negb andb].
  change (String c (dir +:+ "/")) with (String c dir +:+ "/").
  rewrite rstrip_slashes_app_slash. exact Hfix.
Qed.

(** X22.  A name whose path is [dir/file], where [dir] is not empty and has
    no trailing slash and [file] has no slash, is listed in the group of
    [dir], and in no other group. *)
Theorem names_are_grouped_under_their_directory :
  forall d name dir file,
    dir <> EmptyString -> rstrip_slashes dir = dir ->
    PyStr.mem "/" file = false ->
    In (name, dir +:+ "/" +:+ file) d ->
    NoDup (map fst d) ->
    In name (default [] (_group_by_dir d !! dir)) /\
    (forall other, In name (default [] (_group_by_dir d !! other)) ->
                   other = dir).
Proof.
  intros d name dir file Hne Hfix Hf Hin Hnd.
  assert (Hdir : dirname (dir +:+ "/" +:+ file) = dir)
    by (apply dirname_join; assumption).
  assert (Hgroup : forall k, default [] (_group_by_dir d !! k) = names_in k d).
  { intros k. rewrite group_by_dir_lookup_eq.
    destruct (names_in k d); reflexivity. }
  split.
  - rewrite Hgroup. unfold names_in.
    apply (in_map fst _ (name, dir +:+ "/" +:+ file)).
    apply List.filter_In. split; [exact Hin|].
    simpl. rewrite Hdir. apply String.eqb_refl.
  - intros other Hother. rewrite Hgroup in Hother. unfold names_in in Hother.
    apply in_map_iff in Hother as [[n p] [Hn Hp]]. simpl in Hn. subst n.
    apply List.filter_In in Hp as [Hp Heq]. simpl in Heq.
    apply String.eqb_eq in Heq.
    assert (p = dir +:+ "/" +:+ file).
    { clear -Hnd Hin Hp. induction d as [|[n q] d IH]; [destruct Hin|].
      simpl in Hnd. apply NoDup_cons in Hnd as [Hnot Hnd].
      destruct Hin as [[= -> ->]|Hin], Hp as [[= ->]|Hp].
      - reflexivity.
      - exfalso. apply Hnot. apply list_elem_of_In.
        apply (in_map fst _ (name, p)), Hp.
      - subst. exfalso. apply Hnot. apply list_elem_of_In.
        apply (in_map fst _ (name, dir +:+ "/" +:+ file)), Hin.
      - apply IH; assumption. }
    subst p. rewrite <- Heq. exact Hdir.
Qed.

Lemma names_are_grouped_under_their_directory_witness :
  In "clip"
    (default []
       (_group_by_dir
          [("resize", "/eta/modules/resize.json");
           ("detect", "/opt/modules/detect.json");
           ("clip", "/eta/modules/clip.json")] !! "/eta/modules")).
Proof.
  apply (names_are_grouped_under_their_directory _ "clip" "/eta/modules"
           "clip.json").
  - discriminate.
  - reflexivity.
  - reflexivity.
  - simpl. tauto.
  - repeat (apply NoDup_cons; split;
            [rewrite list_elem_of_In; simpl;
             intros H; repeat destruct H as [H|H]; try discriminate H;
             try destruct H|]).
    apply NoDup_nil. exact I.
Defined.

(** ** The download commands *)

(** X23.  [eta gdrive download].  With [--print] no call is given a local
    path, whether or not a path was passed; with [--public] the Drive
    client is never constructed or used; and [--public] without [--print]
    and without a path raises [ValueError] before anything is logged or
    called. *)
Theorem drive_download_modes :
  forall (E : Externals) (S : Services) args,
    (dd_print args = true ->
     forallb (fun e => negb (takes_local_path e))
       (trace (GoogleDriveDownloadCommand_run args)) = true) /\
    (dd_public args = true ->
     forallb (fun e => negb (uses_drive_client e))
       (trace (GoogleDriveDownloadCommand_run args)) = true) /\
    (dd_public args = true -> dd_print args = false -> dd_path args = None ->
     GoogleDriveDownloadCommand_run args
     = Cmd [] (Raise (ValueError
                        "Must provide `path` when `--public` flag is set"))).
Proof.
  intros E S [file_id path public print chunk_size]. cbn [dd_print dd_public dd_path].
  unfold GoogleDriveDownloadCommand_run.
  cbn [dd_print dd_public dd_path dd_file_id dd_chunk_size].
  split; [|split].
  - intros ->. destruct public.
    + destruct (download_google_drive_file file_id None chunk_size);
        reflexivity.
    + destruct (drive_client chunk_size) as [[]|e]; [|reflexivity].
      destruct (drive_download_bytes file_id); reflexivity.
  - intros ->. destruct print.
    + destruct (download_google_drive_file file_id None chunk_size);
        reflexivity.
    + destruct path as [path|]; [|reflexivity].
      destruct (download_google_drive_file file_id (Some path) chunk_size)
        as [?|?]; reflexivity.
  - intros -> -> ->. reflexivity.
Qed.

Lemma drive_download_modes_witness :
  @GoogleDriveDownloadCommand_run reference_externals reference_services
    (mk_drive_download_args "f1" None true false None)
  = Cmd [] (Raise (ValueError
                     "Must provide `path` when `--public` flag is set")) /\
  trace (@GoogleDriveDownloadCommand_run reference_externals
           reference_services
           (mk_drive_download_args "f1" (Some "out.bin") false true None))
  = [GoogleDriveStorageClient None; DriveDownloadBytes "f1"; LogInfo "data"].
Proof.
  split.
  - apply (drive_download_modes reference_externals reference_services
             (mk_drive_download_args "f1" None true false None));
      reflexivity.
  - reflexivity.
Defined.

Lemma basename_join dir file :
  PyStr.mem "/" file = false ->
  basename (dir +:+ String "/" file) = file.
Proof.
  intros Hf. induction dir as [|c dir IH]; simpl.
  - rewrite Hf. reflexivity.
  - rewrite mem_app, mem_cons_same, orb_true_r. exact IH.
Qed.

(** X24.  [eta sftp download user@host:dir/file] with no local path: the
    client is made for [host] and [user], whatever [--host] and [--user]
    say, and [dir/file] is downloaded to [file] in the working directory;
    the trace is the connection, the message and the download. *)
Theorem sftp_download_follows_the_remote_path :
  forall (S : Services) args user host dir file,
    PyStr.mem "@" user = false ->
    PyStr.mem "@" host = false -> PyStr.mem ":" host = false ->
    PyStr.mem "@" dir = false -> PyStr.mem ":" dir = false ->
    PyStr.mem "@" file = false -> PyStr.mem ":" file = false ->
    PyStr.mem "/" file = false ->
    sd_remote_path args
    = user +:+ "@" +:+ host +:+ ":" +:+ dir +:+ "/" +:+ file ->
    sd_print args = false ->
    sd_local_path args = None ->
    sftp_client (Some host) (Some user) (sd_port args) = Ok () ->
    let remote_path := dir +:+ "/" +:+ file in
    SFTPDownloadCommand_run args
    = Cmd [SFTPStorageClient (Some host) (Some user) (sd_port args);
           LogInfo (downloading_msg remote_path file);
           SFTPDownload remote_path file]
          (sftp_download remote_path file).
Proof.
  intros S args user host dir file Hu Hh Hhc Hd Hdc Hf Hfc Hfs Hpath Hprint
         Hlocal Hclient remote_path.
  assert (Hparse : _parse_remote_path (sd_remote_path args) (sd_host args)
                     (sd_user args) = Ok (Some host, Some user, remote_path)).
  { rewrite Hpath.
    change (user +:+ "@" +:+ host +:+ ":" +:+ dir +:+ "/" +:+ file)
      with (user +:+ String "@" (host +:+ String ":" remote_path)).
    assert (Hr : PyStr.mem "@" remote_path = false).
    { unfold remote_path. rewrite mem_app, Hd. simpl. exact Hf. }
    assert (Hrc : PyStr.mem ":" remote_path = false).
    { unfold remote_path. rewrite mem_app, Hdc. simpl. exact Hfc. }
    rewrite parse_remote_path_user; [|assumption|].
    - apply parse_remote_path_host; assumption.
    - rewrite mem_app, Hh. simpl. exact Hr. }
  unfold SFTPDownloadCommand_run. rewrite Hparse, Hprint, Hlocal.
  cbn. rewrite Hclient.
  change (dir +:+ String "/" file) with remote_path.
  replace (basename remote_path) with file
    by (symmetry; apply basename_join, Hfs).
  destruct (sftp_download remote_path file); reflexivity.
Qed.

Lemma sftp_download_follows_the_remote_path_witness :
  @SFTPDownloadCommand_run reference_services
    (mk_sftp_download_args "ann@example.org:/data/a.bin" None (Some "bob")
       (Some "other.org") None false)
  = Cmd [SFTPStorageClient (Some "example.org") (Some "ann") None;
         LogInfo "Downloading '/data/a.bin' to 'a.bin'";
         SFTPDownload "/data/a.bin" "a.bin"]
        (Ok ()).
Proof.
  apply (sftp_download_follows_the_remote_path reference_services
           (mk_sftp_download_args "ann@example.org:/data/a.bin" None
              (Some "bob") (Some "other.org") None false)
           "ann" "example.org" "/data" "a.bin"); reflexivity.
Defined.

(** ** Showing credentials *)

Section Auth.
Context `{Tabulate} `{CredentialStores}.

Lemma and_then_skip_l p : and_then skip p = p.
Proof. destruct p. reflexivity. Qed.

Lemma try_except_shown caught missing p :
  caught missing = true ->
  shown_or_missing missing p ->
  try_except caught p = (fst p, Done ()).
Proof.
  intros Hc [Hdone| ->].
  - destruct p as [log r]. simpl in Hdone. subst r. reflexivity.
  - simpl. rewrite Hc. reflexivity.
Qed.

End Auth.

(** X25.  [eta auth show] without a flag shows what there is: when each kind
    of credentials is either shown or missing (its loader raises the error
    of its own kind), the command returns, having logged the tables of the
    kinds that exist, Google first, then AWS, then SSH.  With [--google]
    missing Google credentials are an error instead, raised before
    anything is logged, whatever the other flags. *)
Theorem auth_show_skips_missing_credentials :
  forall (T : Tabulate) (C : CredentialStores),
    shown_or_missing GoogleCredentialsError _print_google_credentials_info ->
    shown_or_missing AWSCredentialsError _print_aws_credentials_info ->
    shown_or_missing SSHCredentialsError _print_ssh_credentials_info ->
    ShowAuthCommand_run (mk_show_auth_args false false false)
    = (fst _print_google_credentials_info
         ++ fst _print_aws_credentials_info
         ++ fst _print_ssh_credentials_info, Done ()) /\
    (forall e aws ssh,
       load_credentials_json = Failed e ->
       ShowAuthCommand_run (mk_show_auth_args true aws ssh) = ([], Failed e)).
Proof.
  intros T C Hg Ha Hs. split.
  - unfold ShowAuthCommand_run. cbn [sa_google sa_aws sa_ssh orb negb].
    rewrite !and_then_skip_l.
    rewrite (try_except_shown _ _ _ eq_refl Hg),
            (try_except_shown _ _ _ eq_refl Ha),
            (try_except_shown _ _ _ eq_refl Hs).
    reflexivity.
  - intros e aws ssh He. unfold ShowAuthCommand_run.
    cbn [sa_google sa_aws sa_ssh].
    unfold _print_google_credentials_info at 1. rewrite He. reflexivity.
Qed.

Lemma auth_show_skips_missing_credentials_witness :
  exists table,
    @ShowAuthCommand_run reference_tabulate reference_stores
      (mk_show_auth_args false false false)
    = ([table], Done ()).
Proof.
  destruct (auth_show_skips_missing_credentials reference_tabulate
              reference_stores) as [Hall _].
  - left. reflexivity.
  - right. reflexivity.
  - right. reflexivity.
  - eexists. rewrite Hall. reflexivity.
Defined.

(** ** The build request *)

Lemma update_section_ok key source d d' :
  update_section key source d = Ok d' ->
  d' = <[key := JObject (source ∪ section_of d key)]> d.
Proof.
  unfold update_section, section_of.
  destruct (d !! key) as [[| | | | |target]|]; try discriminate.
  - intros [= <-]. reflexivity.
  - intros [= <-]. rewrite (right_id_L ∅ (∪)). reflexivity.
Qed.

Lemma update_if_given_ok key source d d' :
  update_if_given key source d = Ok d' ->
  (forall key', key' <> key -> d' !! key' = d !! key') /\
  d' !! key = match given source with
              | Some s => Some (JObject (s ∪ section_of d key))
              | None => d !! key
              end.
Proof.
  unfold update_if_given. destruct (given source) as [s|].
  - intros ->%update_section_ok. split.
    + intros key' Hne. apply lookup_insert_ne. congruence.
    + apply lookup_insert_eq.
  - intros [= <-]. split; reflexivity.
Qed.

Lemma set_in_section_ok key k v d d' :
  set_in_section key k v d = Ok d' ->
  (forall key', key' <> key -> d' !! key' = d !! key') /\
  d' !! key = Some (JObject (<[k := v]> (section_of d key))).
Proof.
  unfold set_in_section, section_of.
  destruct (d !! key) as [[| | | | |target]|]; try discriminate;
    intros [= <-]; (split; [intros key' Hne; apply lookup_insert_ne; congruence|]);
    rewrite lookup_insert_eq; [reflexivity|].
  rewrite insert_empty. reflexivity.
Qed.

Lemma update_if_given_returns key source d :
  updatable d key -> exists d', update_if_given key source d = Ok d'.
Proof.
  unfold update_if_given, update_section.
  destruct (given source); [|eauto].
  intros [->|[m ->]]; eauto.
Qed.

Lemma set_in_section_returns key k v d :
  updatable d key -> exists d', set_in_section key k v d = Ok d'.
Proof.
  unfold set_in_section. intros [->|[m ->]]; eauto.
Qed.

Lemma section_of_ext d d' key :
  d !! key = d' !! key -> section_of d key = section_of d' key.
Proof. unfold section_of. intros ->. reflexivity. Qed.

(** The request after the pipeline name has been set *)
Lemma named_request_lookup (name : option string) (start : gmap string json)
    key :
  key <> "pipeline" ->
  match name with
  | Some (String _ _ as name) => <["pipeline" := JString name]> start
  | Some EmptyString | None => start
  end !! key = start !! key.
Proof.
  intros Hne. destruct name as [[|c s]|]; try reflexivity.
  apply lookup_insert_ne. congruence.
Qed.

(** What the steps of [build_request] leave, one after the other *)
Lemma build_request_steps args d :
  build_request args = Ok d ->
  exists d0 d1 d2 d3 d4 d5,
    (forall key, key <> "pipeline" -> d0 !! key = start_request args !! key) /\
    d0 !! "pipeline"
    = match b_name args with
      | Some (String _ _ as name) => Some (JString name)
      | Some EmptyString | None => start_request args !! "pipeline"
      end /\
    update_if_given "inputs" (b_inputs args) d0 = Ok d1 /\
    update_if_given "outputs" (b_outputs args) d1 = Ok d2 /\
    update_if_given "parameters" (b_parameters args) d2 = Ok d3 /\
    update_if_given "eta_config" (b_eta_config args) d3 = Ok d4 /\
    update_if_given "logging_config" (b_logging args) d4 = Ok d5 /\
    (if b_debug args
     then exists d6,
       set_in_section "logging_config" "stdout_level" (JString "DEBUG") d5
       = Ok d6 /\
       set_in_section "logging_config" "file_level" (JString "DEBUG") d6
       = Ok d
     else d = d5).
Proof.
  unfold build_request. fold (start_request args).
  set (d0 := match b_name args with
             | Some (String _ _ as name) =>
                 <["pipeline" := JString name]> (start_request args)
             | _ => start_request args
             end).
  intros Hb.
  destruct (update_if_given "inputs" (b_inputs args) d0) as [d1|] eqn:H1;
    [|discriminate]; cbn in Hb.
  destruct (update_if_given "outputs" (b_outputs args) d1) as [d2|] eqn:H2;
    [|discriminate]; cbn in Hb.
  destruct (update_if_given "parameters" (b_parameters args) d2) as [d3|] eqn:H3;
    [|discriminate]; cbn in Hb.
  destruct (update_if_given "eta_config" (b_eta_config args) d3) as [d4|] eqn:H4;
    [|discriminate]; cbn in Hb.
  destruct (update_if_given "logging_config" (b_logging args) d4) as [d5|] eqn:H5;
    [|discriminate]; cbn in Hb.
  exists d0, d1, d2, d3, d4, d5.
  split; [intros key Hne; apply named_request_lookup, Hne|].
  split.
  { subst d0. destruct (b_name args) as [[|c s]|]; try reflexivity.
    apply lookup_insert_eq. }
  repeat (split; [assumption|]).
  destruct (b_debug args).
  - destruct (set_in_section "logging_config" "stdout_level" _ d5)
      as [d6|] eqn:H6; [|discriminate]. cbn in Hb.
    lazy iota. exists d6. split; [reflexivity | exact Hb].
  - lazy iota. injection Hb as <-. reflexivity.
Qed.

(** X26.  [eta build] lays the command line over the request.  When the
    request is built, a section for which values were given holds those
    values and, under the keys not given, what the request file had there;
    a section for which nothing was given is as in the request file; the
    pipeline name is the one of [-n] if given; and every other key is as
    in the request file. *)
Theorem command_line_values_override_the_request :
  forall args d,
    build_request args = Ok d ->
    (forall key source,
       In (key, source)
          [("inputs", b_inputs args); ("outputs", b_outputs args);
           ("parameters", b_parameters args);
           ("eta_config", b_eta_config args)] ->
       d !! key
       = match given source with
         | Some s => Some (JObject (s ∪ section_of (start_request args) key))
         | None => start_request args !! key
         end) /\
    d !! "pipeline"
    = match b_name args with
      | Some (String _ _ as name) => Some (JString name)
      | Some EmptyString | None => start_request args !! "pipeline"
      end /\
    (forall key,
       ~ In key ["pipeline"; "inputs"; "outputs"; "parameters"; "eta_config";
                 "logging_config"] ->
       d !! key = start_request args !! key).
Proof.
  intros args d Hb.
  destruct (build_request_steps args d Hb)
    as (d0 & d1 & d2 & d3 & d4 & d5 & H0 & Hname & H1 & H2 & H3 & H4 & H5 & H67).
  apply update_if_given_ok in H1 as [N1 E1], H2 as [N2 E2], H3 as [N3 E3],
    H4 as [N4 E4], H5 as [N5 E5].
  assert (Hd : forall key, key <> "logging_config" -> d !! key = d5 !! key).
  { intros key Hne. destruct (b_debug args).
    - destruct H67 as (d6 & H6 & H7).
      apply set_in_section_ok in H6 as [N6 _], H7 as [N7 _].
      rewrite N7, N6 by exact Hne. reflexivity.
    - subst d. reflexivity. }
  split; [|split].
  - intros key source [[= <- <-]|[[= <- <-]|[[= <- <-]|[[= <- <-]|[]]]]].
    + rewrite Hd, N5, N4, N3, N2, E1 by discriminate.
      rewrite (section_of_ext d0 (start_request args)), H0
        by (try apply H0; discriminate).
      reflexivity.
    + rewrite Hd, N5, N4, N3, E2 by discriminate.
      rewrite (section_of_ext d1 (start_request args)), N1, H0
        by (try (rewrite N1, H0 by discriminate; reflexivity); discriminate).
      reflexivity.
    + rewrite Hd, N5, N4, E3 by discriminate.
      rewrite (section_of_ext d2 (start_request args)), N2, N1, H0
        by (try (rewrite N2, N1, H0 by discriminate; reflexivity);
            discriminate).
      reflexivity.
    + rewrite Hd, N5, E4 by discriminate.
      rewrite (section_of_ext d3 (start_request args)), N3, N2, N1, H0
        by (try (rewrite N3, N2, N1, H0 by discriminate; reflexivity);
            discriminate).
      reflexivity.
  - rewrite Hd, N5, N4, N3, N2, N1 by discriminate. exact Hname.
  - intros key Hnot.
    assert (Hne : forall k, In k ["pipeline"; "inputs"; "outputs"; "parameters";
                                  "eta_config"; "logging_config"] -> key <> k).
    { intros k Hk ->. exact (Hnot Hk). }
    rewrite Hd, N5, N4, N3, N2, N1, H0 by (apply Hne; simpl; tauto).
    reflexivity.
Qed.

(** X27.  The logging section of the built request.  [--debug] has the last
    word on the two levels: they are ["DEBUG"] whatever [-l] and the
    request file say; every other logging key comes from [-l] if it gives
    one, else from the request file. *)
Theorem debug_overrides_the_logging_levels :
  forall args d,
    build_request args = Ok d ->
    forall k,
      section_of d "logging_config" !! k
      = if b_debug args
           && (String.eqb k "stdout_level" || String.eqb k "file_level")
        then Some (JString "DEBUG")
        else (default ∅ (given (b_logging args))
              ∪ section_of (start_request args) "logging_config") !! k.
Proof.
  intros args d Hb k.
  destruct (build_request_steps args d Hb)
    as (d0 & d1 & d2 & d3 & d4 & d5 & H0 & _ & H1 & H2 & H3 & H4 & H5 & H67).
  apply update_if_given_ok in H1 as [N1 _], H2 as [N2 _], H3 as [N3 _],
    H4 as [N4 _], H5 as [_ E5].
  assert (H4s : section_of d4 "logging_config"
                = section_of (start_request args) "logging_config").
  { apply section_of_ext.
    rewrite N4, N3, N2, N1, H0 by discriminate. reflexivity. }
  assert (H5s : section_of d5 "logging_config"
                = default ∅ (given (b_logging args))
                  ∪ section_of (start_request args) "logging_config").
  { rewrite <- H4s. unfold section_of at 1. rewrite E5.
    destruct (given (b_logging args)) as [s|]; simpl; [reflexivity|].
    rewrite (left_id_L ∅ (∪)). reflexivity. }
  destruct (b_debug args); simpl.
  - destruct H67 as (d6 & H6 & H7).
    apply set_in_section_ok in H6 as [_ E6], H7 as [_ E7].
    unfold section_of at 1. rewrite E7.
    unfold section_of at 1. rewrite E6, H5s.
    destruct (String.eqb_spec k "stdout_level") as [->|Hs]; simpl.
    + rewrite lookup_insert_ne by discriminate. apply lookup_insert_eq.
    + destruct (String.eqb_spec k "file_level") as [->|Hf].
      * apply lookup_insert_eq.
      * rewrite !lookup_insert_ne by congruence. reflexivity.
  - subst d. rewrite H5s. reflexivity.
Qed.

Lemma debug_overrides_the_logging_levels_witness :
  let args :=
    mk_build_args (Some "video_formatter") None None None None None
      (Some {[ "stdout_level" := JString "INFO" ]}) true in
  exists d,
    build_request args = Ok d /\
    section_of d "logging_config" !! "stdout_level" = Some (JString "DEBUG").
Proof.
  intros args.
  destruct (build_request args) as [d|e] eqn:Hb;
    [|vm_compute in Hb; discriminate].
  exists d. split; [reflexivity|].
  exact (debug_overrides_the_logging_levels args d Hb "stdout_level").
Defined.

Lemma command_line_values_override_the_request_witness :
  let args :=
    mk_build_args (Some "video_formatter")
      (Some {[ "pipeline" := JString "old";
               "inputs" := JObject {[ "video" := JString "a.mp4" ]} ]})
      (Some {[ "video" := JString "b.mp4" ]}) None None None None false in
  exists d,
    build_request args = Ok d /\
    d !! "pipeline" = Some (JString "video_formatter").
Proof.
  intros args.
  destruct (build_request args) as [d|e] eqn:Hb;
    [|vm_compute in Hb; discriminate].
  exists d. split; [reflexivity|].
  destruct (command_line_values_override_the_request args d Hb)
    as (_ & Hname & _).
  exact Hname.
Defined.

(** X28.  Building the request fails only on a section that is not an
    object.  When every section of the request file that the command line
    touches is missing or an object, the request is built; when values are
    given for inputs and the request file has something else than an
    object there, [AttributeError] is raised. *)
Theorem build_request_needs_object_sections :
  forall args,
    (Forall (updatable (start_request args))
       ["inputs"; "outputs"; "parameters"; "eta_config"; "logging_config"] ->
     is_ok (build_request args) = true) /\
    (forall v source,
       start_request args !! "inputs" = Some v ->
       (forall m, v <> JObject m) ->
       given (b_inputs args) = Some source ->
       build_request args = Raise AttributeError).
Proof.
  intros args. split.
  - intros Hall.
    assert (Hu : forall key,
      In key ["inputs"; "outputs"; "parameters"; "eta_config";
              "logging_config"] -> updatable (start_request args) key).
    { apply List.Forall_forall, Hall. }
    assert (Hkeep : forall (d d' : gmap string json) key,
      updatable d key -> d' !! key = d !! key -> updatable d' key).
    { intros d d' key Hd He. unfold updatable. rewrite He. exact Hd. }
    unfold build_request. fold (start_request args).
    set (d0 := match b_name args with
               | Some (String _ _ as name) =>
                   <["pipeline" := JString name]> (start_request args)
               | _ => start_request args
               end).
    assert (U0 : forall key,
      In key ["inputs"; "outputs"; "parameters"; "eta_config";
              "logging_config"] -> updatable d0 key).
    { intros key Hk. apply (Hkeep (start_request args)); [apply Hu, Hk|].
      apply named_request_lookup.
      simpl in Hk. intros ->.
      destruct Hk as [Hk|[Hk|[Hk|[Hk|[Hk|[]]]]]]; discriminate. }
    destruct (update_if_given_returns "inputs" (b_inputs args) d0)
      as [d1 H1]; [apply U0; simpl; tauto|].
    rewrite H1. cbn. apply update_if_given_ok in H1 as [N1 _].
    destruct (update_if_given_returns "outputs" (b_outputs args) d1)
      as [d2 H2].
    { apply (Hkeep d0); [apply U0; simpl; tauto|].
      rewrite N1 by discriminate. reflexivity. }
    rewrite H2. cbn. apply update_if_given_ok in H2 as [N2 _].
    destruct (update_if_given_returns "parameters" (b_parameters args) d2)
      as [d3 H3].
    { apply (Hkeep d0); [apply U0; simpl; tauto|].
      rewrite N2, N1 by discriminate. reflexivity. }
    rewrite H3. cbn. apply update_if_given_ok in H3 as [N3 _].
    destruct (update_if_given_returns "eta_config" (b_eta_config args) d3)
      as [d4 H4].
    { apply (Hkeep d0); [apply U0; simpl; tauto|].
      rewrite N3, N2, N1 by discriminate. reflexivity. }
    rewrite H4. cbn. apply update_if_given_ok in H4 as [N4 _].
    destruct (update_if_given_returns "logging_config" (b_logging args) d4)
      as [d5 H5].
    { apply (Hkeep d0); [apply U0; simpl; tauto|].
      rewrite N4, N3, N2, N1 by discriminate. reflexivity. }
    rewrite H5. cbn. apply update_if_given_ok in H5 as [_ E5].
    destruct (b_debug args); [|reflexivity].
    assert (U5 : updatable d5 "logging_config").
    { unfold updatable. rewrite E5.
      destruct (given (b_logging args)); [right; eauto|].
      apply (Hkeep d0); [apply U0; simpl; tauto|].
      rewrite N4, N3, N2, N1 by discriminate. reflexivity. }
    destruct (set_in_section_returns "logging_config" "stdout_level"
                (JString "DEBUG") d5 U5) as [d6 H6].
    rewrite H6. cbn. apply set_in_section_ok in H6 as [_ E6].
    destruct (set_in_section_returns "logging_config" "file_level"
                (JString "DEBUG") d6) as [d7 H7]; [right; eauto|].
    rewrite H7. reflexivity.
  - intros v source Hv Hnot Hgiven.
    unfold build_request. fold (start_request args).
    set (d0 := match b_name args with
               | Some (String _ _ as name) =>
                   <["pipeline" := JString name]> (start_request args)
               | _ => start_request args
               end).
    assert (H0 : d0 !! "inputs" = Some v).
    { rewrite <- Hv. apply named_request_lookup. discriminate. }
    unfold update_if_given at 5. rewrite Hgiven.
    unfold update_section. rewrite H0.
    destruct v as [| | | | |m]; try reflexivity.
    exfalso. exact (Hnot m eq_refl).
Qed.

Lemma build_request_needs_object_sections_witness :
  build_request
    (mk_build_args None (Some {[ "inputs" := JArray [] ]})
       (Some {[ "video" := JString "a.mp4" ]}) None None None None false)
  = Raise AttributeError.
Proof.
  destruct (build_request_needs_object_sections
              (mk_build_args None (Some {[ "inputs" := JArray [] ]})
                 (Some {[ "video" := JString "a.mp4" ]}) None None None None
                 false)) as [_ Hfail].
  apply (Hfail (JArray []) {[ "video" := JString "a.mp4" ]}).
  - vm_compute. reflexivity.
  - intros m. discriminate.
  - vm_compute. reflexivity.
Defined.
